(** * chatdalleai: command handlers, rate limiter and task registry of bot.py

    A shallow embedding of [bot.py].  Every command handler of the source is
    a function in a small state monad over the process state (the three
    in-memory dictionaries, the [LOG_CHANNEL_ID] global, the four MongoDB
    collections) extended with the ordered list of outbound effects the
    handler issued.  Background work started with [asyncio.create_task] lives
    in a heap of task objects; the registry [user_tasks] holds references
    into that heap, so that two handles to one task alias.

    What the outside world answers (the image provider, the speech service,
    the transport inside broadcast's [try] blocks) is a parameter, [Env].
    Message dates are whole seconds, as Telegram sends them.  A [str] is
    held as its UTF-8 encoding.  A handler invocation is one transition of
    the state; an exception that leaves a handler ends it and is recorded
    as its last effect.  A background coroutine advances from one
    suspension point to the next each time the loop gives it a turn: it
    suspends at the calls of the transport and at [asyncio.sleep], and the
    call it waits for is issued when it suspends.  Outside broadcast's
    [try] blocks the transport is taken to accept every message. *)

From Stdlib Require Import Ascii String ZArith Lia.
From stdpp Require Import base option list gmap strings pretty.

Local Open Scope string_scope.
Local Open Scope list_scope.
Local Open Scope Z_scope.

(** ** Python strings *)

Module Py.

Definition space : ascii := ascii_of_nat 32.
Definition nl : string := String (ascii_of_nat 10) "".

(** [s.split(' ')]: cut at every single blank, keeping empty pieces. *)
Fixpoint split (s : string) : list string :=
  match s with
  | EmptyString => [EmptyString]
  | String c r =>
      if Ascii.eqb c space then EmptyString :: split r
      else match split r with
           | w :: ws => String c w :: ws
           | [] => [String c EmptyString]
           end
  end.

(** [' '.join(l)] *)
Fixpoint join (l : list string) : string :=
  match l with
  | [] => ""
  | [w] => w
  | w :: ws => w +:+ " " +:+ join ws
  end.

(** Truth value of a string: [if s:] *)
Definition nonempty (s : string) : bool :=
  match s with EmptyString => false | _ => true end.

(** Truth value of an optional string ([None] and [''] are both false). *)
Definition truthy (o : option string) : bool :=
  match o with Some s => nonempty s | None => false end.

(** [x or ''] *)
Definition or_empty (o : option string) : string :=
  match o with Some s => if nonempty s then s else "" | None => "" end.

(** [str(x)] for an optional string, as an f-string prints it. *)
Definition str_opt (o : option string) : string :=
  match o with Some s => s | None => "None" end.

(** The code points for which [str.isspace] holds, the white space that
    [str.strip()] removes: U+0009..U+000D, U+001C..U+0020, U+0085, U+00A0,
    U+1680, U+2000..U+200A, U+2028, U+2029, U+202F, U+205F, U+3000. *)
Definition space_code_points : list N :=
  [9; 10; 11; 12; 13; 28; 29; 30; 31; 32; 133; 160; 5760;
   8192; 8193; 8194; 8195; 8196; 8197; 8198; 8199; 8200; 8201; 8202;
   8232; 8233; 8239; 8287; 12288]%N.

(** The UTF-8 encoding of a code point below U+10000. *)
Definition utf8 (n : N) : list ascii :=
  if (n <? 128)%N then [ascii_of_N n]
  else if (n <? 2048)%N then
    [ascii_of_N (192 + n / 64); ascii_of_N (128 + n mod 64)]
  else
    [ascii_of_N (224 + n / 4096); ascii_of_N (128 + (n / 64) mod 64);
     ascii_of_N (128 + n mod 64)].

(** The white-space characters, encoded, and the same read backwards. *)
Definition white_space : list (list ascii) := utf8 <$> space_code_points.
Definition white_space_backwards : list (list ascii) := (fun w => rev w) <$> white_space.

Fixpoint starts_with (w l : list ascii) : bool :=
  match w, l with
  | [], _ => true
  | a :: w', b :: l' => Ascii.eqb a b && starts_with w' l'
  | _ :: _, [] => false
  end.

(** One character of [ws] taken off the front, when the text starts with
    one. *)
Definition skip_one (ws : list (list ascii)) (l : list ascii) : option (list ascii) :=
  match List.find (fun w => starts_with w l) ws with
  | Some w => Some (drop (length w) l)
  | None => None
  end.

(** The characters of [ws] taken off the front, one after the other; each
    round takes at least one byte, so [length l] rounds are enough. *)
Fixpoint skip_all (ws : list (list ascii)) (rounds : nat) (l : list ascii) : list ascii :=
  match rounds with
  | O => l
  | S n =>
      match skip_one ws l with
      | Some r => skip_all ws n r
      | None => l
      end
  end.

Definition lstrip (s : string) : string :=
  let l := list_ascii_of_string s in
  string_of_list_ascii (skip_all white_space (length l) l).

(** The same from the end: the text and the characters are read backwards. *)
Definition rstrip (s : string) : string :=
  let l := rev (list_ascii_of_string s) in
  string_of_list_ascii (rev (skip_all white_space_backwards (length l) l)).

(** [s.strip()] *)
Definition strip (s : string) : string := lstrip (rstrip s).

(** The text begins, resp. ends, with a white-space character. *)
Definition starts_with_space (s : string) : bool :=
  existsb (fun w => starts_with w (list_ascii_of_string s)) white_space.
Definition ends_with_space (s : string) : bool :=
  existsb (fun w => starts_with w (rev (list_ascii_of_string s))) white_space_backwards.

(** [text.split(' ')[1:]] *)
Definition args (text : string) : list string := tail (split text).

(** [' '.join(text.split(' ')[1:])] *)
Definition rest (text : string) : string := join (args text).

End Py.

(** ** Data model *)

(** [message.from_user]: the Telegram user behind a message. *)
Record User := {
  uid : Z;                       (* user.id *)
  username : option string;      (* user.username, may be None *)
  first_name : string;
  last_name : option string
}.

Record Chat := {
  chat_id : Z;
  chat_type : string;
  title : string
}.

(** An incoming [types.Message].  [date] is the message date in whole
    seconds (Telegram dates are Unix times); [reply_to_message] holds the
    file ids of the photo sizes of the message replied to, when there is
    one. *)
Record Message := {
  from_user : User;
  chat : Chat;
  text : string;
  date : Z;
  reply_to_message : option (list string)
}.

(** Documents of the four collections. *)
Record UserDoc := { ud_user_id : Z; ud_username : option string; ud_full_name : string }.
Record GroupDoc := { gd_group_id : Z; gd_title : string }.
Record SubDoc := { sd_user_id : Z; sd_plan : option string }.
Record GiftDoc := { gc_code : string; gc_plan : string }.

(** The first argument of [bot.send_message]: a numeric chat id, or the
    string held in [LOG_CHANNEL_ID]. *)
Inductive ChatRef :=
| ChatInt (n : Z)
| ChatStr (s : string).

(** The exceptions that leave a handler of bot.py. *)
Inductive Exception :=
| TypeError     (* await on a value that is no awaitable *)
| NameError.    (* a name that is bound nowhere *)

(** Outbound effects, in the order they are issued. *)
Inductive Effect :=
| Reply (to : Z) (body : string)              (* message.reply *)
| ReplyHTML (to : Z) (body : string)          (* message.reply(.., parse_mode=HTML) *)
| ReplyPhoto (to : Z) (url : string)          (* message.reply_photo *)
| SendMessage (to : ChatRef) (body : string)  (* bot.send_message *)
| SendPhoto (to : Z) (url : string)           (* bot.send_photo *)
| SendAudio (to : Z) (audio : string)         (* bot.send_audio *)
| ProviderRequest (prompt : string)           (* requests.post in generate_image *)
| PollyRequest (body : string)                (* polly_client.synthesize_speech *)
| WriteFile (name data : string)              (* open(name, 'wb').write(data) *)
| Sleep (secs : Z)                            (* asyncio.sleep *)
| LogError (line : string)                    (* log.error *)
| LogInfo (line : string)                     (* log.info *)
| Raise (e : Exception).                      (* an exception leaves the handler *)

(** What a coroutine awaits. *)
Inductive IO :=
| IOSendPhoto (to : Z) (url : string)
| IOSendMessage (to : Z) (body : string)
| IOLogMessage (user : User) (user_input bot_response : string)
| IOSleep (secs : Z).

(** The body of a background coroutine: a script whose [Await] nodes are
    the [await] expressions, [Generate] is the blocking call of
    [generate_image] and [SetUserImage] the assignment
    [user_images[uid] = url]. *)
Inductive Coro :=
| Finish
| Await (io : IO) (k : Coro)
| Generate (prompt : string) (k : option string -> Coro)
| SetUserImage (u : Z) (url : string) (k : Coro).

(** An [asyncio.Task] object. *)
Record Task := {
  t_coro : Coro;          (* what is left to run *)
  t_must_cancel : bool;   (* cancel() was called and not yet delivered *)
  t_done : bool           (* task.done() *)
}.

(** The process state.  [tasks] is the heap of task objects, a handle is an
    index into it. *)
Record State := {
  last_ai_use : gmap Z Z;
  user_images : gmap Z string;
  user_tasks : gmap Z nat;
  tasks : list Task;
  LOG_CHANNEL_ID : option string;
  users_collection : list UserDoc;
  groups_collection : list GroupDoc;
  subscriptions_collection : list SubDoc;
  gift_codes_collection : list GiftDoc;
  outbox : list Effect
}.

(** What the process is configured with and what the outside world answers. *)
Record Env := {
  BOT_OWNER_ID : Z;
  (* generate_image: the URL, or None on any failure *)
  generate_image : string -> option string;
  (* the line generate_image writes with log.error on its way to return
     None (lines 49 and 52), when it takes one of these two ways *)
  generate_image_error : string -> option string;
  (* bot.get_file_url: a plain method, it returns a str *)
  get_file_url : string -> string;
  (* polly_client.synthesize_speech: the audio, or the text of the
     exception raised *)
  synthesize_speech : string -> string + string;
  (* bot.send_message inside broadcast's try blocks: None, or the text of
     the exception raised *)
  deliver : Z -> string -> option string
}.

Definition init_state (log_channel : option string) : State :=
  {| last_ai_use := ∅; user_images := ∅; user_tasks := ∅; tasks := [];
     LOG_CHANNEL_ID := log_channel;
     users_collection := []; groups_collection := [];
     subscriptions_collection := []; gift_codes_collection := [];
     outbox := [] |}.

(** ** State updates *)

Definition set_last_ai_use (v : gmap Z Z) (st : State) : State :=
  {| last_ai_use := v; user_images := user_images st; user_tasks := user_tasks st;
     tasks := tasks st; LOG_CHANNEL_ID := LOG_CHANNEL_ID st;
     users_collection := users_collection st; groups_collection := groups_collection st;
     subscriptions_collection := subscriptions_collection st;
     gift_codes_collection := gift_codes_collection st; outbox := outbox st |}.

Definition set_user_images (v : gmap Z string) (st : State) : State :=
  {| last_ai_use := last_ai_use st; user_images := v; user_tasks := user_tasks st;
     tasks := tasks st; LOG_CHANNEL_ID := LOG_CHANNEL_ID st;
     users_collection := users_collection st; groups_collection := groups_collection st;
     subscriptions_collection := subscriptions_collection st;
     gift_codes_collection := gift_codes_collection st; outbox := outbox st |}.

Definition set_user_tasks (v : gmap Z nat) (st : State) : State :=
  {| last_ai_use := last_ai_use st; user_images := user_images st; user_tasks := v;
     tasks := tasks st; LOG_CHANNEL_ID := LOG_CHANNEL_ID st;
     users_collection := users_collection st; groups_collection := groups_collection st;
     subscriptions_collection := subscriptions_collection st;
     gift_codes_collection := gift_codes_collection st; outbox := outbox st |}.

Definition set_tasks (v : list Task) (st : State) : State :=
  {| last_ai_use := last_ai_use st; user_images := user_images st; user_tasks := user_tasks st;
     tasks := v; LOG_CHANNEL_ID := LOG_CHANNEL_ID st;
     users_collection := users_collection st; groups_collection := groups_collection st;
     subscriptions_collection := subscriptions_collection st;
     gift_codes_collection := gift_codes_collection st; outbox := outbox st |}.

Definition set_LOG_CHANNEL_ID (v : option string) (st : State) : State :=
  {| last_ai_use := last_ai_use st; user_images := user_images st; user_tasks := user_tasks st;
     tasks := tasks st; LOG_CHANNEL_ID := v;
     users_collection := users_collection st; groups_collection := groups_collection st;
     subscriptions_collection := subscriptions_collection st;
     gift_codes_collection := gift_codes_collection st; outbox := outbox st |}.

Definition set_users_collection (v : list UserDoc) (st : State) : State :=
  {| last_ai_use := last_ai_use st; user_images := user_images st; user_tasks := user_tasks st;
     tasks := tasks st; LOG_CHANNEL_ID := LOG_CHANNEL_ID st;
     users_collection := v; groups_collection := groups_collection st;
     subscriptions_collection := subscriptions_collection st;
     gift_codes_collection := gift_codes_collection st; outbox := outbox st |}.

Definition set_groups_collection (v : list GroupDoc) (st : State) : State :=
  {| last_ai_use := last_ai_use st; user_images := user_images st; user_tasks := user_tasks st;
     tasks := tasks st; LOG_CHANNEL_ID := LOG_CHANNEL_ID st;
     users_collection := users_collection st; groups_collection := v;
     subscriptions_collection := subscriptions_collection st;
     gift_codes_collection := gift_codes_collection st; outbox := outbox st |}.

Definition set_subscriptions_collection (v : list SubDoc) (st : State) : State :=
  {| last_ai_use := last_ai_use st; user_images := user_images st; user_tasks := user_tasks st;
     tasks := tasks st; LOG_CHANNEL_ID := LOG_CHANNEL_ID st;
     users_collection := users_collection st; groups_collection := groups_collection st;
     subscriptions_collection := v;
     gift_codes_collection := gift_codes_collection st; outbox := outbox st |}.

Definition set_gift_codes_collection (v : list GiftDoc) (st : State) : State :=
  {| last_ai_use := last_ai_use st; user_images := user_images st; user_tasks := user_tasks st;
     tasks := tasks st; LOG_CHANNEL_ID := LOG_CHANNEL_ID st;
     users_collection := users_collection st; groups_collection := groups_collection st;
     subscriptions_collection := subscriptions_collection st;
     gift_codes_collection := v; outbox := outbox st |}.

Definition set_outbox (v : list Effect) (st : State) : State :=
  {| last_ai_use := last_ai_use st; user_images := user_images st; user_tasks := user_tasks st;
     tasks := tasks st; LOG_CHANNEL_ID := LOG_CHANNEL_ID st;
     users_collection := users_collection st; groups_collection := groups_collection st;
     subscriptions_collection := subscriptions_collection st;
     gift_codes_collection := gift_codes_collection st; outbox := v |}.

(** ** The handler monad: state passing over [State] *)

Definition M (A : Type) : Type := State -> A * State.

Definition ret {A} (a : A) : M A := fun st => (a, st).
Definition bind {A B} (m : M A) (f : A -> M B) : M B :=
  fun st => let (a, st') := m st in f a st'.
Definition gets {A} (f : State -> A) : M A := fun st => (f st, st).
Definition modify (f : State -> State) : M unit := fun st => (tt, f st).
Definition exec {A} (m : M A) (st : State) : State := snd (m st).

Declare Scope py_scope.
Delimit Scope py_scope with py.
Notation "x <- c ;; k" := (bind c (fun x => k))
  (at level 100, c at next level, right associativity) : py_scope.
Notation "c ;; k" := (bind c (fun _ => k))
  (at level 100, right associativity) : py_scope.
Notation "'pass'" := (ret tt) : py_scope.
Local Open Scope py_scope.

(** Issue one outbound effect. *)
Definition emit (e : Effect) : M unit :=
  modify (fun st => set_outbox (outbox st ++ [e]) st).

(** [raise]: the exception leaves the handler, whose remaining code, the
    continuation [k] of the two cases below, is not run. *)
Definition raise_ (e : Exception) : M unit := emit (Raise e).

(** [x = await v] where [v] is a plain value and no awaitable: TypeError. *)
Definition await_plain {A} (v : A) (k : A -> M unit) : M unit := raise_ TypeError.

(** [x = name()] where [name] is bound nowhere in the module: NameError. *)
Definition call_unbound {A} (name : string) (k : A -> M unit) : M unit := raise_ NameError.

(** ** The document store *)

Module Mongo.

(** [find_one(filter)]: the first matching document. *)
Definition find_one {D} (p : D -> bool) (c : list D) : option D := List.find p c.

(** [update_one(filter, {'$set': ..}, upsert=True)]: the first matching
    document is updated in place; without a match a new one is added. *)
Fixpoint update_one_upsert {D} (p : D -> bool) (upd : D -> D) (fresh : D)
    (c : list D) : list D :=
  match c with
  | [] => [fresh]
  | d :: c' => if p d then upd d :: c' else d :: update_one_upsert p upd fresh c'
  end.

(** [find_one_and_delete(filter)]: the first matching document is removed
    and returned, in one store operation. *)
Fixpoint find_one_and_delete {D} (p : D -> bool) (c : list D) : option D * list D :=
  match c with
  | [] => (None, [])
  | d :: c' =>
      if p d then (Some d, c')
      else let (r, c'') := find_one_and_delete p c' in (r, d :: c'')
  end.

(** [insert_one(doc)] *)
Definition insert_one {D} (d : D) (c : list D) : list D := c ++ [d].

End Mongo.

Definition by_user_id (u : Z) (d : SubDoc) : bool := bool_decide (sd_user_id d = u).
Definition by_code (c : string) (d : GiftDoc) : bool := bool_decide (gc_code d = c).
Definition by_ud_user_id (u : Z) (d : UserDoc) : bool := bool_decide (ud_user_id d = u).
Definition by_group_id (g : Z) (d : GroupDoc) : bool := bool_decide (gd_group_id d = g).

(** ** Replies and texts *)

Definition msg_wait : string :=
  "Please wait for 5 seconds before using the /ai command again.".
Definition msg_generating : string := "Generating image...".
Definition msg_ai_usage : string := "Please provide a prompt after the /ai command.".
Definition msg_image_error : string :=
  "Sorry, there was an error generating the image. Please contact @AkhandanandTripathi to fix it.".
Definition msg_generating_many : string := "Generating images...".
Definition msg_proai_usage : string := "Please provide a prompt after the /proai command.".
Definition msg_need_redeem : string :=
  "You need to redeem a gift code to use the /proai command.".
Definition msg_proai_error : string :=
  "Sorry, there was an error generating one of the images. Please contact @AkhandanandTripathi to fix it.".
Definition msg_modify_error : string :=
  "Sorry, there was an error modifying the image. Please contact @AkhandanandTripathi to fix it.".
Definition msg_modify_usage : string := "Please provide a prompt after the /modify command.".
Definition msg_no_image : string :=
  "No image found to modify. Please generate an image first using /ai command or reply to an image with /modify command.".
Definition msg_ask_error : string :=
  "Sorry, there was an error generating the answer. Please contact @AkhandanandTripathi to fix it.".
Definition msg_ask_usage : string := "Please provide a query after the /ask command.".
Definition msg_dev : string := "Developer @AkhandanandTripathi".
Definition msg_setlog_usage : string := "Usage: /setlogchannel <log_channel_id>".
Definition msg_no_permission : string :=
  "You don't have permission to use this command. Please ask @AkhandanandTripathi to do it.".
Definition msg_redeemed : string :=
  "You have successfully redeemed the code and upgraded to the professional plan.".
Definition msg_invalid_code : string := "Invalid or already redeemed gift code.".
Definition msg_redeem_usage : string := "Usage: /redeem <gift_code>".
Definition msg_not_capable : string := "Ummmm, you are not capable of it.".
Definition msg_broadcast_sent : string := "Broadcast message sent.".
Definition msg_broadcast_usage : string := "Usage: /broadcast <message>".
Definition msg_ai_canceled : string := "Your /ai command has been canceled.".
Definition msg_ai_none : string := "You do not have any active /ai command.".
Definition msg_proai_canceled : string := "Your /proai command has been canceled.".
Definition msg_proai_none : string := "You do not have any active /proai command.".
Definition msg_voice_error : string :=
  "Sorry, there was an error generating the audio. Please contact @AkhandanandTripathi to fix it.".
Definition msg_voice_usage : string :=
  "Please provide text to convert to speech after the /voice command.".
Definition msg_start : string :=
  "Hi! Send me a command /ai followed by your prompt to generate an image, or use /ask followed by your query to get an answer, or /dev to get developer info, or /help to get all commands info."
  +:+ Py.nl +:+ Py.nl +:+ "Developed by @AkhandanandTripathi".
Definition msg_help : string :=
  "Available commands:" +:+ Py.nl +:+
  "/start - Start the bot" +:+ Py.nl +:+
  "/ai <prompt> - Generate an image based on the prompt" +:+ Py.nl +:+
  "/proai <prompt> - Generate an image based on the prompt (professional, no time limit)" +:+ Py.nl +:+
  "/modify <prompt> - Modify the last generated image" +:+ Py.nl +:+
  "/ask <query> - Get an answer to your query" +:+ Py.nl +:+
  "/dev - Get developer info" +:+ Py.nl +:+
  "/setlogchannel <id> - Set the log channel (owner only)" +:+ Py.nl +:+
  "/ping - Check the server response time" +:+ Py.nl +:+
  "/generate - Generate a gift code (owner only)" +:+ Py.nl +:+
  "/redeem <code> - Redeem a gift code to get a professional plan" +:+ Py.nl +:+
  "/users - Get the list of users (owner only)" +:+ Py.nl +:+
  "/broadcast <message> - Broadcast a message to all users and groups (owner only)" +:+ Py.nl +:+
  "/cancelai - Cancel the current /ai command" +:+ Py.nl +:+
  "/cancelproai - Cancel the current /proai command" +:+ Py.nl +:+
  "/voice <text> - Convert text to speech using Amazon Polly".

Definition professional : string := "professional".

(** The text [log_message] sends to the log channel. *)
Definition log_text (user : User) (user_input bot_response : string) : string :=
  let user_info :=
    "User ID: " +:+ pretty (uid user) +:+ Py.nl +:+
    "Username: @" +:+ Py.str_opt (username user) +:+ Py.nl +:+
    "Name: " +:+ first_name user +:+ " " +:+ Py.or_empty (last_name user) in
  user_info +:+ Py.nl +:+ "User input: " +:+ user_input +:+ Py.nl +:+
  "Bot response: " +:+ bot_response.

(** The entries [log_message] adds for a given value of [LOG_CHANNEL_ID]:
    one message to the channel when it is set to a non-empty string. *)
Definition log_entries (ch : option string) (user : User)
    (user_input bot_response : string) : list Effect :=
  match ch with
  | Some c => if Py.nonempty c
              then [SendMessage (ChatStr c) (log_text user user_input bot_response)]
              else []
  | None => []
  end.

(** [async def log_message(user, user_input, bot_response)] *)
Definition log_message (user : User) (user_input bot_response : string) : M unit :=
  modify (fun st =>
    set_outbox (outbox st ++ log_entries (LOG_CHANNEL_ID st) user user_input bot_response) st).

(** [await message.reply(text)] *)
Definition reply (m : Message) (body : string) : M unit :=
  emit (Reply (chat_id (chat m)) body).

(** [for x in l: body(x)] *)
Fixpoint for_each {A} (l : list A) (body : A -> M unit) : M unit :=
  match l with
  | [] => pass
  | x :: l' => body x ;; for_each l' body
  end.

(** ** Background coroutines *)

(** [async def generate_image_task(user, user_input, prompt)] *)
Definition generate_image_task (user : User) (user_input prompt : string) : Coro :=
  Generate prompt (fun image_url =>
    if Py.truthy image_url then
      let url := Py.str_opt image_url in
      Await (IOSendPhoto (uid user) url)
        (Await (IOLogMessage user user_input url)
          (SetUserImage (uid user) url Finish))
    else
      Await (IOSendMessage (uid user) msg_image_error)
        (Await (IOLogMessage user user_input msg_image_error) Finish)).

(** The prompt of one step of the professional flow:
    [f"{prompt} (image {i + 1} improving each time)"] *)
Definition proai_prompt (prompt : string) (i : nat) : string :=
  prompt +:+ " (image " +:+ pretty (i + 1)%nat +:+ " improving each time)".

(** The loop of [generate_proai_task] over the indices still to come. *)
Fixpoint proai_loop (user : User) (user_input prompt : string) (range : list nat) : Coro :=
  match range with
  | [] => Finish
  | i :: range' =>
      Generate (proai_prompt prompt i) (fun image_url =>
        if Py.truthy image_url then
          Await (IOSendPhoto (uid user) (Py.str_opt image_url))
            (Await (IOLogMessage user user_input (Py.str_opt image_url))
              (Await (IOSleep 5)
                (proai_loop user user_input prompt range')))
        else
          (* break *)
          Await (IOSendMessage (uid user) msg_proai_error)
            (Await (IOLogMessage user user_input msg_proai_error) Finish))
  end.

(** [async def generate_proai_task(user, user_input, prompt)]:
    [for i in range(15)] *)
Definition generate_proai_task (user : User) (user_input prompt : string) : Coro :=
  proai_loop user user_input prompt (seq 0 15).

(** [asyncio.create_task(coro)]: a new task object; the handle is its
    place in the heap. *)
Definition create_task (c : Coro) : M nat :=
  fun st => (length (tasks st),
             set_tasks (tasks st ++ [{| t_coro := c; t_must_cancel := false; t_done := false |}]) st).

(** ** Command handlers *)

Section Handlers.

Variable env : Env.

(** [def is_owner(user_id)] *)
Definition is_owner (user_id : Z) : bool := bool_decide (user_id = BOT_OWNER_ID env).

(** What [log.error] writes during a call of [generate_image]: a line on
    each of the two ways that end in [return None], nothing when the value
    of the "url" entry is returned. *)
Definition generate_image_log (prompt : string) : list Effect :=
  match generate_image env prompt, generate_image_error env prompt with
  | None, Some line => [LogError line]
  | _, _ => []
  end.

(** A call of [generate_image]: the request, the error line if any, and
    the value returned. *)
Definition call_generate_image (prompt : string) : M (option string) :=
  emit (ProviderRequest prompt) ;;
  for_each (generate_image_log prompt) emit ;;
  ret (generate_image env prompt).

Definition start_command (m : Message) : M unit :=
  let user := from_user m in
  let user_input := text m in
  reply m msg_start ;;
  log_message user user_input msg_start ;;
  let full_name := Py.strip (first_name user +:+ " " +:+ Py.or_empty (last_name user)) in
  modify (fun st => set_users_collection
    (Mongo.update_one_upsert (by_ud_user_id (uid user))
       (fun d => {| ud_user_id := ud_user_id d; ud_username := username user;
                    ud_full_name := full_name |})
       {| ud_user_id := uid user; ud_username := username user; ud_full_name := full_name |}
       (users_collection st)) st).

Definition help_command (m : Message) : M unit :=
  let user := from_user m in
  let user_input := text m in
  reply m msg_help ;;
  log_message user user_input msg_help.

(** The cooldown test of [ai_command]:
    [user_id in last_ai_use and (current_time - last_ai_use[user_id]).total_seconds() < 5] *)
Definition too_soon (last : option Z) (current_time : Z) : bool :=
  match last with
  | Some t => current_time - t <? 5
  | None => false
  end.

Definition ai_command (m : Message) : M unit :=
  let user := from_user m in
  let user_input := text m in
  let user_id := uid user in
  let current_time := date m in
  last <- gets (fun st => last_ai_use st !! user_id) ;;
  if too_soon last current_time then
    reply m msg_wait ;;
    log_message user user_input msg_wait
  else
    modify (fun st => set_last_ai_use (<[user_id := current_time]> (last_ai_use st)) st) ;;
    let user_prompt := Py.rest (text m) in
    if Py.nonempty user_prompt then
      reply m msg_generating ;;
      task <- create_task (generate_image_task user user_input user_prompt) ;;
      modify (fun st => set_user_tasks (<[user_id := task]> (user_tasks st)) st)
    else
      reply m msg_ai_usage ;;
      log_message user user_input msg_ai_usage.

(** [subscription and subscription.get('plan') == 'professional'] *)
Definition is_professional (subscription : option SubDoc) : bool :=
  match subscription with
  | Some d => bool_decide (sd_plan d = Some professional)
  | None => false
  end.

Definition proai_command (m : Message) : M unit :=
  let user := from_user m in
  let user_input := text m in
  let user_id := uid user in
  subscription <- gets (fun st =>
    Mongo.find_one (by_user_id user_id) (subscriptions_collection st)) ;;
  if is_professional subscription then
    let user_prompt := Py.rest (text m) in
    if Py.nonempty user_prompt then
      reply m msg_generating_many ;;
      task <- create_task (generate_proai_task user user_input user_prompt) ;;
      modify (fun st => set_user_tasks (<[user_id := task]> (user_tasks st)) st)
    else
      reply m msg_proai_usage ;;
      log_message user user_input msg_proai_usage
  else
    reply m msg_need_redeem ;;
    log_message user user_input msg_need_redeem.

(** [message.reply_to_message and message.reply_to_message.photo] *)
Definition replied_photo (m : Message) : option string :=
  match reply_to_message m with
  | Some photo => last photo           (* photo[-1].file_id *)
  | None => None
  end.

Definition modify_prompt_text (source with_prompt : string) : string :=
  "Modify this image: " +:+ source +:+ " with " +:+ with_prompt.

Definition modify_command (m : Message) : M unit :=
  let user := from_user m in
  let user_input := text m in
  let user_id := uid user in
  let modify_prompt := Py.rest (text m) in
  last_image <- gets (fun st => user_images st !! user_id) ;;
  match replied_photo m with
  | Some file_id =>
      (* file_url = await bot.get_file_url(photo.file_id) *)
      await_plain (get_file_url env file_id) (fun file_url =>
      if Py.nonempty modify_prompt then
        reply m "Modifying the image..." ;;
        modified_image_url <- call_generate_image (modify_prompt_text file_url modify_prompt) ;;
        if Py.truthy modified_image_url then
          emit (ReplyPhoto (chat_id (chat m)) (Py.str_opt modified_image_url)) ;;
          log_message user user_input (Py.str_opt modified_image_url)
        else
          reply m msg_modify_error ;;
          log_message user user_input msg_modify_error
      else
        reply m msg_modify_usage ;;
        log_message user user_input msg_modify_usage)
  | None =>
      match last_image with
      | Some image =>
          if Py.nonempty modify_prompt then
            reply m "Modifying the last generated image..." ;;
            modified_image_url <- call_generate_image (modify_prompt_text image modify_prompt) ;;
            if Py.truthy modified_image_url then
              emit (ReplyPhoto (chat_id (chat m)) (Py.str_opt modified_image_url)) ;;
              log_message user user_input (Py.str_opt modified_image_url) ;;
              modify (fun st => set_user_images
                (<[user_id := Py.str_opt modified_image_url]> (user_images st)) st)
            else
              reply m msg_modify_error ;;
              log_message user user_input msg_modify_error
          else
            reply m msg_modify_usage ;;
            log_message user user_input msg_modify_usage
      | None =>
          reply m msg_no_image ;;
          log_message user user_input msg_no_image
      end
  end.

Definition ask_command (m : Message) : M unit :=
  let user := from_user m in
  let user_input := text m in
  let user_question := Py.rest (text m) in
  if Py.nonempty user_question then
    reply m "Thinking..." ;;
    answer <- call_generate_image user_question ;;
    if Py.truthy answer then
      reply m (Py.str_opt answer) ;;
      log_message user user_input (Py.str_opt answer)
    else
      reply m msg_ask_error ;;
      log_message user user_input msg_ask_error
  else
    reply m msg_ask_usage ;;
    log_message user user_input msg_ask_usage.

Definition dev_command (m : Message) : M unit :=
  let user := from_user m in
  let user_input := text m in
  reply m msg_dev ;;
  log_message user user_input msg_dev.

Definition setlogchannel_command (m : Message) : M unit :=
  let user := from_user m in
  let user_input := text m in
  if is_owner (uid user) then
    match Py.args (text m) with
    | [arg] =>
        modify (set_LOG_CHANNEL_ID (Some arg)) ;;
        let response_text := "Log channel set to " +:+ arg in
        reply m response_text ;;
        log_message user user_input response_text
    | _ =>
        reply m msg_setlog_usage ;;
        log_message user user_input msg_setlog_usage
    end
  else
    reply m msg_no_permission ;;
    log_message user user_input msg_no_permission.

(** [start_time] and [end_time] are both [message.date.timestamp()]. *)
Definition ping_time (m : Message) : Z :=
  let start_time := date m in
  let end_time := date m in
  (end_time - start_time) * 1000.

Definition ping_command (m : Message) : M unit :=
  let user := from_user m in
  let user_input := text m in
  reply m "Pong!" ;;
  let response_text := "Pong! " +:+ pretty (ping_time m) +:+ " ms" in
  reply m response_text ;;
  log_message user user_input response_text.

Definition generate_command (m : Message) : M unit :=
  let user := from_user m in
  let user_input := text m in
  if is_owner (uid user) then
    (* code = generate_code(): bot.py neither defines nor imports the name *)
    call_unbound "generate_code" (fun code =>
    modify (fun st => set_gift_codes_collection
      (Mongo.insert_one {| gc_code := code; gc_plan := professional |}
         (gift_codes_collection st)) st) ;;
    let response_text := "Generated gift code: " +:+ code in
    reply m response_text ;;
    log_message user user_input response_text)
  else
    reply m msg_no_permission ;;
    log_message user user_input msg_no_permission.

(** [gift_codes_collection.find_one_and_delete({'code': code})] *)
Definition take_gift_code (code : string) : M (option GiftDoc) :=
  fun st =>
    let (found, remaining) :=
      Mongo.find_one_and_delete (by_code code) (gift_codes_collection st) in
    (found, set_gift_codes_collection remaining st).

(** [subscriptions_collection.update_one({'user_id': u}, {'$set': {'plan': 'professional'}}, upsert=True)] *)
Definition upgrade (u : Z) (c : list SubDoc) : list SubDoc :=
  Mongo.update_one_upsert (by_user_id u)
    (fun d => {| sd_user_id := sd_user_id d; sd_plan := Some professional |})
    {| sd_user_id := u; sd_plan := Some professional |} c.

Definition redeem_command (m : Message) : M unit :=
  let user := from_user m in
  let user_input := text m in
  match Py.args (text m) with
  | [code] =>
      gift_code <- take_gift_code code ;;
      match gift_code with
      | Some _ =>
          modify (fun st => set_subscriptions_collection
            (upgrade (uid user) (subscriptions_collection st)) st) ;;
          reply m msg_redeemed ;;
          log_message user user_input msg_redeemed
      | None =>
          reply m msg_invalid_code ;;
          log_message user user_input msg_invalid_code
      end
  | _ =>
      reply m msg_redeem_usage ;;
      log_message user user_input msg_redeem_usage
  end.

Definition user_info_html (d : UserDoc) : string :=
  "<b>User ID:</b> " +:+ pretty (ud_user_id d) +:+ Py.nl +:+
  "<b>Username:</b> @" +:+ Py.str_opt (ud_username d) +:+ Py.nl +:+
  "<b>Name:</b> " +:+ ud_full_name d +:+ Py.nl +:+
  "<b>Permanent Link:</b> <a href='tg://user?id=" +:+ pretty (ud_user_id d) +:+
  "'>Open Chat</a>".

Definition users_command (m : Message) : M unit :=
  let user := from_user m in
  let user_input := text m in
  if is_owner (uid user) then
    users <- gets users_collection ;;
    for_each users (fun user_data =>
      let user_info := user_info_html user_data in
      emit (ReplyHTML (chat_id (chat m)) user_info) ;;
      log_message user user_input user_info)
  else
    reply m msg_not_capable ;;
    log_message user user_input msg_not_capable.

(** One iteration of a broadcast loop: the [try] around [bot.send_message]. *)
Definition try_send (to : Z) (body : string) : M unit :=
  match deliver env to body with
  | None => emit (SendMessage (ChatInt to) body)
  | Some e => emit (LogError ("Error sending message to " +:+ pretty to +:+ ": " +:+ e))
  end.

Definition broadcast_command (m : Message) : M unit :=
  let user := from_user m in
  let user_input := text m in
  if is_owner (uid user) then
    let broadcast_message := Py.rest (text m) in
    if Py.nonempty broadcast_message then
      users <- gets users_collection ;;
      for_each users (fun user_data => try_send (ud_user_id user_data) broadcast_message) ;;
      groups <- gets groups_collection ;;
      for_each groups (fun group_data => try_send (gd_group_id group_data) broadcast_message) ;;
      reply m msg_broadcast_sent ;;
      log_message user user_input msg_broadcast_sent
    else
      reply m msg_broadcast_usage ;;
      log_message user user_input msg_broadcast_usage
  else
    reply m msg_not_capable ;;
    log_message user user_input msg_not_capable.

(** [task.cancel()] on a task that is not done: the request is recorded on
    the task object, which every handle to it sees. *)
Definition request_cancel (t : Task) : Task :=
  {| t_coro := t_coro t; t_must_cancel := true; t_done := t_done t |}.

(** [user_id in user_tasks and not user_tasks[user_id].done()], giving the
    handle when the test holds.  A handle always points into the heap
    (see [handles_valid] below). *)
Definition live_handle (st : State) (user_id : Z) : option nat :=
  match user_tasks st !! user_id with
  | Some h =>
      match tasks st !! h with
      | Some t => if t_done t then None else Some h
      | None => None
      end
  | None => None
  end.

Definition cancel_with (m : Message) (canceled none : string) : M unit :=
  let user := from_user m in
  let user_id := uid user in
  live <- gets (fun st => live_handle st user_id) ;;
  match live with
  | Some h =>
      modify (fun st => set_tasks (alter request_cancel h (tasks st)) st) ;;
      reply m canceled
  | None => reply m none
  end.

Definition cancelai_command (m : Message) : M unit :=
  cancel_with m msg_ai_canceled msg_ai_none.

Definition cancelproai_command (m : Message) : M unit :=
  cancel_with m msg_proai_canceled msg_proai_none.

Definition voice_file : string := "akhandanandtripathi.mp3".

Definition voice_command (m : Message) : M unit :=
  let user := from_user m in
  let user_input := text m in
  let text_to_speech := Py.rest (text m) in
  if Py.nonempty text_to_speech then
    emit (PollyRequest text_to_speech) ;;
    match synthesize_speech env text_to_speech with
    | inl audio_stream =>
        emit (WriteFile voice_file audio_stream) ;;
        emit (SendAudio (uid user) audio_stream) ;;
        log_message user user_input "Audio generated and sent."
    | inr e =>
        emit (LogError ("Error generating voice: " +:+ e)) ;;
        reply m msg_voice_error ;;
        log_message user user_input msg_voice_error
    end
  else
    reply m msg_voice_usage ;;
    log_message user user_input msg_voice_usage.

Definition new_chat_members_handler (m : Message) : M unit :=
  let chat := chat m in
  if bool_decide (chat_type chat = "group") || bool_decide (chat_type chat = "supergroup") then
    modify (fun st => set_groups_collection
      (Mongo.update_one_upsert (by_group_id (chat_id chat))
         (fun d => {| gd_group_id := gd_group_id d; gd_title := title chat |})
         {| gd_group_id := chat_id chat; gd_title := title chat |}
         (groups_collection st)) st) ;;
    emit (LogInfo ("Added to group: " +:+ title chat))
  else pass.

End Handlers.

(** ** The event loop *)

Section Loop.

Variable env : Env.

(** [await io] gives the turn back to the loop, except [await log_message(..)]
    when no log channel is set: [log_message] then returns without a call
    of the transport, and the coroutine goes on in the same turn. *)
Definition suspends (io : IO) (st : State) : bool :=
  match io with
  | IOLogMessage _ _ _ => Py.truthy (LOG_CHANNEL_ID st)
  | _ => true
  end.

(** What the awaited call does once it is issued. *)
Definition perform (io : IO) : M unit :=
  match io with
  | IOSendPhoto to url => emit (SendPhoto to url)
  | IOSendMessage to body => emit (SendMessage (ChatInt to) body)
  | IOLogMessage user user_input bot_response => log_message user user_input bot_response
  | IOSleep secs => emit (Sleep secs)
  end.

(** Run a coroutine up to its next suspension point.  The result is what is
    left to run, or [None] when the coroutine returned. *)
Fixpoint resume (c : Coro) (st : State) : option Coro * State :=
  match c with
  | Finish => (None, st)
  | Await io k =>
      if suspends io st then (Some k, exec (perform io) st)
      else resume k (exec (perform io) st)
  | Generate prompt k =>
      resume (k (generate_image env prompt)) (exec (call_generate_image env prompt) st)
  | SetUserImage u url k =>
      resume k (set_user_images (<[u := url]> (user_images st)) st)
  end.

(** Run a coroutine to its end without interruption. *)
Fixpoint run (c : Coro) (st : State) : State :=
  match c with
  | Finish => st
  | Await io k => run k (exec (perform io) st)
  | Generate prompt k =>
      run (k (generate_image env prompt)) (exec (call_generate_image env prompt) st)
  | SetUserImage u url k =>
      run k (set_user_images (<[u := url]> (user_images st)) st)
  end.

(** The first [n] turns of a coroutine taken alone: what a task has done
    when it is cancelled, or ends, after [n] turns. *)
Fixpoint resume_n (n : nat) (c : Coro) (st : State) : State :=
  match n with
  | O => st
  | S n' =>
      match resume c st with
      | (Some k, st1) => resume_n n' k st1
      | (None, st1) => st1
      end
  end.

(** The loop gives task [h] its next turn: a finished task stays as it is; a
    task with a pending cancel request ends there (the coroutines of bot.py
    do not catch [CancelledError]); any other task runs to its next
    suspension point. *)
Definition tick (h : nat) (st : State) : State :=
  match tasks st !! h with
  | None => st
  | Some t =>
      if t_done t then st
      else if t_must_cancel t then
        set_tasks (<[h := {| t_coro := t_coro t; t_must_cancel := false; t_done := true |}]>
                     (tasks st)) st
      else
        let (left, st') := resume (t_coro t) st in
        match left with
        | Some k =>
            set_tasks (<[h := {| t_coro := k; t_must_cancel := false; t_done := false |}]>
                         (tasks st')) st'
        | None =>
            set_tasks (<[h := {| t_coro := Finish; t_must_cancel := false; t_done := true |}]>
                         (tasks st')) st'
        end
  end.

(** The commands of the dispatcher. *)
Inductive Command :=
| CmdStart | CmdHelp | CmdAi | CmdProai | CmdModify | CmdAsk | CmdDev
| CmdSetlogchannel | CmdPing | CmdGenerate | CmdRedeem | CmdUsers
| CmdBroadcast | CmdCancelai | CmdCancelproai | CmdVoice.

(** [@dp.message_handler(commands=[..])] *)
Definition handler (c : Command) : Message -> M unit :=
  match c with
  | CmdStart => start_command
  | CmdHelp => help_command
  | CmdAi => ai_command
  | CmdProai => proai_command
  | CmdModify => modify_command env
  | CmdAsk => ask_command env
  | CmdDev => dev_command
  | CmdSetlogchannel => setlogchannel_command env
  | CmdPing => ping_command
  | CmdGenerate => generate_command env
  | CmdRedeem => redeem_command
  | CmdUsers => users_command env
  | CmdBroadcast => broadcast_command env
  | CmdCancelai => cancelai_command
  | CmdCancelproai => cancelproai_command
  | CmdVoice => voice_command env
  end.

(** What the loop can do next. *)
Inductive Event :=
| Incoming (c : Command) (m : Message)   (* a command message is handled *)
| Joined (m : Message)                   (* the bot was added to a chat *)
| Turn (h : nat).                        (* task h gets its turn *)

Definition step (st : State) (e : Event) : State :=
  match e with
  | Incoming c m => exec (handler c m) st
  | Joined m => exec (new_chat_members_handler m) st
  | Turn h => tick h st
  end.

Definition steps (st : State) (es : list Event) : State := foldl step st es.

End Loop.

#[global] Instance Command_eq_dec : EqDecision Command.
Proof. solve_decision. Defined.

(** ** Vocabulary of the properties *)

(** The effects issued between two states of one execution. *)
Definition emitted (st st' : State) : list Effect :=
  drop (length (outbox st)) (outbox st').

(** The state with [es] added to the outbound effects and nothing else
    changed. *)
Definition with_effects (es : list Effect) (st : State) : State :=
  set_outbox (outbox st ++ es) st.

(** The cooldown rule in the words of the specification: no timestamp is
    recorded for the user, or at least five seconds went by since it. *)
Definition cooldown_over (st : State) (user_id now : Z) : Prop :=
  last_ai_use st !! user_id = None \/
  exists last, last_ai_use st !! user_id = Some last /\ 5 <= now - last.

(** The events that are an /ai invocation by a given user. *)
Definition is_ai_by (user_id : Z) (e : Event) : bool :=
  match e with
  | Incoming CmdAi m => bool_decide (uid (from_user m) = user_id)
  | _ => false
  end.

(** The gift codes present in the store. *)
Definition codes (st : State) : list string := gc_code <$> gift_codes_collection st.

(** The gift codes are held once each. *)
Definition unique_codes (st : State) : Prop := NoDup (codes st).

(** The number of documents of the store that carry a code. *)
Definition copies (code : string) (st : State) : nat :=
  length (List.filter (by_code code) (gift_codes_collection st)).

(** Data-model invariant of the subscriptions: one record per user. *)
Definition one_record_per_user (st : State) : Prop :=
  NoDup (sd_user_id <$> subscriptions_collection st).

(** A subscription record exists for the user with plan "professional". *)
Definition has_professional (st : State) (user_id : Z) : Prop :=
  exists d, d ∈ subscriptions_collection st /\
            sd_user_id d = user_id /\ sd_plan d = Some professional.

(** Every registered handle points to a task object. *)
Definition handles_valid (st : State) : Prop :=
  forall u h, user_tasks st !! u = Some h -> (h < length (tasks st))%nat.

(** The user has a registered task that is not completed. *)
Definition has_live_task (st : State) (user_id : Z) : Prop :=
  exists h t, user_tasks st !! user_id = Some h /\ tasks st !! h = Some t /\ t_done t = false.

(** A freshly created task object. *)
Definition new_task (c : Coro) : Task :=
  {| t_coro := c; t_must_cancel := false; t_done := false |}.

(** The invocations of /ai and /proai that start a background task, and
    the coroutine they start. *)
Definition starts_task (c : Command) (st : State) (m : Message) : bool :=
  match c with
  | CmdAi =>
      negb (too_soon (last_ai_use st !! uid (from_user m)) (date m)) &&
      Py.nonempty (Py.rest (text m))
  | CmdProai =>
      is_professional (Mongo.find_one (by_user_id (uid (from_user m)))
                         (subscriptions_collection st)) &&
      Py.nonempty (Py.rest (text m))
  | _ => false
  end.

Definition task_body (c : Command) (m : Message) : Coro :=
  match c with
  | CmdProai => generate_proai_task (from_user m) (text m) (Py.rest (text m))
  | _ => generate_image_task (from_user m) (text m) (Py.rest (text m))
  end.

(** The two replies of a cancel command. *)
Definition canceled_reply (c : Command) : string :=
  match c with CmdCancelproai => msg_proai_canceled | _ => msg_ai_canceled end.
Definition none_reply (c : Command) : string :=
  match c with CmdCancelproai => msg_proai_none | _ => msg_ai_none end.

(** The prompts of the provider requests among some effects. *)
Definition requests (es : list Effect) : list string :=
  omap (fun e => match e with ProviderRequest p => Some p | _ => None end) es.

(** The provider requests and the delays among some effects, in order. *)
Definition is_paced (e : Effect) : bool :=
  match e with ProviderRequest _ | Sleep _ => true | _ => false end.
Definition pacing (es : list Effect) : list Effect := List.filter is_paced es.

(** The failure notices of the professional flow sent to a user. *)
Definition is_failure_notice (user : User) (e : Effect) : bool :=
  match e with
  | SendMessage (ChatInt to) body =>
      bool_decide (to = uid user) && bool_decide (body = msg_proai_error)
  | _ => false
  end.
Definition failure_notices (user : User) (es : list Effect) : list Effect :=
  List.filter (is_failure_notice user) es.

(** The provider answered the step of index [i] with a usable URL. *)
Definition step_ok (env : Env) (prompt : string) (i : nat) : Prop :=
  Py.truthy (generate_image env (proai_prompt prompt i)) = true.

(** One successful step and the delay after it, as [pacing] shows them. *)
Definition paced_step (prompt : string) (i : nat) : list Effect :=
  [ProviderRequest (proai_prompt prompt i); Sleep 5].

(** What the professional flow has issued after some turns, over a range of
    indices: [m] steps are through, delay included; the step after them
    may have been asked for ([tail]), and when the provider failed on it
    the notice went out right after the request, followed by nothing or by
    its mirror in the log, with the error line of [generate_image] in
    between. *)
Definition flow_shape (env : Env) (user : User) (input prompt : string)
    (range : list nat) (ch : option string) (es : list Effect) : Prop :=
  exists m tail,
    (forall i, i ∈ take m range -> step_ok env prompt i) /\
    pacing es = flat_map (paced_step prompt) (take m range) ++ tail /\
    requests es = (proai_prompt prompt <$> take m range) ++ requests tail /\
    ((tail = [] /\ failure_notices user es = []) \/
     (exists k, range !! m = Some k /\ tail = [ProviderRequest (proai_prompt prompt k)] /\
        ((step_ok env prompt k /\ failure_notices user es = []) \/
         (~ step_ok env prompt k /\
          failure_notices user es = [SendMessage (ChatInt (uid user)) msg_proai_error] /\
          exists before after,
            es = before ++
                 [ProviderRequest (proai_prompt prompt k)] ++
                 generate_image_log env (proai_prompt prompt k) ++
                 [SendMessage (ChatInt (uid user)) msg_proai_error] ++ after /\
            (after = [] \/ after = log_entries ch user input msg_proai_error))))).

(** The owner-only commands and the text they refuse with. *)
Definition owner_only (c : Command) : bool :=
  match c with
  | CmdGenerate | CmdSetlogchannel | CmdUsers | CmdBroadcast => true
  | _ => false
  end.

Definition owner_refusal (c : Command) : string :=
  match c with
  | CmdGenerate | CmdSetlogchannel => msg_no_permission
  | _ => msg_not_capable
  end.


(** The state once a handler is past its cooldown gate, effects apart: /ai
    has recorded the date of the message, no other command keeps a
    timestamp. *)
Definition stamped (c : Command) (m : Message) (st : State) : State :=
  match c with
  | CmdAi => set_last_ai_use (<[uid (from_user m) := date m]> (last_ai_use st)) st
  | _ => st
  end.

(** A handler that only answers [body] and mirrors the answer to the log. *)
Definition only_answers (env : Env) (c : Command) (m : Message) (body : string)
    (st : State) : Prop :=
  exec (handler env c m) st =
  with_effects (Reply (chat_id (chat m)) body ::
                log_entries (LOG_CHANNEL_ID st) (from_user m) (text m) body) st.

(** The trace one iteration of a broadcast loop leaves. *)
Definition delivery_effect (env : Env) (body : string) (to : Z) : Effect :=
  match deliver env to body with
  | None => SendMessage (ChatInt to) body
  | Some e => LogError ("Error sending message to " +:+ pretty to +:+ ": " +:+ e)
  end.

(** What broadcast does for one recipient, as the effects show it. *)
Definition attempted (env : Env) (body : string) (to : Z) (es : list Effect) : Prop :=
  match deliver env to body with
  | None => SendMessage (ChatInt to) body ∈ es
  | Some e => LogError ("Error sending message to " +:+ pretty to +:+ ": " +:+ e) ∈ es
  end.

(** Two states that differ at most in the task heap. *)
Definition same_but_tasks (st1 st2 : State) : Prop :=
  st2 = set_tasks (tasks st2) st1.

(** A computation that leaves a part [f] of the state as it found it. *)
Definition keeps {A X} (f : State -> X) (c : M A) : Prop :=
  forall st, f (snd (c st)) = f st.

(** The [await]s a coroutine goes through: as many suspension points, or
    fewer when no log channel is set. *)
Fixpoint suspensions (env : Env) (c : Coro) : nat :=
  match c with
  | Finish => 0
  | Await _ k => S (suspensions env k)
  | Generate prompt k => suspensions env (k (generate_image env prompt))
  | SetUserImage _ _ k => suspensions env k
  end.

(** ** Sample data *)

Definition ada : User :=
  {| uid := 7; username := Some "ada"; first_name := "Ada"; last_name := None |}.
Definition bob : User :=
  {| uid := 8; username := None; first_name := "Bob"; last_name := Some "B" |}.
Definition private_chat (u : User) : Chat :=
  {| chat_id := uid u; chat_type := "private"; title := "" |}.
Definition msg_at (u : User) (body : string) (t : Z) : Message :=
  {| from_user := u; chat := private_chat u; text := body; date := t;
     reply_to_message := None |}.

(** An environment owned by user 1, whose provider answers every prompt,
    whose speech service fails and whose transport refuses user 8. *)
Definition sample_env : Env :=
  {| BOT_OWNER_ID := 1;
     generate_image := fun p => Some ("https://img/" +:+ p);
     generate_image_error := fun _ => None;
     get_file_url := fun f => "https://file/" +:+ f;
     synthesize_speech := fun _ => inr "down";
     deliver := fun to _ => if bool_decide (to = 8) then Some "blocked" else None |}.

(** The same with a provider that fails from the third image on. *)
Definition failing_env : Env :=
  {| BOT_OWNER_ID := 1;
     generate_image := fun p =>
       if bool_decide (p = proai_prompt "a cat" 0) || bool_decide (p = proai_prompt "a cat" 1)
       then Some ("https://img/" +:+ p) else None;
     generate_image_error := fun p =>
       if bool_decide (p = proai_prompt "a cat" 0) || bool_decide (p = proai_prompt "a cat" 1)
       then None else Some "Error in response: {'error': {'code': 'billing'}}";
     get_file_url := get_file_url sample_env;
     synthesize_speech := synthesize_speech sample_env;
     deliver := deliver sample_env |}.

Definition owner : User :=
  {| uid := 1; username := Some "owner"; first_name := "Own"; last_name := Some "Er" |}.

Definition logged_state : State := init_state (Some "-100").

(** A store with one user, whom the transport refuses, and one group. *)
Definition broadcast_state : State :=
  set_groups_collection [{| gd_group_id := -5; gd_title := "club" |}]
    (set_users_collection
       [{| ud_user_id := 8; ud_username := None; ud_full_name := "Bob B" |}] logged_state).

(** Ada's first /ai, at second 100. *)
Definition after_first_ai : State :=
  exec (ai_command (msg_at ada "/ai a cat" 100)) logged_state.

(** Her second one, 6 seconds later, and a cancel after it. *)
Definition second_ai : Message := msg_at ada "/ai a dog" 106.
Definition after_second_ai : State := exec (handler sample_env CmdAi second_ai) after_first_ai.
Definition after_cancel : State :=
  exec (handler sample_env CmdCancelai (msg_at ada "/cancelai" 107)) after_second_ai.

(** A store holding the code ABC123, and the state once Ada redeemed it. *)
Definition one_code_state : State :=
  set_gift_codes_collection [{| gc_code := "ABC123"; gc_plan := professional |}] logged_state.
Definition after_redeem : State :=
  exec (redeem_command (msg_at ada "/redeem ABC123" 10)) one_code_state.

(** A store that holds the code ABC123 in two documents, as nothing in
    bot.py excludes, and the states once Ada and then Bob redeemed it. *)
Definition twice_held_state : State :=
  set_gift_codes_collection
    [{| gc_code := "ABC123"; gc_plan := professional |};
     {| gc_code := "ABC123"; gc_plan := professional |}] logged_state.
Definition after_first_redeem : State :=
  exec (redeem_command (msg_at ada "/redeem ABC123" 10)) twice_held_state.
Definition after_second_redeem : State :=
  exec (redeem_command (msg_at bob "/redeem ABC123" 11)) after_first_redeem.


(** ** Further vocabulary *)

(** A string without a blank: a command word, a gift code. *)
Fixpoint no_blank (s : string) : bool :=
  match s with
  | EmptyString => true
  | String c r => negb (Ascii.eqb c Py.space) && no_blank r
  end.

(** A user whose first name comes with a blank in front and a no-break
    space (U+00A0) behind. *)
Definition eve : User :=
  {| uid := 9; username := None;
     first_name := " Eve" +:+ string_of_list_ascii (Py.utf8 160); last_name := None |}.

(** The user ids and the group ids the store holds. *)
Definition recorded_users (st : State) : list Z := ud_user_id <$> users_collection st.
Definition recorded_groups (st : State) : list Z := gd_group_id <$> groups_collection st.

(** The user's subscription, as [find_one] returns it, is professional. *)
Definition professional_now (st : State) (user_id : Z) : bool :=
  is_professional (Mongo.find_one (by_user_id user_id) (subscriptions_collection st)).

(** The events that are an /ai by anyone, a command of a given kind, a
    command sent by a given user. *)
Definition is_command (c : Command) (e : Event) : bool :=
  match e with
  | Incoming c' _ => bool_decide (c' = c)
  | _ => false
  end.

Definition sent_by (user_id : Z) (e : Event) : bool :=
  match e with
  | Incoming _ m => bool_decide (uid (from_user m) = user_id)
  | Joined m => bool_decide (uid (from_user m) = user_id)
  | Turn _ => false
  end.

(** The owner's /setlogchannel with exactly one argument. *)
Definition changes_log_channel (env : Env) (e : Event) : bool :=
  match e with
  | Incoming CmdSetlogchannel m =>
      is_owner env (uid (from_user m)) && bool_decide (length (Py.args (text m)) = 1%nat)
  | _ => false
  end.

Definition is_turn (e : Event) : bool :=
  match e with Turn _ => true | _ => false end.

Definition is_join (e : Event) : bool :=
  match e with Joined _ => true | _ => false end.

(** The name /start stores:
    [f"{user.first_name} {user.last_name or ''}".strip()] *)
Definition full_name_of (u : User) : string :=
  Py.strip (first_name u +:+ " " +:+ Py.or_empty (last_name u)).

(** The user's record, as [find_one] returns it. *)
Definition user_record (st : State) (user_id : Z) : option UserDoc :=
  Mongo.find_one (by_ud_user_id user_id) (users_collection st).

Definition group_record (st : State) (group_id : Z) : option GroupDoc :=
  Mongo.find_one (by_group_id group_id) (groups_collection st).

(** The chats the join handler records. *)
Definition is_group_chat (c : Chat) : bool :=
  bool_decide (chat_type c = "group") || bool_decide (chat_type c = "supergroup").

(** A group chat, and a message telling that the bot joined it. *)
Definition club : Chat := {| chat_id := -5; chat_type := "supergroup"; title := "club" |}.
Definition joined_club : Message :=
  {| from_user := bob; chat := club; text := ""; date := 2; reply_to_message := None |}.

(** A computation that neither reads nor writes the rate-limit table: run
    with another table, it returns the same value and leaves the same
    state, with that other table in it. *)
Definition ignores_rate_limit {A} (c : M A) : Prop :=
  forall v st, c (set_last_ai_use v st) = (fst (c st), set_last_ai_use v (snd (c st))).

(** ** The body of [generate_image]

    What [response.json()] gives, and the three Python operations
    [generate_image] applies to it.  An operation that raises gives [None];
    whatever is raised inside the [try] is caught by [except Exception]. *)
#[local] Unset Elimination Schemes.
Inductive Json :=
| JNull
| JBool (b : bool)
| JInt (n : Z)
| JFloat (repr : string)
| JStr (s : string)
| JList (l : list Json)
| JDict (d : list (string * Json)).
#[local] Set Elimination Schemes.

Module PyJson.

(** [d[k]] on the items of a dict. *)
Fixpoint lookup (k : string) (d : list (string * Json)) : option Json :=
  match d with
  | [] => None
  | (k', v) :: d' => if String.eqb k' k then Some v else lookup k d'
  end.

(** [needle in hay] on strings. *)
Fixpoint substring_of (needle hay : string) : bool :=
  String.prefix needle hay ||
  match hay with
  | EmptyString => false
  | String _ r => substring_of needle r
  end.

Definition is_str (s : string) (v : Json) : bool :=
  match v with JStr s' => String.eqb s' s | _ => false end.

(** [k in v]: a key of a dict, an element of a list, a part of a string;
    a TypeError on anything else. *)
Definition contains (k : string) (v : Json) : option bool :=
  match v with
  | JDict d => Some (match lookup k d with Some _ => true | None => false end)
  | JList l => Some (existsb (is_str k) l)
  | JStr s => Some (substring_of k s)
  | _ => None
  end.

(** [v[k]] for a string [k]: the value of a dict, KeyError without the key,
    TypeError on anything else. *)
Definition item (k : string) (v : Json) : option Json :=
  match v with
  | JDict d => lookup k d
  | _ => None
  end.

(** [v[0]]: the first element of a list or the first character of a
    string, IndexError when empty; KeyError on a dict, whose keys are
    strings; TypeError on anything else. *)
Definition first (v : Json) : option Json :=
  match v with
  | JList (x :: _) => Some x
  | JStr (String c _) => Some (JStr (String c EmptyString))
  | _ => None
  end.

End PyJson.

(** What the HTTP exchange gives: [requests.post] or [response.json()]
    raises, or there is a decoded body. *)
Inductive Http :=
| Raises (e : string)
| Body (response_data : Json).

(** Which of the two [log.error] calls was made. *)
Inductive ErrorLine :=
| NoError
| ErrorInResponse      (* log.error(f"Error in response: {response_data}") *)
| ErrorGenerating.     (* log.error(f"Error generating image: {e}") *)

(** [def generate_image(prompt)], from the response on: the value returned
    ([JNull] is Python's [None]) and the error line logged. *)
Definition generate_image_result (h : Http) : Json * ErrorLine :=
  match h with
  | Raises _ => (JNull, ErrorGenerating)
  | Body response_data =>
      match PyJson.contains "data" response_data with
      | None => (JNull, ErrorGenerating)
      | Some false => (JNull, ErrorInResponse)
      | Some true =>
          match PyJson.item "data" response_data with
          | None => (JNull, ErrorGenerating)
          | Some data =>
              match PyJson.first data with
              | None => (JNull, ErrorGenerating)
              | Some first_item =>
                  match PyJson.item "url" first_item with
                  | None => (JNull, ErrorGenerating)
                  | Some url => (url, NoError)
                  end
              end
          end
      end
  end.

(** The answer of the provider to a served request, and to a refused one. *)
Definition served (url : string) : Http :=
  Body (JDict [("created", JInt 1); ("data", JList [JDict [("url", JStr url)]])]).
Definition refused : Http :=
  Body (JDict [("error", JDict [("message", JStr "billing"); ("code", JNull)])]).

(** An answer in a chat: a text, an HTML text or a photo sent as a reply. *)
Definition is_answer (to : Z) (e : Effect) : bool :=
  match e with
  | Reply t _ | ReplyHTML t _ | ReplyPhoto t _ => bool_decide (t = to)
  | _ => false
  end.

(** A computation that only adds to the effects issued so far. *)
Definition extends {A} (c : M A) : Prop :=
  forall st, exists es, outbox (snd (c st)) = outbox st ++ es.

(** A computation that adds, among its effects, an answer in a chat. *)
Definition answers {A} (to : Z) (c : M A) : Prop :=
  forall st, exists es, outbox (snd (c st)) = outbox st ++ es /\
                        exists e, e ∈ es /\ is_answer to e = true.

(** ** Basic facts *)

Lemma with_effects_nil st : with_effects [] st = st.
Proof. destruct st; unfold with_effects, set_outbox; simpl. by rewrite app_nil_r. Qed.

Lemma with_effects_app es1 es2 st :
  with_effects es2 (with_effects es1 st) = with_effects (es1 ++ es2) st.
Proof. destruct st; unfold with_effects, set_outbox; simpl. by rewrite app_assoc. Qed.

Lemma emitted_with_effects es st : emitted st (with_effects es st) = es.
Proof. unfold emitted, with_effects; simpl. by rewrite drop_app_length. Qed.

Lemma emitted_outbox st st' es : outbox st' = outbox st ++ es -> emitted st st' = es.
Proof. intros E. unfold emitted. rewrite E. by rewrite drop_app_length. Qed.

Lemma exec_bind {A B} (c : M A) (f : A -> M B) st :
  exec (bind c f) st = exec (f (fst (c st))) (snd (c st)).
Proof. unfold exec, bind. by destruct (c st). Qed.

Lemma exec_emit e st : exec (emit e) st = with_effects [e] st.
Proof. reflexivity. Qed.

Lemma exec_reply m body st :
  exec (reply m body) st = with_effects [Reply (chat_id (chat m)) body] st.
Proof. reflexivity. Qed.

Lemma exec_log_message user i r st :
  exec (log_message user i r) st = with_effects (log_entries (LOG_CHANNEL_ID st) user i r) st.
Proof. reflexivity. Qed.

Lemma exec_for_each_emit es st : exec (for_each es emit) st = with_effects es st.
Proof.
  revert st. induction es as [|e es IH]; intros st; cbn [for_each].
  - by rewrite with_effects_nil.
  - rewrite exec_bind. cbn [fst snd emit modify]. rewrite IH.
    change (set_outbox (outbox st ++ [e]) st) with (with_effects [e] st).
    by rewrite with_effects_app.
Qed.

(** A call of [generate_image]: the request and the error line. *)
Lemma call_generate_image_run env p st :
  call_generate_image env p st =
  (generate_image env p, with_effects (ProviderRequest p :: generate_image_log env p) st).
Proof.
  unfold call_generate_image, bind. cbn [emit modify].
  pose proof (exec_for_each_emit (generate_image_log env p)
                (set_outbox (outbox st ++ [ProviderRequest p]) st)) as E.
  unfold exec in E. destruct (for_each _ emit _) as [[] st1]. cbn [snd] in E. subst st1.
  cbn [ret]. f_equal.
  change (set_outbox (outbox st ++ [ProviderRequest p]) st)
    with (with_effects [ProviderRequest p] st).
  by rewrite with_effects_app.
Qed.

Lemma exec_call_generate_image env p st :
  exec (call_generate_image env p) st =
  with_effects (ProviderRequest p :: generate_image_log env p) st.
Proof. unfold exec. by rewrite call_generate_image_run. Qed.

Lemma exec_call_ok env p st :
  Py.truthy (generate_image env p) = true ->
  exec (call_generate_image env p) st = with_effects [ProviderRequest p] st.
Proof.
  intros H. rewrite exec_call_generate_image. unfold generate_image_log.
  by destruct (generate_image env p).
Qed.

(** A usable answer leaves no error line. *)
Lemma generate_image_log_ok env p :
  Py.truthy (generate_image env p) = true -> generate_image_log env p = [].
Proof. unfold generate_image_log. by destruct (generate_image env p). Qed.

(** A reply followed by its mirror in the log. *)
Lemma exec_reply_log m user i body st :
  exec (reply m body ;; log_message user i body) st =
  with_effects (Reply (chat_id (chat m)) body :: log_entries (LOG_CHANNEL_ID st) user i body) st.
Proof.
  rewrite exec_bind. simpl.
  change (set_outbox _ st) with (with_effects [Reply (chat_id (chat m)) body] st).
  rewrite exec_log_message. by rewrite with_effects_app.
Qed.

(** The log mirror never is a reply, a numeric-chat message or anything but
    a message to the channel. *)
Lemma log_entries_inv ch user i r e :
  e ∈ log_entries ch user i r -> exists c, e = SendMessage (ChatStr c) (log_text user i r).
Proof.
  unfold log_entries. destruct ch as [c|]; [|by intros ?%elem_of_nil].
  destruct (Py.nonempty c); [|by intros ?%elem_of_nil].
  intros ->%list_elem_of_singleton. by exists c.
Qed.

Lemma log_entries_configured c user i r :
  c <> "" ->
  log_entries (Some c) user i r = [SendMessage (ChatStr c) (log_text user i r)].
Proof. unfold log_entries. by destruct c. Qed.

Lemma nonempty_false s : Py.nonempty s = false <-> s = "".
Proof. by destruct s. Qed.

Lemma nonempty_true s : Py.nonempty s = true <-> s <> "".
Proof. by destruct s. Qed.

Lemma too_soon_spec st user_id now :
  too_soon (last_ai_use st !! user_id) now = false <-> cooldown_over st user_id now.
Proof.
  unfold too_soon, cooldown_over. destruct (last_ai_use st !! user_id) as [t|].
  - rewrite Z.ltb_ge. split.
    + intros H. right. exists t. split; [done | lia].
    + intros [H | (l & H & Hl)]; [done | ]. injection H as ->. lia.
  - split; [by left | done].
Qed.

(** *** The handlers of /ai and /proai, by cases *)

Lemma ai_command_exec st m :
  exec (ai_command m) st =
  let u := uid (from_user m) in
  if too_soon (last_ai_use st !! u) (date m) then
    with_effects (Reply (chat_id (chat m)) msg_wait ::
                  log_entries (LOG_CHANNEL_ID st) (from_user m) (text m) msg_wait) st
  else
    let st1 := set_last_ai_use (<[u := date m]> (last_ai_use st)) st in
    if Py.nonempty (Py.rest (text m)) then
      set_user_tasks (<[u := length (tasks st)]> (user_tasks st))
        (set_tasks (tasks st ++ [new_task (task_body CmdAi m)])
           (with_effects [Reply (chat_id (chat m)) msg_generating] st1))
    else
      with_effects (Reply (chat_id (chat m)) msg_ai_usage ::
                    log_entries (LOG_CHANNEL_ID st) (from_user m) (text m) msg_ai_usage) st1.
Proof.
  unfold ai_command. rewrite exec_bind. simpl fst; simpl snd. cbv zeta.
  destruct (too_soon _ _); [apply exec_reply_log|].
  rewrite exec_bind. simpl fst; simpl snd.
  destruct (Py.nonempty _); [reflexivity|]. by rewrite exec_reply_log.
Qed.

Lemma proai_command_exec st m :
  exec (proai_command m) st =
  let u := uid (from_user m) in
  if is_professional (Mongo.find_one (by_user_id u) (subscriptions_collection st)) then
    if Py.nonempty (Py.rest (text m)) then
      set_user_tasks (<[u := length (tasks st)]> (user_tasks st))
        (set_tasks (tasks st ++ [new_task (task_body CmdProai m)])
           (with_effects [Reply (chat_id (chat m)) msg_generating_many] st))
    else
      with_effects (Reply (chat_id (chat m)) msg_proai_usage ::
                    log_entries (LOG_CHANNEL_ID st) (from_user m) (text m) msg_proai_usage) st
  else
    with_effects (Reply (chat_id (chat m)) msg_need_redeem ::
                  log_entries (LOG_CHANNEL_ID st) (from_user m) (text m) msg_need_redeem) st.
Proof.
  unfold proai_command. rewrite exec_bind. simpl fst; simpl snd. cbv zeta.
  destruct (is_professional _); [|apply exec_reply_log].
  destruct (Py.nonempty _); [reflexivity|]. apply exec_reply_log.
Qed.

(** ** What the handlers leave alone *)

Lemma keeps_ret {A X} (f : State -> X) (a : A) : keeps f (ret a).
Proof. by intros st. Qed.

Lemma keeps_gets {A X} (f : State -> X) (g : State -> A) : keeps f (gets g).
Proof. by intros st. Qed.

Lemma keeps_bind {A B X} (f : State -> X) (c : M A) (k : A -> M B) :
  keeps f c -> (forall a, keeps f (k a)) -> keeps f (bind c k).
Proof.
  intros Hc Hk st. unfold bind. destruct (c st) as [a st1] eqn:E.
  rewrite Hk. specialize (Hc st). by rewrite E in Hc.
Qed.

Lemma keeps_for_each {A X} (f : State -> X) (l : list A) (body : A -> M unit) :
  (forall x, keeps f (body x)) -> keeps f (for_each l body).
Proof.
  intros Hb. induction l as [|x l IH]; [apply keeps_ret|].
  cbn [for_each]. apply keeps_bind; auto.
Qed.

Lemma keeps_exec {A X} (f : State -> X) (c : M A) st : keeps f c -> f (exec c st) = f st.
Proof. intros H. apply H. Qed.

(** Decompose a handler into its primitive steps; each of them is a setter
    of some field, which leaves the others alone by computation. *)
Ltac keeps_step :=
  match goal with
  | |- keeps _ (bind _ _) => apply keeps_bind; [|intros ?]
  | |- keeps _ (for_each _ _) => apply keeps_for_each; intros ?
  | |- keeps _ (match ?x with _ => _ end) => destruct x
  | |- keeps _ (take_gift_code _) =>
      let st := fresh "st" in
      intros st; unfold take_gift_code; destruct (Mongo.find_one_and_delete _ _); reflexivity
  | |- keeps _ _ => let st := fresh "st" in intros st; reflexivity
  end.

Ltac keeps_handler := cbv zeta; repeat keeps_step.

Lemma handler_keeps_subscriptions env c m :
  c <> CmdRedeem -> keeps subscriptions_collection (handler env c m).
Proof.
  intros Hc. destruct c; try done; cbn [handler];
    unfold start_command, help_command, ai_command, proai_command, modify_command,
      ask_command, dev_command, setlogchannel_command, ping_command, generate_command,
      users_command, broadcast_command, cancelai_command, cancelproai_command,
      cancel_with, voice_command, call_generate_image, try_send;
    keeps_handler.
Qed.

Lemma handler_keeps_gift_codes env c m :
  c <> CmdRedeem -> c <> CmdGenerate -> keeps gift_codes_collection (handler env c m).
Proof.
  intros Hc Hg. destruct c; try done; cbn [handler];
    unfold start_command, help_command, ai_command, proai_command, modify_command,
      ask_command, dev_command, setlogchannel_command, ping_command,
      users_command, broadcast_command, cancelai_command, cancelproai_command,
      cancel_with, voice_command, call_generate_image, try_send;
    keeps_handler.
Qed.

Lemma handler_keeps_user_tasks env c m :
  c <> CmdAi -> c <> CmdProai -> keeps user_tasks (handler env c m).
Proof.
  intros Hc Hg. destruct c; try done; cbn [handler];
    unfold start_command, help_command, modify_command,
      ask_command, dev_command, setlogchannel_command, ping_command, generate_command,
      redeem_command, users_command, broadcast_command, cancelai_command,
      cancelproai_command, cancel_with, voice_command, call_generate_image, try_send;
    keeps_handler.
Qed.

Lemma handler_keeps_heap_size env c m :
  c <> CmdAi -> c <> CmdProai -> keeps (fun st => length (tasks st)) (handler env c m).
Proof.
  intros Hc Hg. destruct c; try done; cbn [handler];
    unfold start_command, help_command, modify_command,
      ask_command, dev_command, setlogchannel_command, ping_command, generate_command,
      redeem_command, users_command, broadcast_command, cancelai_command,
      cancelproai_command, cancel_with, voice_command, call_generate_image, try_send;
    cbv zeta; repeat first [ by (intros st; cbn; rewrite length_alter) | keeps_step ].
Qed.

(** ** What a turn of a task leaves alone *)

Lemma perform_keeps {X} (f : State -> X) io :
  (forall v st, f (set_outbox v st) = f st) -> keeps f (perform io).
Proof. intros Hf st. destruct io; apply Hf. Qed.

(** A coroutine touches the effects and the stored images only. *)
Lemma resume_frame env c st :
  let st1 := snd (resume env c st) in
  tasks st1 = tasks st /\ user_tasks st1 = user_tasks st /\
  last_ai_use st1 = last_ai_use st /\ LOG_CHANNEL_ID st1 = LOG_CHANNEL_ID st /\
  users_collection st1 = users_collection st /\
  groups_collection st1 = groups_collection st /\
  subscriptions_collection st1 = subscriptions_collection st /\
  gift_codes_collection st1 = gift_codes_collection st.
Proof.
  revert st. induction c as [|io k IH|p k IH|u url k IH]; intros st; cbn [resume snd].
  - done.
  - destruct (suspends io st); cbn [snd].
    + unfold exec. by rewrite !(perform_keeps _ io).
    + specialize (IH (exec (perform io) st)). cbv zeta in IH.
      destruct IH as (-> & -> & -> & -> & -> & -> & -> & ->).
      repeat split; by apply (perform_keeps _ io).
  - specialize (IH (generate_image env p) (exec (call_generate_image env p) st)).
    cbv zeta in IH. destruct IH as (-> & -> & -> & -> & -> & -> & -> & ->).
    by rewrite exec_call_generate_image.
  - specialize (IH (set_user_images (<[u:=url]> (user_images st)) st)).
    cbv zeta in IH. exact IH.
Qed.

Lemma tick_frame env h st :
  let st1 := tick env h st in
  length (tasks st1) = length (tasks st) /\ user_tasks st1 = user_tasks st /\
  subscriptions_collection st1 = subscriptions_collection st /\
  gift_codes_collection st1 = gift_codes_collection st.
Proof.
  unfold tick. destruct (tasks st !! h) as [t|]; [|done].
  destruct (t_done t); [done|]. destruct (t_must_cancel t).
  - cbn. by rewrite length_insert.
  - pose proof (resume_frame env (t_coro t) st) as H. cbv zeta in H.
    destruct (resume env (t_coro t) st) as [[k|] st1]; cbn [snd] in H;
      destruct H as (Ht & Hu & _ & _ & _ & _ & Hs & Hg);
      cbn; rewrite length_insert; by rewrite Ht.
Qed.


Lemma handler_keeps_last_ai_use env c m :
  c <> CmdAi -> keeps last_ai_use (handler env c m).
Proof.
  intros Hc. destruct c; try done; cbn [handler];
    unfold start_command, help_command, proai_command, modify_command,
      ask_command, dev_command, setlogchannel_command, ping_command, generate_command,
      redeem_command, users_command, broadcast_command, cancelai_command,
      cancelproai_command, cancel_with, voice_command, call_generate_image, try_send,
      create_task;
    keeps_handler.
Qed.

Lemma tick_keeps_last_ai_use env h st : last_ai_use (tick env h st) = last_ai_use st.
Proof.
  unfold tick. destruct (tasks st !! h) as [t|]; [|done].
  destruct (t_done t); [done|]. destruct (t_must_cancel t); [done|].
  pose proof (resume_frame env (t_coro t) st) as H. cbv zeta in H.
  destruct (resume env (t_coro t) st) as [[k|] st1]; cbn [snd] in H;
    by destruct H as (_ & _ & Hl & _).
Qed.

(** Only an /ai by the user changes the user's timestamp. *)
Lemma step_keeps_timestamp env u st e :
  is_ai_by u e = false -> last_ai_use (step env st e) !! u = last_ai_use st !! u.
Proof.
  intros He. destruct e as [c m|m|h]; cbn [step].
  - destruct (decide (c = CmdAi)) as [->|Hc].
    + cbn [is_ai_by] in He. apply bool_decide_eq_false in He.
      cbn [handler]. rewrite ai_command_exec. cbv zeta.
      destruct (too_soon _ _); [done|].
      destruct (Py.nonempty _); cbn; by rewrite lookup_insert_ne.
    + by rewrite (keeps_exec last_ai_use _ st (handler_keeps_last_ai_use env c m Hc)).
  - unfold new_chat_members_handler.
    rewrite (keeps_exec last_ai_use); [done|]. keeps_handler.
  - by rewrite tick_keeps_last_ai_use.
Qed.

Lemma steps_keep_timestamp env u es : forall st,
  (forall e, e ∈ es -> is_ai_by u e = false) ->
  last_ai_use (steps env st es) !! u = last_ai_use st !! u.
Proof.
  induction es as [|e es IH]; intros st H; [done|].
  cbn [steps foldl]. fold (steps env (step env st e) es).
  rewrite IH by (intros e' He'; apply H; by apply list_elem_of_further).
  apply step_keeps_timestamp, H, list_elem_of_here.
Qed.

(** ** The cooldown of /ai *)

(** C1.  An /ai invocation is accepted iff the user has no recorded
    timestamp or at least 5 seconds passed since it.  When accepted, the
    user's timestamp becomes the date of the message and no "please wait"
    reply is sent; when refused, the only change is the "please wait" reply
    and its mirror in the log, the rate-limit table stays as it was.  Of two
    /ai invocations by one user, the first being accepted, the second is
    accepted iff it comes 5 seconds or more after the first, whatever
    happened in between that was not an /ai of this user. *)
Theorem ai_command_cooldown (env : Env) (st : State) (m : Message) :
  let u := uid (from_user m) in
  let st' := exec (ai_command m) st in
  (cooldown_over st u (date m) ->
     last_ai_use st' = <[u := date m]> (last_ai_use st) /\
     Reply (chat_id (chat m)) msg_wait ∉ emitted st st') /\
  (~ cooldown_over st u (date m) ->
     st' = with_effects
             (Reply (chat_id (chat m)) msg_wait ::
              log_entries (LOG_CHANNEL_ID st) (from_user m) (text m) msg_wait) st /\
     last_ai_use st' = last_ai_use st) /\
  (forall es m2,
     (forall e, e ∈ es -> is_ai_by u e = false) ->
     uid (from_user m2) = u -> cooldown_over st u (date m) ->
     (cooldown_over (steps env st' es) u (date m2) <-> 5 <= date m2 - date m)).
Proof.
  intros u st'. subst st'. rewrite ai_command_exec. fold u. cbv zeta.
  split; [|split].
  - intros Hok%too_soon_spec. rewrite Hok.
    destruct (Py.nonempty _).
    + split; [reflexivity|].
      erewrite emitted_outbox by reflexivity.
      intros Hin%list_elem_of_singleton. discriminate.
    + split; [reflexivity|].
      erewrite emitted_outbox by reflexivity.
      intros [Hin | Hin]%elem_of_cons; [discriminate|].
      apply log_entries_inv in Hin as [c Hc]. discriminate.
  - intros Hno.
    destruct (too_soon _ _) eqn:E; [by split|].
    by apply too_soon_spec in E.
  - intros es m2 Hes Hu Hok%too_soon_spec. rewrite Hok. unfold cooldown_over.
    rewrite (steps_keep_timestamp env u es _ Hes).
    assert (Hl : forall s, last_ai_use s = <[u := date m]> (last_ai_use st) ->
                 (s.(last_ai_use) !! u = None \/
                  (exists last, last_ai_use s !! u = Some last /\ 5 <= date m2 - last))
                 <-> 5 <= date m2 - date m).
    { intros s ->. rewrite lookup_insert_eq. split.
      - intros [H | (l & H & Hl')]; [discriminate|]. injection H as <-. lia.
      - intros H. right. eexists; split; [reflexivity | lia]. }
    destruct (Py.nonempty _); apply Hl; reflexivity.
Qed.

(** An accepted /ai at second 100, a refused one at 103, an accepted one at
    105 after the task had a turn. *)
Lemma ai_command_cooldown_witness :
  last_ai_use after_first_ai = <[7 := 100]> ∅ /\
  last_ai_use (exec (ai_command (msg_at ada "/ai a dog" 103)) after_first_ai)
    = last_ai_use after_first_ai /\
  cooldown_over (steps sample_env after_first_ai [Turn 0]) 7 105.
Proof.
  pose proof (ai_command_cooldown sample_env logged_state (msg_at ada "/ai a cat" 100))
    as (Ha & _ & Hc).
  pose proof (ai_command_cooldown sample_env after_first_ai (msg_at ada "/ai a dog" 103))
    as (_ & Hb & _).
  assert (H0 : cooldown_over logged_state 7 100) by (left; reflexivity).
  split; [exact (proj1 (Ha H0))|]. split.
  - apply Hb. intros [H | (l & H & Hl)]; [discriminate|].
    vm_compute in H. injection H as <-. simpl in Hl. lia.
  - apply (Hc [Turn 0] (msg_at ada "/ai again" 105)); [|reflexivity|exact H0|simpl; lia].
    intros e ->%list_elem_of_singleton. reflexivity.
Defined.

(** ** Gift codes and subscriptions *)

Lemma find_one_and_delete_absent {D} (p : D -> bool) (c : list D) :
  (forall d, d ∈ c -> p d = false) -> Mongo.find_one_and_delete p c = (None, c).
Proof.
  induction c as [|d c IH]; intros H; simpl; [done|].
  rewrite (H d) by apply list_elem_of_here.
  rewrite IH; [done|]. intros x Hx. apply H. by apply list_elem_of_further.
Qed.

Lemma find_one_and_delete_present {D} (p : D -> bool) (c : list D) d :
  d ∈ c -> p d = true ->
  exists d' pre post,
    c = pre ++ d' :: post /\ p d' = true /\ (forall x, x ∈ pre -> p x = false) /\
    Mongo.find_one_and_delete p c = (Some d', pre ++ post).
Proof.
  induction c as [|x c IH]; intros Hin Hp; [by apply elem_of_nil in Hin|].
  simpl. destruct (p x) eqn:Ex.
  - exists x, [], c. repeat split; try done. by intros y ?%elem_of_nil.
  - apply elem_of_cons in Hin as [-> | Hin]; [congruence|].
    destruct (IH Hin Hp) as (d' & pre & post & -> & Hd' & Hpre & ->).
    exists d', (x :: pre), post. repeat split; try done.
    intros y [-> | Hy]%elem_of_cons; auto.
Qed.

Lemma by_code_true c d : by_code c d = true <-> gc_code d = c.
Proof. unfold by_code. apply bool_decide_eq_true. Qed.

Lemma by_code_false c d : by_code c d = false <-> gc_code d <> c.
Proof. unfold by_code. apply bool_decide_eq_false. Qed.

(** Taking a code that the store does not hold changes nothing. *)
Lemma take_absent code st :
  code ∉ codes st ->
  Mongo.find_one_and_delete (by_code code) (gift_codes_collection st)
  = (None, gift_codes_collection st).
Proof.
  intros Hno. apply find_one_and_delete_absent. intros d Hd.
  apply by_code_false. intros E. apply Hno. unfold codes.
  apply list_elem_of_fmap. by exists d.
Qed.

(** Taking a code that the store holds removes one document carrying it. *)
Lemma take_present code st :
  code ∈ codes st ->
  exists d pre post,
    gift_codes_collection st = pre ++ d :: post /\ gc_code d = code /\
    (code ∉ (gc_code <$> pre)) /\
    Mongo.find_one_and_delete (by_code code) (gift_codes_collection st)
    = (Some d, pre ++ post).
Proof.
  unfold codes. intros (d & E & Hd)%list_elem_of_fmap.
  destruct (find_one_and_delete_present (by_code code) _ d Hd) as
    (d' & pre & post & Hc & Hd' & Hpre & Hf); [by apply by_code_true|].
  exists d', pre, post. apply by_code_true in Hd'. repeat split; try done.
  intros (x & Ex & Hx)%list_elem_of_fmap.
  specialize (Hpre x Hx). apply by_code_false in Hpre. congruence.
Qed.

Lemma by_user_id_true u d : by_user_id u d = true <-> sd_user_id d = u.
Proof. unfold by_user_id. apply bool_decide_eq_true. Qed.

Lemma by_user_id_false u d : by_user_id u d = false <-> sd_user_id d <> u.
Proof. unfold by_user_id. apply bool_decide_eq_false. Qed.

(** After the upsert the user's record, as [find_one] returns it, carries
    the professional plan. *)
Lemma find_one_upgrade u c :
  is_professional (Mongo.find_one (by_user_id u) (upgrade u c)) = true.
Proof.
  unfold upgrade, Mongo.find_one. induction c as [|d c IH]; simpl.
  - unfold by_user_id; simpl. by rewrite bool_decide_eq_true_2.
  - destruct (by_user_id u d) eqn:E; simpl.
    + apply by_user_id_true in E.
      unfold by_user_id at 1; simpl. by rewrite bool_decide_eq_true_2.
    + by rewrite E.
Qed.

(** The upsert leaves the records of the other users alone. *)
Lemma find_one_upgrade_other u u' c :
  u <> u' ->
  Mongo.find_one (by_user_id u') (upgrade u c) = Mongo.find_one (by_user_id u') c.
Proof.
  intros Hne. unfold upgrade, Mongo.find_one. induction c as [|d c IH]; simpl.
  - unfold by_user_id; simpl. by rewrite bool_decide_eq_false_2.
  - destruct (by_user_id u d) eqn:E; simpl.
    + apply by_user_id_true in E.
      unfold by_user_id at 1 3; simpl. rewrite !bool_decide_eq_false_2; [done|congruence..].
    + by rewrite IH.
Qed.

(** The upsert adds a record only for a user that had none. *)
Lemma upgrade_user_ids u c :
  sd_user_id <$> upgrade u c =
  if bool_decide (u ∈ (sd_user_id <$> c)) then sd_user_id <$> c
  else (sd_user_id <$> c) ++ [u].
Proof.
  unfold upgrade. induction c as [|d c IH].
  - rewrite bool_decide_eq_false_2; [done|]. by intros ?%elem_of_nil.
  - cbn [Mongo.update_one_upsert]. rewrite (fmap_cons sd_user_id d c).
    destruct (by_user_id u d) eqn:E.
    + apply by_user_id_true in E. rewrite fmap_cons. cbn [sd_user_id].
      rewrite bool_decide_eq_true_2; [done|]. rewrite E. apply list_elem_of_here.
    + apply by_user_id_false in E. rewrite fmap_cons, IH.
      destruct (bool_decide (u ∈ sd_user_id <$> c)) eqn:B.
      * apply bool_decide_eq_true in B. rewrite bool_decide_eq_true_2; [done|].
        by apply list_elem_of_further.
      * apply bool_decide_eq_false in B. rewrite bool_decide_eq_false_2; [done|].
        intros [? | ?]%elem_of_cons; congruence.
Qed.

Lemma upgrade_one_record u c :
  NoDup (sd_user_id <$> c) -> NoDup (sd_user_id <$> upgrade u c).
Proof.
  intros H. rewrite upgrade_user_ids. case_bool_decide as B; [done|].
  apply NoDup_app. repeat split; [done| |apply NoDup_singleton].
  intros x Hx ->%list_elem_of_singleton. contradiction.
Qed.

Lemma find_one_professional u c :
  NoDup (sd_user_id <$> c) ->
  is_professional (Mongo.find_one (by_user_id u) c) = true <->
  exists d, d ∈ c /\ sd_user_id d = u /\ sd_plan d = Some professional.
Proof.
  unfold Mongo.find_one. induction c as [|x c IH]; simpl; intros Hnd.
  - split; [done|]. by intros (d & ?%elem_of_nil & _).
  - apply NoDup_cons in Hnd as [Hx Hnd]. destruct (by_user_id u x) eqn:E.
    + apply by_user_id_true in E. simpl. rewrite bool_decide_eq_true. split.
      * intros Hp. exists x. split; [apply list_elem_of_here|done].
      * intros (d & [-> | Hd]%elem_of_cons & Hu & Hp); [done|].
        exfalso. apply Hx. apply list_elem_of_fmap. exists d. split; [congruence|done].
    + apply by_user_id_false in E. rewrite (IH Hnd). split.
      * intros (d & Hd & H). exists d. split; [by apply list_elem_of_further|done].
      * intros (d & [-> | Hd]%elem_of_cons & Hu & Hp); [done|]. by exists d.
Qed.

Lemma redeem_command_exec st m :
  exec (redeem_command m) st =
  match Py.args (text m) with
  | [code] =>
      let found := Mongo.find_one_and_delete (by_code code) (gift_codes_collection st) in
      match found.1 with
      | Some _ =>
          with_effects (Reply (chat_id (chat m)) msg_redeemed ::
                        log_entries (LOG_CHANNEL_ID st) (from_user m) (text m) msg_redeemed)
            (set_subscriptions_collection
               (upgrade (uid (from_user m)) (subscriptions_collection st))
               (set_gift_codes_collection found.2 st))
      | None =>
          with_effects (Reply (chat_id (chat m)) msg_invalid_code ::
                        log_entries (LOG_CHANNEL_ID st) (from_user m) (text m) msg_invalid_code)
            (set_gift_codes_collection found.2 st)
      end
  | _ =>
      with_effects (Reply (chat_id (chat m)) msg_redeem_usage ::
                    log_entries (LOG_CHANNEL_ID st) (from_user m) (text m) msg_redeem_usage) st
  end.
Proof.
  unfold redeem_command.
  destruct (Py.args (text m)) as [|code [|]]; try apply exec_reply_log.
  rewrite exec_bind. unfold take_gift_code. cbv zeta.
  destruct (Mongo.find_one_and_delete _ _) as [[g|] remaining]; cbn [fst snd].
  - rewrite exec_bind. cbn [fst snd modify]. by rewrite exec_reply_log.
  - by rewrite exec_reply_log.
Qed.

Lemma set_gift_codes_same st : set_gift_codes_collection (gift_codes_collection st) st = st.
Proof. by destruct st. Qed.

(** The documents that carry a code, counted. *)
Lemma copies_positive code st : code ∈ codes st <-> (0 < copies code st)%nat.
Proof.
  unfold codes, copies. induction (gift_codes_collection st) as [|d c IH].
  - cbn. split; [by intros ?%elem_of_nil | lia].
  - rewrite fmap_cons, elem_of_cons. cbn [List.filter].
    destruct (by_code code d) eqn:E.
    + apply by_code_true in E. cbn [length]. split; [lia | by left].
    + apply by_code_false in E. rewrite <- IH. split; [intros [?|?]; congruence | by right].
Qed.

Lemma copies_taken code c (d : GiftDoc) pre post st st' :
  gift_codes_collection st = pre ++ d :: post -> gift_codes_collection st' = pre ++ post ->
  gc_code d = code ->
  copies c st = (copies c st' + if bool_decide (c = code) then 1 else 0)%nat.
Proof.
  intros E E' Hd. unfold copies. rewrite E, E', !List.filter_app, !length_app.
  cbn [List.filter]. case_bool_decide as Hc.
  - subst c. rewrite (proj2 (by_code_true _ d) Hd). cbn [length]. lia.
  - rewrite (proj2 (by_code_false c d)) by congruence. lia.
Qed.

(** C2.  A /redeem of a code present in the store removes one document,
    the first that carries the code, and leaves the others in place; it
    sets the caller's subscription plan to "professional" by upsert (the
    caller's record then reads professional, a record is added only for a
    caller who had none, the other users' records read as before) and
    answers with the success message.  A /redeem of a code absent from the
    store answers with the invalid-code message and changes neither the
    subscriptions nor anything else.  Each successful /redeem lowers the
    number of documents carrying the code by one: a code held once is gone
    after it, and every later /redeem of it, by any caller, is turned down
    as invalid. *)
Theorem redeem_command_once (st : State) (m : Message) (code : string) :
  Py.args (text m) = [code] ->
  let u := uid (from_user m) in
  let st' := exec (redeem_command m) st in
  let ids := sd_user_id <$> subscriptions_collection st in
  (code ∈ codes st ->
     (exists d pre post,
        gift_codes_collection st = pre ++ d :: post /\ gc_code d = code /\
        (code ∉ (gc_code <$> pre)) /\ gift_codes_collection st' = pre ++ post) /\
     (copies code st' + 1 = copies code st)%nat /\
     (forall c, c <> code -> copies c st' = copies c st) /\
     is_professional (Mongo.find_one (by_user_id u) (subscriptions_collection st')) = true /\
     (forall u', u' <> u ->
        Mongo.find_one (by_user_id u') (subscriptions_collection st') =
        Mongo.find_one (by_user_id u') (subscriptions_collection st)) /\
     (sd_user_id <$> subscriptions_collection st') =
       (if bool_decide (u ∈ ids) then ids else ids ++ [u]) /\
     emitted st st' = Reply (chat_id (chat m)) msg_redeemed ::
                      log_entries (LOG_CHANNEL_ID st) (from_user m) (text m) msg_redeemed /\
     st' = with_effects (emitted st st')
             (set_subscriptions_collection (subscriptions_collection st')
                (set_gift_codes_collection (gift_codes_collection st') st)) /\
     (copies code st = 1%nat ->
        (code ∉ codes st') /\
        forall m2, Py.args (text m2) = [code] ->
          exec (redeem_command m2) st' =
          with_effects (Reply (chat_id (chat m2)) msg_invalid_code ::
                        log_entries (LOG_CHANNEL_ID st') (from_user m2) (text m2)
                          msg_invalid_code) st')) /\
  (code ∉ codes st ->
     st' = with_effects
             (Reply (chat_id (chat m)) msg_invalid_code ::
              log_entries (LOG_CHANNEL_ID st) (from_user m) (text m) msg_invalid_code) st).
Proof.
  intros Hargs u st' ids.
  assert (Habsent : forall s m', Py.args (text m') = [code] -> code ∉ codes s ->
            exec (redeem_command m') s =
            with_effects (Reply (chat_id (chat m')) msg_invalid_code ::
                          log_entries (LOG_CHANNEL_ID s) (from_user m') (text m') msg_invalid_code) s).
  { intros s m' Ha Hno. rewrite redeem_command_exec, Ha. cbv zeta.
    rewrite (take_absent _ _ Hno). simpl. by rewrite set_gift_codes_same. }
  split; [|by apply Habsent].
  intros Hin. destruct (take_present _ _ Hin) as (d & pre & post & Hc & Hd & Hpre & Hf).
  assert (Hst' : st' = with_effects (Reply (chat_id (chat m)) msg_redeemed ::
                        log_entries (LOG_CHANNEL_ID st) (from_user m) (text m) msg_redeemed)
            (set_subscriptions_collection (upgrade u (subscriptions_collection st))
               (set_gift_codes_collection (pre ++ post) st))).
  { subst st'. rewrite redeem_command_exec, Hargs. cbv zeta. by rewrite Hf. }
  assert (Hg' : gift_codes_collection st' = pre ++ post) by (by rewrite Hst').
  assert (Hs' : subscriptions_collection st' = upgrade u (subscriptions_collection st))
    by (by rewrite Hst').
  assert (He : emitted st st' =
               Reply (chat_id (chat m)) msg_redeemed ::
               log_entries (LOG_CHANNEL_ID st) (from_user m) (text m) msg_redeemed).
  { rewrite Hst'. apply emitted_outbox. reflexivity. }
  assert (Hcopies : forall c,
            copies c st = (copies c st' + if bool_decide (c = code) then 1 else 0)%nat).
  { intros c. by apply (copies_taken code c d pre post). }
  split; [by exists d, pre, post|]. split; [|split; [|split; [|split; [|split; [|split; [|split]]]]]].
  - rewrite (Hcopies code). by rewrite bool_decide_eq_true_2.
  - intros c Hne. rewrite (Hcopies c). rewrite bool_decide_eq_false_2 by done. lia.
  - rewrite Hs'. apply find_one_upgrade.
  - intros u' Hne. rewrite Hs'. by apply find_one_upgrade_other.
  - rewrite Hs'. apply upgrade_user_ids.
  - exact He.
  - rewrite He, Hg', Hs'. by rewrite Hst' at 1.
  - intros Hone.
    assert (Hgone : code ∉ codes st').
    { rewrite copies_positive. rewrite (Hcopies code), bool_decide_eq_true_2 in Hone by done.
      lia. }
    split; [exact Hgone|]. intros m2 Hargs2. by apply Habsent.
Qed.

(** The scenario of the specification: ABC123, held once, is redeemed, then
    asked for once more. *)
Lemma redeem_command_once_witness :
  ("ABC123" ∉ codes after_redeem) /\
  exec (redeem_command (msg_at bob "/redeem ABC123" 11)) after_redeem =
  with_effects (Reply 8 msg_invalid_code ::
                log_entries (Some "-100") bob "/redeem ABC123" msg_invalid_code) after_redeem.
Proof.
  assert (Hin : "ABC123" ∈ codes one_code_state) by (apply list_elem_of_here).
  destruct (redeem_command_once one_code_state (msg_at ada "/redeem ABC123" 10) "ABC123"
              eq_refl) as [Hyes _].
  destruct (Hyes Hin) as (_ & _ & _ & _ & _ & _ & _ & _ & Honce).
  destruct (Honce eq_refl) as [Hgone Hsecond].
  split; [exact Hgone|]. exact (Hsecond (msg_at bob "/redeem ABC123" 11) eq_refl).
Defined.

(** C2 as the specification words it fails on a store that holds a code in
    two documents: after Ada's successful /redeem the code still exists in
    the store, and Bob's /redeem of the same code succeeds as well. *)
Lemma code_held_twice_is_redeemed_twice :
  emitted twice_held_state after_first_redeem =
    [Reply 7 msg_redeemed;
     SendMessage (ChatStr "-100") (log_text ada "/redeem ABC123" msg_redeemed)] /\
  "ABC123" ∈ codes after_first_redeem /\
  emitted after_first_redeem after_second_redeem =
    [Reply 8 msg_redeemed;
     SendMessage (ChatStr "-100") (log_text bob "/redeem ABC123" msg_redeemed)] /\
  subscriptions_collection after_second_redeem =
    [{| sd_user_id := 7; sd_plan := Some professional |};
     {| sd_user_id := 8; sd_plan := Some professional |}].
Proof.
  split; [reflexivity|]. split; [apply list_elem_of_here|]. split; reflexivity.
Qed.

(** ** The task registry *)

Lemma cancel_with_exec m canceled none st :
  exec (cancel_with m canceled none) st =
  match live_handle st (uid (from_user m)) with
  | Some h => with_effects [Reply (chat_id (chat m)) canceled]
                (set_tasks (alter request_cancel h (tasks st)) st)
  | None => with_effects [Reply (chat_id (chat m)) none] st
  end.
Proof.
  unfold cancel_with. rewrite exec_bind. cbn [fst snd gets].
  destruct (live_handle _ _); [|reflexivity].
  rewrite exec_bind. reflexivity.
Qed.

Lemma live_handle_Some st u h :
  live_handle st u = Some h <->
  user_tasks st !! u = Some h /\ exists t, tasks st !! h = Some t /\ t_done t = false.
Proof.
  unfold live_handle. destruct (user_tasks st !! u) as [h'|].
  - destruct (tasks st !! h') as [t|] eqn:Et.
    + destruct (t_done t) eqn:Ed.
      * split; [done|]. intros (E & t' & Ht' & Hd'). congruence.
      * split.
        -- intros E. injection E as <-. split; [done|]. by exists t.
        -- by intros (E & _).
    + split; [done|]. intros (E & t' & Ht' & Hd'). congruence.
  - split; [done|]. by intros (E & _).
Qed.

Lemma live_handle_None st u : live_handle st u = None <-> ~ has_live_task st u.
Proof.
  unfold has_live_task. destruct (live_handle st u) as [h|] eqn:E.
  - apply live_handle_Some in E as (Hu & t & Ht & Hd). split; [done|].
    intros H. exfalso. apply H. by exists h, t.
  - split; [|done]. intros _ (h & t & Hu & Ht & Hd).
    assert (live_handle st u = Some h) as E' by (apply live_handle_Some; eauto).
    congruence.
Qed.

Lemma cancel_handler_exec env cc m st :
  cc = CmdCancelai \/ cc = CmdCancelproai ->
  exec (handler env cc m) st =
  match live_handle st (uid (from_user m)) with
  | Some h => with_effects [Reply (chat_id (chat m)) (canceled_reply cc)]
                (set_tasks (alter request_cancel h (tasks st)) st)
  | None => with_effects [Reply (chat_id (chat m)) (none_reply cc)] st
  end.
Proof. intros [-> | ->]; apply cancel_with_exec. Qed.

(** An invocation that starts a task registers a new task object under the
    caller. *)
Lemma start_registers env c m st :
  starts_task c st m = true ->
  exec (handler env c m) st =
  set_user_tasks (<[uid (from_user m) := length (tasks st)]> (user_tasks st))
    (set_tasks (tasks st ++ [new_task (task_body c m)])
       (with_effects
          [Reply (chat_id (chat m))
             (match c with CmdProai => msg_generating_many | _ => msg_generating end)]
          (stamped c m st))).
Proof.
  destruct c; try discriminate; cbn [starts_task handler]; intros [H1 H2]%andb_true_iff.
  - rewrite ai_command_exec. cbv zeta. apply negb_true_iff in H1. by rewrite H1, H2.
  - rewrite proai_command_exec. cbv zeta. by rewrite H1, H2.
Qed.

Lemma canceled_ne_none cc : canceled_reply cc <> none_reply cc.
Proof. destruct cc; discriminate. Qed.

(** C3.  The registry holds one handle per user.  An /ai or /proai
    invocation that starts a background task creates a new task object and
    puts its handle in the caller's slot, whatever was there; a cancel sent
    next marks that newest task only and leaves every task created earlier
    as it was.  In any state, a cancel command answers "canceled" iff the
    caller has a registered task that is not completed; it then requests
    cancellation of exactly that task.  Otherwise it answers "no active
    command" and changes nothing else.  A cancel never changes the registry
    nor any task other than the caller's registered one. *)
Theorem task_registry_single_slot (env : Env) (st : State) (m : Message) :
  let u := uid (from_user m) in
  (forall c, starts_task c st m = true ->
     let st1 := exec (handler env c m) st in
     user_tasks st1 = <[u := length (tasks st)]> (user_tasks st) /\
     tasks st1 = tasks st ++ [new_task (task_body c m)] /\
     forall cc m2, cc = CmdCancelai \/ cc = CmdCancelproai -> uid (from_user m2) = u ->
       let st2 := exec (handler env cc m2) st1 in
       tasks st2 = tasks st ++ [request_cancel (new_task (task_body c m))] /\
       user_tasks st2 = user_tasks st1 /\
       emitted st1 st2 = [Reply (chat_id (chat m2)) (canceled_reply cc)]) /\
  (forall cc, cc = CmdCancelai \/ cc = CmdCancelproai ->
     let st' := exec (handler env cc m) st in
     (Reply (chat_id (chat m)) (canceled_reply cc) ∈ emitted st st' <-> has_live_task st u) /\
     (has_live_task st u ->
        exists h, user_tasks st !! u = Some h /\
          st' = with_effects [Reply (chat_id (chat m)) (canceled_reply cc)]
                  (set_tasks (alter request_cancel h (tasks st)) st)) /\
     (~ has_live_task st u ->
        st' = with_effects [Reply (chat_id (chat m)) (none_reply cc)] st) /\
     user_tasks st' = user_tasks st /\
     (forall h, user_tasks st !! u <> Some h -> tasks st' !! h = tasks st !! h)).
Proof.
  intros u. split.
  - intros c Hs st1. subst st1. rewrite (start_registers env c m st Hs).
    split; [reflexivity|]. split; [reflexivity|].
    intros cc m2 Hcc Hu st2. subst st2.
    rewrite (cancel_handler_exec env cc m2 _ Hcc).
    set (st1 := set_user_tasks _ _).
    assert (Hl : live_handle st1 (uid (from_user m2)) = Some (length (tasks st))).
    { apply live_handle_Some. rewrite Hu. subst st1. cbn [user_tasks tasks set_user_tasks set_tasks].
      split; [apply lookup_insert_eq|].
      exists (new_task (task_body c m)). split; [|reflexivity].
      rewrite lookup_app_r by lia. by rewrite Nat.sub_diag. }
    rewrite Hl. split; [|split].
    + subst st1. cbn [tasks with_effects set_outbox set_tasks set_user_tasks].
      rewrite <- (Nat.add_0_r (length (tasks st))).
      rewrite alter_app_r. reflexivity.
    + reflexivity.
    + apply emitted_outbox. reflexivity.
  - intros cc Hcc st'. subst st'. rewrite (cancel_handler_exec env cc m st Hcc). fold u.
    destruct (live_handle st u) as [h|] eqn:E.
    + pose proof E as (Hu & t & Ht & Hd)%live_handle_Some.
      assert (Hlive : has_live_task st u) by (by exists h, t).
      split; [|split; [|split; [|split]]].
      * split; [done|]. intros _. erewrite emitted_outbox by reflexivity.
        apply list_elem_of_here.
      * intros _. by exists h.
      * intros Hno. contradiction.
      * reflexivity.
      * intros h' Hne. cbn [tasks with_effects set_outbox set_tasks].
        apply list_lookup_alter_ne. congruence.
    + pose proof E as Hno%live_handle_None.
      split; [|split; [|split; [|split]]].
      * split; [|done]. erewrite emitted_outbox by reflexivity.
        intros Hin%list_elem_of_singleton. injection Hin as Hin.
        by apply canceled_ne_none in Hin.
      * intros H. contradiction.
      * done.
      * reflexivity.
      * reflexivity.
Qed.

(** Ada starts an image, starts a second one 6 seconds later and cancels:
    the first task object is as it was, the second carries the request. *)
Lemma task_registry_single_slot_witness :
  tasks after_cancel =
    tasks after_first_ai ++ [request_cancel (new_task (task_body CmdAi second_ai))] /\
  has_live_task after_second_ai 7.
Proof.
  pose proof (task_registry_single_slot sample_env after_first_ai second_ai) as [Hstart _].
  destruct (Hstart CmdAi eq_refl) as (_ & _ & Hcancel).
  destruct (Hcancel CmdCancelai (msg_at ada "/cancelai" 107) (or_introl eq_refl) eq_refl)
    as (Ht & _).
  split; [exact Ht|].
  pose proof (task_registry_single_slot sample_env after_second_ai (msg_at ada "/cancelai" 107))
    as [_ Hc].
  destruct (Hc CmdCancelai (or_introl eq_refl)) as (Hiff & _).
  apply Hiff. apply list_elem_of_here.
Defined.
(** ** A task left to itself runs to its end *)

Lemma perform_set_tasks io T st :
  exec (perform io) (set_tasks T st) = set_tasks T (exec (perform io) st).
Proof. by destruct io. Qed.

Lemma suspends_set_tasks io T st : suspends io (set_tasks T st) = suspends io st.
Proof. by destruct io. Qed.

Lemma run_set_tasks env c T st : run env c (set_tasks T st) = set_tasks T (run env c st).
Proof.
  revert st. induction c as [|io k IH|p k IH|u url k IH]; intros st; cbn [run].
  - done.
  - by rewrite perform_set_tasks, IH.
  - rewrite !exec_call_generate_image.
    change (with_effects ?es (set_tasks T st)) with (set_tasks T (with_effects es st)).
    apply IH.
  - change (set_user_images (<[u:=url]> (user_images (set_tasks T st))) (set_tasks T st))
      with (set_tasks T (set_user_images (<[u:=url]> (user_images st)) st)). apply IH.
Qed.

(** One turn either ends the coroutine or takes it to a suspension point
    with fewer [await]s ahead; in both cases it is on the way [run] goes. *)
Lemma resume_cases env c st :
  resume env c st = (None, run env c st) \/
  (exists k st1, resume env c st = (Some k, st1) /\
     (suspensions env k < suspensions env c)%nat /\ run env c st = run env k st1).
Proof.
  revert st. induction c as [|io k IH|p k IH|u url k IH]; intros st;
    cbn [resume run suspensions].
  - by left.
  - destruct (suspends io st).
    + right. exists k, (exec (perform io) st). split; [done|]. split; [lia|done].
    + destruct (IH (exec (perform io) st)) as [Hr | (k' & st1 & Hr & Hs & Hrun)].
      * by left.
      * right. exists k', st1. split; [done|]. split; [lia|done].
  - apply IH.
  - apply IH.
Qed.

(** A finished task takes no more turns. *)
Lemma ticks_done env h n st t :
  tasks st !! h = Some t -> t_done t = true -> Nat.iter n (tick env h) st = st.
Proof.
  intros Ht Hd. induction n as [|n IH]; [done|]. rewrite Nat.iter_succ, IH.
  unfold tick. by rewrite Ht, Hd.
Qed.

(** A task that is neither done nor asked to cancel, given as many turns as
    it has [await]s ahead and one more, is done, and has changed the state
    as the uninterrupted [run] of its coroutine does. *)
Lemma ticks_complete env h n : forall c st t,
  (suspensions env c <= n)%nat ->
  tasks st !! h = Some t -> t_coro t = c -> t_done t = false -> t_must_cancel t = false ->
  let st' := Nat.iter (S n) (tick env h) st in
  (exists t', tasks st' !! h = Some t' /\ t_done t' = true) /\
  st' = set_tasks (tasks st') (run env c st).
Proof.
  induction n as [|n IH]; intros c st t Hn Ht Hc Hd Hm st'; subst st';
    rewrite Nat.iter_succ_r;
    (destruct (resume_cases env c st) as [Hr | (k & st1 & Hr & Hs & Hrun)];
     [|try lia]);
    pose proof (resume_frame env c st) as Hf; cbv zeta in Hf; rewrite Hr in Hf;
    cbn [snd] in Hf; destruct Hf as (Htasks & _).
  - (* the coroutine ends in its first turn *)
    assert (Htick : tick env h st =
              set_tasks (<[h := {| t_coro := Finish; t_must_cancel := false; t_done := true |}]>
                           (tasks (run env c st))) (run env c st)).
    { unfold tick. by rewrite Ht, Hd, Hm, Hc, Hr. }
    rewrite Htick. cbn [Nat.iter tasks set_tasks]. split; [|reflexivity].
    eexists. split.
    + apply list_lookup_insert_eq. rewrite Htasks. by apply lookup_lt_Some in Ht.
    + reflexivity.
  - (* the same, and the turns left over change nothing *)
    assert (Htick : tick env h st =
              set_tasks (<[h := {| t_coro := Finish; t_must_cancel := false; t_done := true |}]>
                           (tasks (run env c st))) (run env c st)).
    { unfold tick. by rewrite Ht, Hd, Hm, Hc, Hr. }
    rewrite Htick.
    match goal with |- context [Nat.iter _ _ ?s] => set (st2 := s) end.
    assert (Ht2 : tasks st2 !! h =
                  Some {| t_coro := Finish; t_must_cancel := false; t_done := true |}).
    { subst st2. cbn [tasks set_tasks]. apply list_lookup_insert_eq.
      rewrite Htasks. by apply lookup_lt_Some in Ht. }
    rewrite (ticks_done env h (S n) st2 _ Ht2 eq_refl). split; [by eexists|].
    subst st2. reflexivity.
  - (* the coroutine suspends, with fewer awaits ahead *)
    assert (Hk : (suspensions env k <= n)%nat) by lia.
    assert (Htick : tick env h st =
              set_tasks (<[h := {| t_coro := k; t_must_cancel := false; t_done := false |}]>
                           (tasks st1)) st1).
    { unfold tick. by rewrite Ht, Hd, Hm, Hc, Hr. }
    rewrite Htick.
    match goal with |- context [Nat.iter _ _ ?s] => set (st2 := s) end.
    assert (Ht2 : tasks st2 !! h =
                  Some {| t_coro := k; t_must_cancel := false; t_done := false |}).
    { subst st2. cbn [tasks set_tasks]. apply list_lookup_insert_eq.
      rewrite Htasks. by apply lookup_lt_Some in Ht. }
    destruct (IH k st2 _ Hk Ht2 eq_refl eq_refl eq_refl) as [Hdone Hst].
    split; [exact Hdone|]. rewrite Hst at 1. subst st2.
    rewrite run_set_tasks, Hrun. reflexivity.
Qed.

(** The professional flow started by /proai, left to itself, is done after
    at most 46 turns. *)
Lemma proai_suspensions env user input prompt range :
  (suspensions env (proai_loop user input prompt range) <= 3 * length range)%nat.
Proof.
  induction range as [|i range IH]; [done|]. cbn [proai_loop suspensions length].
  destruct (Py.truthy _); cbn [suspensions]; lia.
Qed.


(** ** The professional flow *)

Lemma pacing_app es1 es2 : pacing (es1 ++ es2) = pacing es1 ++ pacing es2.
Proof. apply List.filter_app. Qed.

Lemma failure_notices_app u es1 es2 :
  failure_notices u (es1 ++ es2) = failure_notices u es1 ++ failure_notices u es2.
Proof. apply List.filter_app. Qed.

Lemma requests_app es1 es2 : requests (es1 ++ es2) = requests es1 ++ requests es2.
Proof. apply omap_app. Qed.

Lemma pacing_log ch u i r : pacing (log_entries ch u i r) = [].
Proof. unfold log_entries. by repeat case_match. Qed.

Lemma failure_notices_log u ch u' i r : failure_notices u (log_entries ch u' i r) = [].
Proof. unfold log_entries. by repeat case_match. Qed.

Lemma requests_log ch u i r : requests (log_entries ch u i r) = [].
Proof. unfold log_entries. by repeat case_match. Qed.

Lemma requests_generate_image_log env p : requests (generate_image_log env p) = [].
Proof. unfold generate_image_log. by repeat case_match. Qed.

Lemma pacing_call env p :
  pacing (ProviderRequest p :: generate_image_log env p) = [ProviderRequest p].
Proof. unfold generate_image_log. by repeat case_match. Qed.

Lemma requests_call env p : requests (ProviderRequest p :: generate_image_log env p) = [p].
Proof. unfold generate_image_log. by repeat case_match. Qed.

Lemma failure_notices_call u env p :
  failure_notices u (ProviderRequest p :: generate_image_log env p) = [].
Proof. unfold generate_image_log. by repeat case_match. Qed.

Lemma failure_notice_self u :
  is_failure_notice u (SendMessage (ChatInt (uid u)) msg_proai_error) = true.
Proof. unfold is_failure_notice. by rewrite !bool_decide_eq_true_2. Qed.

Lemma step_ok_dec env prompt i :
  ~ step_ok env prompt i <-> Py.truthy (generate_image env (proai_prompt prompt i)) = false.
Proof. unfold step_ok. by destruct (Py.truthy _). Qed.

(** The run of the loop over any range of indices: [n] steps succeed, and
    the step after them, when there is one, fails and ends the run. *)
Lemma proai_loop_run env user input prompt range st :
  exists n es,
    run env (proai_loop user input prompt range) st = with_effects es st /\
    (n <= length range)%nat /\
    (forall i, i ∈ take n range -> step_ok env prompt i) /\
    pacing es = flat_map (paced_step prompt) (take n range) ++
                match range !! n with
                | Some k => [ProviderRequest (proai_prompt prompt k)]
                | None => []
                end /\
    requests es = (proai_prompt prompt <$> take (S n) range) /\
    failure_notices user es =
      match range !! n with
      | Some _ => [SendMessage (ChatInt (uid user)) msg_proai_error]
      | None => []
      end /\
    (forall k, range !! n = Some k ->
       ~ step_ok env prompt k /\
       exists before,
         es = before ++
              [ProviderRequest (proai_prompt prompt k)] ++
              generate_image_log env (proai_prompt prompt k) ++
              [SendMessage (ChatInt (uid user)) msg_proai_error] ++
              log_entries (LOG_CHANNEL_ID st) user input msg_proai_error).
Proof.
  revert st. induction range as [|i range IH]; intros st.
  - exists 0%nat, []. cbn [proai_loop run]. rewrite with_effects_nil.
    repeat split; try done. by intros i ?%elem_of_nil.
  - cbn [proai_loop run].
    destruct (Py.truthy (generate_image env (proai_prompt prompt i))) eqn:Eok.
    + cbn [run perform].
      rewrite (exec_call_ok _ _ _ Eok), !exec_emit, exec_log_message, !with_effects_app.
      match goal with |- context [run env _ (with_effects ?es0 st)] => set (es1 := es0) end.
      destruct (IH (with_effects es1 st)) as (n & es & Hrun & Hn & Hok & Hp & Hr & Hf & Hlast).
      exists (S n), (es1 ++ es). rewrite Hrun, with_effects_app.
      assert (Hp1 : pacing es1 = paced_step prompt i).
      { subst es1. rewrite !pacing_app, pacing_log. reflexivity. }
      assert (Hf1 : failure_notices user es1 = []).
      { subst es1. rewrite !failure_notices_app, failure_notices_log. reflexivity. }
      assert (Hr1 : requests es1 = [proai_prompt prompt i]).
      { subst es1. rewrite !requests_app, requests_log. reflexivity. }
      split; [reflexivity|]. split; [simpl; lia|]. split; [|split; [|split; [|split]]].
      * intros j [-> | Hj]%elem_of_cons; [exact Eok | by apply Hok].
      * rewrite pacing_app, Hp1, Hp. cbn [take flat_map lookup list_lookup]. 
        by rewrite <- app_assoc.
      * rewrite requests_app, Hr1, Hr. reflexivity.
      * rewrite failure_notices_app, Hf1, Hf. reflexivity.
      * intros k Hk. cbn in Hk. destruct (Hlast k Hk) as (Hbad & before & ->).
        split; [exact Hbad|]. exists (es1 ++ before). by rewrite <- app_assoc.
    + cbn [run perform].
      rewrite exec_call_generate_image, !exec_emit, exec_log_message, !with_effects_app.
      exists 0%nat. eexists. split; [reflexivity|]. split; [simpl; lia|].
      split; [|split; [|split; [|split]]].
      * by intros j ?%elem_of_nil.
      * rewrite !pacing_app, pacing_log, pacing_call. reflexivity.
      * rewrite !requests_app, requests_log, requests_call. reflexivity.
      * rewrite !failure_notices_app, failure_notices_log, failure_notices_call.
        cbn [failure_notices List.filter app]. by rewrite failure_notice_self.
      * intros k Hk. injection Hk as <-. split; [by apply step_ok_dec|].
        exists []. reflexivity.
Qed.

(** Appending to the right is injective on strings. *)
Lemma string_length_app (a b : string) :
  String.length (a +:+ b) = (String.length a + String.length b)%nat.
Proof.
  induction a as [|c a IH]; [done|].
  change (String c a +:+ b) with (String c (a +:+ b)). cbn [String.length]. by rewrite IH.
Qed.

Lemma string_app_inv_tail (a b s : string) : a +:+ s = b +:+ s -> a = b.
Proof.
  revert b. induction a as [|c a IH]; intros [|c' b] E.
  - done.
  - apply (f_equal String.length) in E. rewrite !string_length_app in E.
    cbn [String.length] in E. lia.
  - apply (f_equal String.length) in E. rewrite !string_length_app in E.
    cbn [String.length] in E. lia.
  - change (String c (a +:+ s) = String c' (b +:+ s)) in E.
    injection E as -> E. f_equal. by apply IH.
Qed.

(** Two steps never ask for the same prompt. *)
Lemma proai_prompt_inj prompt i j : proai_prompt prompt i = proai_prompt prompt j -> i = j.
Proof.
  unfold proai_prompt. intros E.
  apply String.app_inj in E. apply String.app_inj in E.
  apply string_app_inv_tail in E. apply (inj pretty) in E. lia.
Qed.

Lemma resume_n_Finish env n st : resume_n env n Finish st = st.
Proof. by destruct n. Qed.

Lemma flow_shape_nothing env user input prompt range ch :
  flow_shape env user input prompt range ch [].
Proof.
  exists 0%nat, []. split; [by intros i ?%elem_of_nil|]. split; [done|]. split; [done|].
  by left.
Qed.

(** The first step was asked for, with success, and its delay is yet to
    come. *)
Lemma flow_shape_asked env user input prompt i range ch es :
  step_ok env prompt i ->
  pacing es = [ProviderRequest (proai_prompt prompt i)] ->
  requests es = [proai_prompt prompt i] -> failure_notices user es = [] ->
  flow_shape env user input prompt (i :: range) ch es.
Proof.
  intros Hok Hp Hr Hf. exists 0%nat, [ProviderRequest (proai_prompt prompt i)].
  split; [by intros j ?%elem_of_nil|]. split; [done|]. split; [done|].
  right. exists i. split; [done|]. split; [done|]. left. by split.
Qed.

(** The first step was asked for and failed. *)
Lemma flow_shape_failed env user input prompt i range ch after :
  ~ step_ok env prompt i ->
  after = [] \/ after = log_entries ch user input msg_proai_error ->
  flow_shape env user input prompt (i :: range) ch
    (((ProviderRequest (proai_prompt prompt i) ::
         generate_image_log env (proai_prompt prompt i)) ++
      [SendMessage (ChatInt (uid user)) msg_proai_error]) ++ after).
Proof.
  intros Hbad Hafter. exists 0%nat, [ProviderRequest (proai_prompt prompt i)].
  split; [by intros j ?%elem_of_nil|].
  assert (Hpa : pacing after = [] /\ requests after = [] /\ failure_notices user after = []).
  { destruct Hafter as [-> | ->]; [done|].
    by rewrite pacing_log, requests_log, failure_notices_log. }
  destruct Hpa as (Hpa & Hra & Hfa).
  split; [by rewrite !pacing_app, pacing_call, Hpa|].
  split; [by rewrite !requests_app, requests_call, Hra|].
  right. exists i. split; [done|]. split; [done|]. right.
  split; [done|]. split.
  - rewrite !failure_notices_app, failure_notices_call, Hfa.
    cbn [failure_notices List.filter app]. by rewrite failure_notice_self.
  - exists [], after. split; [|done]. cbn [app]. by rewrite <- app_assoc.
Qed.

(** A successful step, delay included, in front of what the rest of the
    range gave. *)
Lemma flow_shape_step env user input prompt i range ch es1 es :
  step_ok env prompt i ->
  pacing es1 = paced_step prompt i -> requests es1 = [proai_prompt prompt i] ->
  failure_notices user es1 = [] ->
  flow_shape env user input prompt range ch es ->
  flow_shape env user input prompt (i :: range) ch (es1 ++ es).
Proof.
  intros Eok Hp1 Hr1 Hf1 (m & tail & Hok & Hp & Hr & Hcase).
  exists (S m), tail. split; [|split; [|split]].
  - intros j [-> | Hj]%elem_of_cons; [exact Eok | by apply Hok].
  - rewrite pacing_app, Hp1, Hp. cbn [take flat_map]. by rewrite <- app_assoc.
  - rewrite requests_app, Hr1, Hr. reflexivity.
  - rewrite failure_notices_app, Hf1. cbn [app lookup list_lookup].
    destruct Hcase
      as [Hnil | (k & Hk & Htail & [Hgood | (Hbad & Hf & before & after & -> & Hafter)])].
    + by left.
    + right. exists k. split; [done|]. split; [done|]. by left.
    + right. exists k. split; [done|]. split; [done|]. right.
      split; [done|]. split; [done|]. exists (es1 ++ before), after.
      split; [by rewrite <- app_assoc | done].
Qed.

(** The loop after any number of turns. *)
Lemma proai_loop_turns env user input prompt range : forall n st,
  exists es,
    resume_n env n (proai_loop user input prompt range) st = with_effects es st /\
    flow_shape env user input prompt range (LOG_CHANNEL_ID st) es.
Proof.
  induction range as [|i range IH]; intros n st.
  - exists []. cbn [proai_loop]. rewrite resume_n_Finish, with_effects_nil.
    split; [done | apply flow_shape_nothing].
  - destruct n as [|n].
    { exists []. cbn [resume_n]. rewrite with_effects_nil.
      split; [done | apply flow_shape_nothing]. }
    cbn [proai_loop resume_n resume].
    destruct (Py.truthy (generate_image env (proai_prompt prompt i))) eqn:Eok.
    + (* the step succeeds *)
      cbn [resume suspends perform].
      rewrite (exec_call_ok _ _ _ Eok), !exec_emit, !with_effects_app.
      destruct n as [|n].
      { cbn [resume_n]. eexists. split; [reflexivity|]. by apply flow_shape_asked. }
      assert (Hn : (exists n' es1,
                resume_n env (S n)
                  (Await (IOLogMessage user input
                            (Py.str_opt (generate_image env (proai_prompt prompt i))))
                     (Await (IOSleep 5) (proai_loop user input prompt range)))
                  (with_effects
                     ([ProviderRequest (proai_prompt prompt i)] ++
                      [SendPhoto (uid user)
                         (Py.str_opt (generate_image env (proai_prompt prompt i)))]) st) =
                resume_n env n' (proai_loop user input prompt range) (with_effects es1 st) /\
                pacing es1 = paced_step prompt i /\
                requests es1 = [proai_prompt prompt i] /\
                failure_notices user es1 = []) \/
              exists es1,
                resume_n env (S n)
                  (Await (IOLogMessage user input
                            (Py.str_opt (generate_image env (proai_prompt prompt i))))
                     (Await (IOSleep 5) (proai_loop user input prompt range)))
                  (with_effects
                     ([ProviderRequest (proai_prompt prompt i)] ++
                      [SendPhoto (uid user)
                         (Py.str_opt (generate_image env (proai_prompt prompt i)))]) st) =
                with_effects es1 st /\
                pacing es1 = [ProviderRequest (proai_prompt prompt i)] /\
                requests es1 = [proai_prompt prompt i] /\
                failure_notices user es1 = []).
      { cbn [resume_n resume suspends perform LOG_CHANNEL_ID with_effects set_outbox].
        rewrite exec_log_message, with_effects_app.
        destruct (Py.truthy (LOG_CHANNEL_ID st)).
        - destruct n as [|n].
          + right. eexists. split; [reflexivity|].
            by rewrite !pacing_app, !requests_app, !failure_notices_app,
              pacing_log, requests_log, failure_notices_log.
          + left. cbn [resume_n resume suspends perform]. rewrite exec_emit, with_effects_app.
            exists n. eexists. split; [reflexivity|].
            by rewrite !pacing_app, !requests_app, !failure_notices_app,
              pacing_log, requests_log, failure_notices_log.
        - left. cbn [resume suspends perform]. rewrite exec_emit, with_effects_app.
          exists n. eexists. split; [reflexivity|].
          by rewrite !pacing_app, !requests_app, !failure_notices_app,
            pacing_log, requests_log, failure_notices_log. }
      destruct Hn as [(n' & es1 & -> & Hp1 & Hr1 & Hf1) | (es1 & -> & Hp1 & Hr1 & Hf1)].
      * destruct (IH n' (with_effects es1 st)) as (es & Hrun & Hshape).
        exists (es1 ++ es). rewrite Hrun, with_effects_app. split; [done|].
        by apply flow_shape_step.
      * exists es1. split; [done|]. by apply flow_shape_asked.
    + (* the step fails *)
      apply step_ok_dec in Eok.
      cbn [resume suspends perform].
      rewrite exec_call_generate_image, !exec_emit, !with_effects_app.
      destruct n as [|n].
      { cbn [resume_n]. eexists. split; [by rewrite <- (app_nil_r (_ ++ _))|].
        apply flow_shape_failed; [done | by left]. }
      cbn [resume_n resume suspends perform LOG_CHANNEL_ID with_effects set_outbox].
      rewrite exec_log_message, with_effects_app.
      destruct (Py.truthy (LOG_CHANNEL_ID st)); [rewrite resume_n_Finish|];
        (eexists; split; [reflexivity|]; apply flow_shape_failed; [done | by right]).
Qed.

(** The same for the range of [generate_proai_task]: the indices 0..14. *)
Lemma generate_proai_task_run env user input prompt st :
  exists n es,
    run env (generate_proai_task user input prompt) st = with_effects es st /\
    (n <= 15)%nat /\
    (forall i, (i < n)%nat -> step_ok env prompt i) /\
    pacing es = flat_map (paced_step prompt) (seq 0 n) ++
                (if decide (n < 15)%nat then [ProviderRequest (proai_prompt prompt n)] else []) /\
    requests es = (proai_prompt prompt <$> seq 0 (S n `min` 15)) /\
    failure_notices user es =
      (if decide (n < 15)%nat then [SendMessage (ChatInt (uid user)) msg_proai_error] else []) /\
    ((n < 15)%nat ->
       ~ step_ok env prompt n /\
       exists before,
         es = before ++
              [ProviderRequest (proai_prompt prompt n)] ++
              generate_image_log env (proai_prompt prompt n) ++
              [SendMessage (ChatInt (uid user)) msg_proai_error] ++
              log_entries (LOG_CHANNEL_ID st) user input msg_proai_error).
Proof.
  unfold generate_proai_task.
  destruct (proai_loop_run env user input prompt (seq 0 15) st)
    as (n & es & Hrun & Hn & Hok & Hp & Hr & Hf & Hlast).
  rewrite length_seq in Hn. rewrite !take_seq in *.
  replace (n `min` 15)%nat with n in * by lia.
  assert (Hlk : seq 0 15 !! n = if decide (n < 15)%nat then Some n else None).
  { case_decide; [by rewrite lookup_seq_lt | by rewrite lookup_seq_ge by lia]. }
  rewrite Hlk in *.
  exists n, es. split; [done|]. split; [done|]. split; [|split; [|split; [|split]]].
  - intros i Hi. apply Hok. apply elem_of_seq. lia.
  - rewrite Hp. by case_decide.
  - done.
  - rewrite Hf. by case_decide.
  - intros Hlt. apply Hlast. by rewrite decide_True.
Qed.

(** The shape of the flow over the indices 0..14. *)
Lemma flow_shape_seq env user input prompt ch es :
  flow_shape env user input prompt (seq 0 15) ch es ->
  exists m,
    (m <= 15)%nat /\ (forall i, (i < m)%nat -> step_ok env prompt i) /\
    ((pacing es = flat_map (paced_step prompt) (seq 0 m) /\
      requests es = (proai_prompt prompt <$> seq 0 m) /\
      failure_notices user es = []) \/
     ((m < 15)%nat /\
      pacing es = flat_map (paced_step prompt) (seq 0 m) ++
                  [ProviderRequest (proai_prompt prompt m)] /\
      requests es = (proai_prompt prompt <$> seq 0 (S m)) /\
      ((step_ok env prompt m /\ failure_notices user es = []) \/
       (~ step_ok env prompt m /\
        failure_notices user es = [SendMessage (ChatInt (uid user)) msg_proai_error] /\
        exists before after,
          es = before ++
               [ProviderRequest (proai_prompt prompt m)] ++
               generate_image_log env (proai_prompt prompt m) ++
               [SendMessage (ChatInt (uid user)) msg_proai_error] ++ after /\
          (after = [] \/ after = log_entries ch user input msg_proai_error))))).
Proof.
  intros (m & tail & Hok & Hp & Hr & Hcase). rewrite take_seq in *.
  destruct Hcase as [[-> Hf] | (k & Hk & -> & Hcase)].
  - exists (m `min` 15)%nat. split; [lia|]. split.
    + intros i Hi. apply Hok, elem_of_seq. lia.
    + left. rewrite app_nil_r in Hp, Hr. done.
  - apply lookup_seq in Hk as [-> Hm]. cbn [Nat.add] in *.
    replace (m `min` 15)%nat with m in * by lia.
    exists m. split; [lia|]. split.
    + intros i Hi. apply Hok, elem_of_seq. lia.
    + right. split; [done|]. split; [done|]. split; [|done].
      rewrite Hr. cbn [requests omap]. rewrite seq_S, fmap_app. reflexivity.
Qed.

Lemma generate_proai_task_turns env user input prompt n st :
  exists es,
    resume_n env n (generate_proai_task user input prompt) st = with_effects es st /\
    flow_shape env user input prompt (seq 0 15) (LOG_CHANNEL_ID st) es.
Proof. apply proai_loop_turns. Qed.

(** With more turns than it has [await]s ahead, a coroutine has run to its
    end. *)
Lemma resume_n_run env n : forall c st,
  (suspensions env c < n)%nat -> resume_n env n c st = run env c st.
Proof.
  induction n as [|n IH]; intros c st Hn; [lia|]. cbn [resume_n].
  destruct (resume_cases env c st) as [-> | (k & st1 & -> & Hs & ->)]; [done|].
  apply IH. lia.
Qed.

Lemma requests_NoDup prompt m : NoDup (proai_prompt prompt <$> seq 0 m).
Proof.
  apply NoDup_fmap_2; [|apply NoDup_seq]. intros i j. apply proai_prompt_inj.
Qed.

(** C4.  In every run of the professional flow, whether it goes to its end
    or is cut after any number of turns: once the provider has failed on a
    request, exactly one failure notice has been sent to the user, no
    prompt was asked twice, the failed request is the last one, and nothing
    follows it but the error line [generate_image] wrote, the notice and
    its mirror in the log.  And when the
    provider fails at some step, the complete run does stop at the first
    failing step, with the provider asked once for each step up to it. *)
Theorem proai_stops_at_first_failure (env : Env) (user : User)
    (input prompt : string) (st : State) :
  (forall n p,
     let es := emitted st (resume_n env n (generate_proai_task user input prompt) st) in
     p ∈ requests es -> Py.truthy (generate_image env p) = false ->
     failure_notices user es = [SendMessage (ChatInt (uid user)) msg_proai_error] /\
     NoDup (requests es) /\
     last (requests es) = Some p /\
     exists before after,
       es = before ++
            [ProviderRequest p] ++ generate_image_log env p ++
            [SendMessage (ChatInt (uid user)) msg_proai_error] ++ after /\
       (after = [] \/ after = log_entries (LOG_CHANNEL_ID st) user input msg_proai_error)) /\
  ((exists i, (i < 15)%nat /\ ~ step_ok env prompt i) ->
   let es := emitted st (run env (generate_proai_task user input prompt) st) in
   exists k,
     (k < 15)%nat /\ ~ step_ok env prompt k /\
     (forall i, (i < k)%nat -> step_ok env prompt i) /\
     failure_notices user es = [SendMessage (ChatInt (uid user)) msg_proai_error] /\
     requests es = (proai_prompt prompt <$> seq 0 (S k)) /\
     exists before,
       es = before ++
            [ProviderRequest (proai_prompt prompt k)] ++
            generate_image_log env (proai_prompt prompt k) ++
            [SendMessage (ChatInt (uid user)) msg_proai_error] ++
            log_entries (LOG_CHANNEL_ID st) user input msg_proai_error).
Proof.
  split.
  - intros n p es Hin Hbad.
    destruct (generate_proai_task_turns env user input prompt n st) as (es' & Hrun & Hshape).
    assert (Hes : es = es') by (subst es; rewrite Hrun; apply emitted_with_effects).
    rewrite Hes in *. clear Hes es Hrun.
    apply flow_shape_seq in Hshape as (m & Hm & Hok & Hcase).
    assert (Hgood : forall i, (i < m)%nat -> p <> proai_prompt prompt i).
    { intros i Hi ->. specialize (Hok i Hi). unfold step_ok in Hok. congruence. }
    destruct Hcase as [(_ & Hr & _) | (Hlt & _ & Hr & Hcase)].
    + exfalso. rewrite Hr in Hin. apply list_elem_of_fmap in Hin as (i & -> & Hi).
      apply elem_of_seq in Hi. apply (Hgood i); [lia | done].
    + assert (Hp : p = proai_prompt prompt m).
      { rewrite Hr in Hin. apply list_elem_of_fmap in Hin as (i & -> & Hi).
        apply elem_of_seq in Hi. destruct (decide (i = m)) as [->|]; [done|].
        exfalso. apply (Hgood i); [lia | done]. }
      destruct Hcase as [[Hok' _] | (_ & Hf & before & after & Hes & Hafter)].
      { unfold step_ok in Hok'. congruence. }
      split; [done|]. split; [rewrite Hr; apply requests_NoDup|]. split.
      * rewrite Hr, seq_S, fmap_app, Hp. apply last_snoc.
      * exists before, after. by rewrite Hp.
  - intros (i & Hi & Hbad) es.
    destruct (generate_proai_task_run env user input prompt st)
      as (n & es' & Hrun & Hn & Hok & Hp & Hr & Hf & Hlast).
    assert (Hes : es = es') by (subst es; rewrite Hrun; apply emitted_with_effects).
    assert (Hlt : (n < 15)%nat).
    { destruct (decide (n < 15)%nat) as [|Hge]; [done|].
      exfalso. apply Hbad. apply Hok. lia. }
    destruct (Hlast Hlt) as (Hn_bad & before & Hbefore).
    exists n. rewrite Hes. split; [done|]. split; [done|]. split; [done|].
    split; [|split].
    + rewrite Hf. by rewrite decide_True.
    + rewrite Hr. by replace (S n `min` 15)%nat with (S n) by lia.
    + by exists before.
Qed.

(** The provider fails at the third image: two photos, then one notice;
    the same already after the seventh turn, where the notice went out. *)
Lemma proai_stops_at_first_failure_witness :
  (exists k,
     (k < 15)%nat /\
     failure_notices ada
       (emitted logged_state
          (run failing_env (generate_proai_task ada "/proai a cat" "a cat") logged_state))
     = [SendMessage (ChatInt 7) msg_proai_error] /\
     requests
       (emitted logged_state
          (run failing_env (generate_proai_task ada "/proai a cat" "a cat") logged_state))
     = (proai_prompt "a cat" <$> seq 0 (S k))) /\
  failure_notices ada
    (emitted logged_state
       (resume_n failing_env 7 (generate_proai_task ada "/proai a cat" "a cat") logged_state))
  = [SendMessage (ChatInt 7) msg_proai_error].
Proof.
  destruct (proai_stops_at_first_failure failing_env ada "/proai a cat" "a cat" logged_state)
    as [Hturns Hrun].
  split.
  - assert (H : exists i, (i < 15)%nat /\ ~ step_ok failing_env "a cat" i).
    { exists 2%nat. split; [lia|]. unfold step_ok. vm_compute. discriminate. }
    destruct (Hrun H) as (k & Hk & _ & _ & Hf & Hr & _).
    exists k. split; [exact Hk|]. split; [exact Hf | exact Hr].
  - apply (Hturns 7%nat (proai_prompt "a cat" 2)).
    + vm_compute. right. right. left.
    + vm_compute. reflexivity.
Defined.

(** C5.  A run of the professional flow, complete or cut after any number
    of turns, has asked the provider at most 15 times; its request number i
    (counted from 1) is the user's prompt followed by
    " (image i improving each time)"; and each request but the last is
    followed by a delay of 5 before the next one.  When every answer is
    usable, the complete run makes exactly 15 requests, each followed by
    its delay of 5. *)
Theorem proai_fifteen_steps (env : Env) (user : User) (input prompt : string) (st : State) :
  (forall n,
     let es := emitted st (resume_n env n (generate_proai_task user input prompt) st) in
     (length (requests es) <= 15)%nat /\
     (forall j p, requests es !! j = Some p ->
        p = prompt +:+ " (image " +:+ pretty (j + 1)%nat +:+ " improving each time)") /\
     exists m,
       (m <= 15)%nat /\
       (pacing es = flat_map (paced_step prompt) (seq 0 m) \/
        pacing es = flat_map (paced_step prompt) (seq 0 m) ++
                    [ProviderRequest (proai_prompt prompt m)])) /\
  ((forall i, (i < 15)%nat -> step_ok env prompt i) ->
   let es := emitted st (run env (generate_proai_task user input prompt) st) in
   length (requests es) = 15%nat /\
   pacing es = flat_map (paced_step prompt) (seq 0 15)).
Proof.
  split.
  - intros n es.
    destruct (generate_proai_task_turns env user input prompt n st) as (es' & Hrun & Hshape).
    assert (Hes : es = es') by (subst es; rewrite Hrun; apply emitted_with_effects).
    rewrite Hes. clear Hes es Hrun.
    apply flow_shape_seq in Hshape as (m & Hm & Hok & Hcase).
    assert (Hreq : exists m', (m' <= 15)%nat /\ requests es' = (proai_prompt prompt <$> seq 0 m')).
    { destruct Hcase as [(_ & Hr & _) | (Hlt & _ & Hr & _)];
        [exists m | exists (S m)]; split; try done; lia. }
    destruct Hreq as (m' & Hm' & Hr). split; [|split].
    + rewrite Hr, length_fmap, length_seq. lia.
    + intros j p. rewrite Hr, list_lookup_fmap.
      destruct (seq 0 m' !! j) as [i|] eqn:E; [|discriminate].
      apply lookup_seq in E as [-> _]. cbn. intros [= <-]. reflexivity.
    + exists m. split; [done|].
      destruct Hcase as [(Hp & _) | (_ & Hp & _)]; [by left | by right].
  - intros Hall es.
    destruct (generate_proai_task_run env user input prompt st)
      as (n & es' & Hrun & Hn & Hok & Hp & Hr & Hf & Hlast).
    assert (Hes : es = es') by (subst es; rewrite Hrun; apply emitted_with_effects).
    rewrite Hes.
    assert (n = 15%nat) as ->.
    { destruct (decide (n < 15)%nat) as [Hlt|]; [|lia].
      destruct (Hlast Hlt) as [Hbad _]. exfalso. apply Hbad, Hall, Hlt. }
    split.
    + by rewrite Hr, length_fmap, length_seq.
    + rewrite Hp. rewrite decide_False by lia. by rewrite app_nil_r.
Qed.

(** With a provider that always answers, 15 requests 5 apart. *)
Lemma proai_fifteen_steps_witness :
  length (requests
    (emitted logged_state
       (run sample_env (generate_proai_task ada "/proai a cat" "a cat") logged_state)))
  = 15%nat.
Proof.
  pose proof (proai_fifteen_steps sample_env ada "/proai a cat" "a cat" logged_state)
    as (_ & Hall).
  apply Hall. intros i Hi. reflexivity.
Defined.

(** ** Authorization and validation *)

Lemma is_owner_false env u : u <> BOT_OWNER_ID env -> is_owner env u = false.
Proof. intros H. unfold is_owner. by apply bool_decide_eq_false. Qed.

Lemma is_owner_true env u : u = BOT_OWNER_ID env -> is_owner env u = true.
Proof. intros H. unfold is_owner. by apply bool_decide_eq_true. Qed.

Lemma generate_not_owner env m st :
  is_owner env (uid (from_user m)) = false -> only_answers env CmdGenerate m msg_no_permission st.
Proof.
  intros H. unfold only_answers. cbn [handler]. unfold generate_command. rewrite H.
  apply exec_reply_log.
Qed.

Lemma setlogchannel_not_owner env m st :
  is_owner env (uid (from_user m)) = false ->
  only_answers env CmdSetlogchannel m msg_no_permission st.
Proof.
  intros H. unfold only_answers. cbn [handler]. unfold setlogchannel_command. rewrite H.
  apply exec_reply_log.
Qed.


Lemma users_not_owner env m st :
  is_owner env (uid (from_user m)) = false -> only_answers env CmdUsers m msg_not_capable st.
Proof.
  intros H. unfold only_answers. cbn [handler]. unfold users_command. rewrite H.
  apply exec_reply_log.
Qed.

Lemma broadcast_not_owner env m st :
  is_owner env (uid (from_user m)) = false ->
  only_answers env CmdBroadcast m msg_not_capable st.
Proof.
  intros H. unfold only_answers. cbn [handler]. unfold broadcast_command. rewrite H.
  apply exec_reply_log.
Qed.


Lemma owner_only_only_answers env c m st :
  owner_only c = true -> uid (from_user m) <> BOT_OWNER_ID env ->
  only_answers env c m (owner_refusal c) st.
Proof.
  intros Hc Hu%(is_owner_false env). destruct c; try discriminate; cbn [owner_refusal].
  - by apply setlogchannel_not_owner.
  - by apply generate_not_owner.
  - by apply users_not_owner.
  - by apply broadcast_not_owner.
Qed.

(** C6.  For a caller other than the owner, in any state, /generate,
    /setlogchannel, /users and /broadcast answer with their refusal and
    mirror it to the log; nothing else happens: no gift code is inserted,
    the log channel stays, no user or group is sent a message, and every
    other part of the state is as before. *)
Theorem owner_only_refused (env : Env) (st : State) (c : Command) (m : Message) :
  owner_only c = true ->
  uid (from_user m) <> BOT_OWNER_ID env ->
  let st' := exec (handler env c m) st in
  st' = with_effects
          (Reply (chat_id (chat m)) (owner_refusal c) ::
           log_entries (LOG_CHANNEL_ID st) (from_user m) (text m) (owner_refusal c)) st /\
  gift_codes_collection st' = gift_codes_collection st /\
  LOG_CHANNEL_ID st' = LOG_CHANNEL_ID st /\
  (forall to body, SendMessage (ChatInt to) body ∉ emitted st st').
Proof.
  intros Hc Hu st'. subst st'.
  pose proof (owner_only_only_answers env c m st Hc Hu) as E. unfold only_answers in E.
  rewrite E. split; [reflexivity|]. split; [reflexivity|]. split; [reflexivity|].
  intros to body. rewrite emitted_with_effects.
  intros [Hin | Hin]%elem_of_cons; [discriminate|].
  apply log_entries_inv in Hin as [ch Hch]. discriminate.
Qed.

(** Ada is not the owner. *)
Lemma owner_only_refused_witness :
  exec (handler sample_env CmdGenerate (msg_at ada "/generate" 5)) logged_state =
  with_effects (Reply 7 msg_no_permission ::
                log_entries (Some "-100") ada "/generate" msg_no_permission) logged_state /\
  gift_codes_collection
    (exec (handler sample_env CmdBroadcast (msg_at ada "/broadcast hi" 5)) logged_state) = [].
Proof.
  assert (Hne : uid (from_user (msg_at ada "/generate" 5)) <> BOT_OWNER_ID sample_env)
    by (simpl; lia).
  split.
  - exact (proj1 (owner_only_refused sample_env logged_state CmdGenerate
                    (msg_at ada "/generate" 5) eq_refl Hne)).
  - exact (proj1 (proj2 (owner_only_refused sample_env logged_state CmdBroadcast
                    (msg_at ada "/broadcast hi" 5) eq_refl Hne))).
Defined.

(** C7.  With one subscription record per user, /proai starts a background
    task iff the caller has a subscription record with plan "professional"
    and gave a non-empty prompt; the task is then the professional flow on
    that prompt, registered under the caller.  A caller without such a
    record gets the "need to redeem" answer, mirrored to the log, and no
    task is created or registered. *)
Theorem proai_gate (env : Env) (st : State) (m : Message) :
  one_record_per_user st ->
  let u := uid (from_user m) in
  let st' := exec (handler env CmdProai m) st in
  (tasks st' <> tasks st <-> has_professional st u /\ Py.rest (text m) <> "") /\
  (has_professional st u -> Py.rest (text m) <> "" ->
     tasks st' = tasks st ++
       [new_task (generate_proai_task (from_user m) (text m) (Py.rest (text m)))] /\
     user_tasks st' = <[u := length (tasks st)]> (user_tasks st) /\
     emitted st st' = [Reply (chat_id (chat m)) msg_generating_many]) /\
  (~ has_professional st u ->
     st' = with_effects
             (Reply (chat_id (chat m)) msg_need_redeem ::
              log_entries (LOG_CHANNEL_ID st) (from_user m) (text m) msg_need_redeem) st).
Proof.
  intros Hone u st'. subst st'. cbn [handler]. rewrite proai_command_exec. fold u. cbv zeta.
  pose proof (find_one_professional u _ Hone) as Hfind. fold (has_professional st u) in Hfind.
  destruct (is_professional _) eqn:Ep.
  - assert (Hpro : has_professional st u) by (by apply Hfind).
    destruct (Py.nonempty (Py.rest (text m))) eqn:En.
    + apply nonempty_true in En. split; [|split].
      * split; [done|]. intros _. cbn [tasks set_user_tasks set_tasks].
        intros E. apply (f_equal length) in E. rewrite length_app in E. simpl in E. lia.
      * intros _ _. split; [reflexivity|]. split; [reflexivity|].
        apply emitted_outbox. reflexivity.
      * intros Hno. contradiction.
    + apply nonempty_false in En. split; [|split].
      * split; [intros H; by destruct H | intros [_ H]; contradiction].
      * intros _ H. contradiction.
      * intros Hno. contradiction.
  - assert (Hno : ~ has_professional st u).
    { intros H. apply Hfind in H. discriminate. }
    split; [|split].
    + split; [intros H; by destruct H | intros [H _]; contradiction].
    + intros H. contradiction.
    + done.
Qed.

(** The scenario of the specification: no subscription, "/proai a cat". *)
Lemma proai_gate_witness :
  exec (handler sample_env CmdProai (msg_at ada "/proai a cat" 5)) logged_state =
  with_effects (Reply 7 msg_need_redeem ::
                log_entries (Some "-100") ada "/proai a cat" msg_need_redeem) logged_state.
Proof.
  assert (Hone : one_record_per_user logged_state) by apply NoDup_nil_2.
  destruct (proai_gate sample_env logged_state (msg_at ada "/proai a cat" 5) Hone)
    as (_ & _ & Hno).
  apply Hno. intros (d & Hd & _). by apply elem_of_nil in Hd.
Defined.

(** ** Refusals *)






(** A /modify that replies to a photo raises at [await bot.get_file_url(..)],
    whatever its prompt and whatever image is stored. *)
Lemma modify_raises env m st f :
  replied_photo m = Some f ->
  exec (handler env CmdModify m) st = with_effects [Raise TypeError] st.
Proof.
  intros H. cbn [handler]. unfold modify_command.
  rewrite exec_bind. cbn [fst snd gets]. by rewrite H.
Qed.






(** ** Broadcast *)

Lemma try_send_exec env to body st :
  exec (try_send env to body) st = with_effects [delivery_effect env body to] st.
Proof. unfold try_send, delivery_effect. by destruct (deliver env to body). Qed.

(** A loop whose body only issues effects issues them in the order of the
    list. *)
Lemma for_each_effects {A} (l : list A) (body : A -> M unit) (g : A -> Effect) :
  (forall x st, exec (body x) st = with_effects [g x] st) ->
  forall st, exec (for_each l body) st = with_effects (g <$> l) st.
Proof.
  intros Hb. induction l as [|x l IH]; intros st.
  - cbn [for_each fmap list_fmap]. symmetry. apply with_effects_nil.
  - cbn [for_each]. rewrite exec_bind.
    replace (snd (body x st)) with (exec (body x) st) by reflexivity.
    rewrite Hb, IH, with_effects_app. reflexivity.
Qed.

Lemma broadcast_command_exec env m st :
  is_owner env (uid (from_user m)) = true ->
  Py.nonempty (Py.rest (text m)) = true ->
  exec (broadcast_command env m) st =
  with_effects
    (((fun d => delivery_effect env (Py.rest (text m)) (ud_user_id d)) <$> users_collection st) ++
     ((fun g => delivery_effect env (Py.rest (text m)) (gd_group_id g)) <$> groups_collection st) ++
     Reply (chat_id (chat m)) msg_broadcast_sent ::
     log_entries (LOG_CHANNEL_ID st) (from_user m) (text m) msg_broadcast_sent) st.
Proof.
  intros Ho Hb. unfold broadcast_command. rewrite Ho, Hb.
  rewrite exec_bind. cbn [fst snd gets].
  rewrite exec_bind.
  replace (snd (for_each (users_collection st)
                  (fun user_data => try_send env (ud_user_id user_data) (Py.rest (text m))) st))
    with (exec (for_each (users_collection st)
                  (fun user_data => try_send env (ud_user_id user_data) (Py.rest (text m)))) st)
    by reflexivity.
  rewrite (for_each_effects _ _ (fun d => delivery_effect env (Py.rest (text m)) (ud_user_id d)))
    by (intros; apply try_send_exec).
  rewrite exec_bind. cbn [fst snd gets].
  rewrite exec_bind.
  match goal with |- context [snd (for_each ?l ?b ?s)] =>
    replace (snd (for_each l b s)) with (exec (for_each l b) s) by reflexivity end.
  rewrite (for_each_effects _ _ (fun g => delivery_effect env (Py.rest (text m)) (gd_group_id g)))
    by (intros; apply try_send_exec).
  rewrite exec_reply_log, !with_effects_app. reflexivity.
Qed.

Lemma attempted_delivery env body to es :
  delivery_effect env body to ∈ es -> attempted env body to es.
Proof. unfold attempted, delivery_effect. by destruct (deliver env to body). Qed.

(** C9.  When the owner broadcasts a message, every user and every group
    of the store is tried, whatever happens to the others: a recipient the
    transport accepts is sent the message, a recipient for which it raises
    gets an error line in the log.  After the two loops the owner is
    answered "Broadcast message sent.", whatever the failures, and the
    store is left as it was. *)
Theorem broadcast_tolerates_failures (env : Env) (st : State) (m : Message) :
  uid (from_user m) = BOT_OWNER_ID env ->
  Py.rest (text m) <> "" ->
  let body := Py.rest (text m) in
  let st' := exec (handler env CmdBroadcast m) st in
  (forall d, d ∈ users_collection st -> attempted env body (ud_user_id d) (emitted st st')) /\
  (forall g, g ∈ groups_collection st -> attempted env body (gd_group_id g) (emitted st st')) /\
  (exists attempts,
     length attempts = (length (users_collection st) + length (groups_collection st))%nat /\
     emitted st st' =
       attempts ++ Reply (chat_id (chat m)) msg_broadcast_sent ::
       log_entries (LOG_CHANNEL_ID st) (from_user m) (text m) msg_broadcast_sent) /\
  st' = with_effects (emitted st st') st.
Proof.
  intros Ho%(is_owner_true env) Hb%nonempty_true body st'. subst st'. cbn [handler].
  rewrite (broadcast_command_exec env m st Ho Hb). fold body.
  rewrite emitted_with_effects.
  split; [|split; [|split]].
  - intros d Hd. apply attempted_delivery. apply elem_of_app. left.
    apply list_elem_of_fmap. by exists d.
  - intros g Hg. apply attempted_delivery. apply elem_of_app. right.
    apply elem_of_app. left. apply list_elem_of_fmap. by exists g.
  - eexists (_ ++ _). split; [|by rewrite <- app_assoc].
    by rewrite length_app, !length_fmap.
  - reflexivity.
Qed.

(** The scenario of the specification: the user fails, the group gets it. *)
Lemma broadcast_tolerates_failures_witness :
  attempted sample_env "hello" (-5)
    (emitted broadcast_state
       (exec (handler sample_env CmdBroadcast (msg_at owner "/broadcast hello" 9))
          broadcast_state)) /\
  attempted sample_env "hello" 8
    (emitted broadcast_state
       (exec (handler sample_env CmdBroadcast (msg_at owner "/broadcast hello" 9))
          broadcast_state)).
Proof.
  assert (Hne : Py.rest (text (msg_at owner "/broadcast hello" 9)) <> "") by discriminate.
  destruct (broadcast_tolerates_failures sample_env broadcast_state
              (msg_at owner "/broadcast hello" 9) eq_refl Hne) as (Hu & Hg & _).
  split.
  - apply (Hg {| gd_group_id := -5; gd_title := "club" |}). apply list_elem_of_here.
  - apply (Hu {| ud_user_id := 8; ud_username := None; ud_full_name := "Bob B" |}).
    apply list_elem_of_here.
Defined.

(** ** Ping *)

Lemma ping_time_zero m : ping_time m = 0.
Proof. unfold ping_time. lia. Qed.

(** C10.  /ping always reports 0 ms: the start and the end of the measure
    are both the date of the incoming message, so that the second answer is
    "Pong! 0 ms" whatever the message and the state. *)
Theorem ping_reports_zero (st : State) (m : Message) :
  ping_time m = 0 /\
  exec (ping_command m) st =
  with_effects (Reply (chat_id (chat m)) "Pong!" ::
                Reply (chat_id (chat m)) "Pong! 0 ms" ::
                log_entries (LOG_CHANNEL_ID st) (from_user m) (text m) "Pong! 0 ms") st.
Proof.
  split; [apply ping_time_zero|].
  unfold ping_command. rewrite exec_bind. cbn [fst snd].
  rewrite ping_time_zero.
  change (snd (reply m "Pong!" st)) with (with_effects [Reply (chat_id (chat m)) "Pong!"] st).
  change ("Pong! " +:+ pretty 0 +:+ " ms") with "Pong! 0 ms".
  rewrite exec_reply_log, with_effects_app. reflexivity.
Qed.

(** ** Invariants of the store and of the registry *)

(** One subscription record per user: kept by every step. *)
Lemma one_record_per_user_step env st e :
  one_record_per_user st -> one_record_per_user (step env st e).
Proof.
  unfold one_record_per_user. intros H. destruct e as [c m|m|h]; cbn [step].
  - destruct (decide (c = CmdRedeem)) as [->|Hc].
    + cbn [handler]. rewrite redeem_command_exec.
      destruct (Py.args (text m)) as [|code [|]]; try done. cbv zeta.
      destruct (Mongo.find_one_and_delete _ _) as [[g|] r]; cbn; [|done].
      by apply upgrade_one_record.
    + by rewrite (keeps_exec subscriptions_collection _ st (handler_keeps_subscriptions env c m Hc)).
  - unfold new_chat_members_handler.
    rewrite (keeps_exec subscriptions_collection); [done|]. keeps_handler.
  - pose proof (tick_frame env h st) as (_ & _ & -> & _). done.
Qed.

Lemma one_record_per_user_steps env es st :
  one_record_per_user st -> one_record_per_user (steps env st es).
Proof.
  revert st. induction es as [|e es IH]; intros st H; [done|].
  cbn [steps foldl]. apply IH. by apply one_record_per_user_step.
Qed.

(** From an empty store on, no user ever has two subscription records. *)
Lemma one_record_per_user_reachable env ch es :
  one_record_per_user (steps env (init_state ch) es).
Proof. apply one_record_per_user_steps. apply NoDup_nil_2. Qed.

(** A gift code is held once: kept by every step, none of which adds a
    document to the collection. *)
Lemma unique_codes_step env st e : unique_codes st -> unique_codes (step env st e).
Proof.
  unfold unique_codes. intros H. destruct e as [c m|m|h]; cbn [step].
  - destruct (decide (c = CmdRedeem)) as [->|Hc].
    + cbn [handler]. rewrite redeem_command_exec.
      destruct (Py.args (text m)) as [|code [|]]; try done. cbv zeta.
      destruct (decide (code ∈ codes st)) as [Hin|Hno].
      * destruct (take_present _ _ Hin) as (d & pre & post & Hc & Hd & Hpre & ->).
        cbn. unfold codes in *. cbn. rewrite Hc, fmap_app, fmap_cons in H.
        rewrite fmap_app. apply NoDup_app in H as (H1 & H2 & H3).
        apply NoDup_cons in H3 as [H3 H4]. apply NoDup_app. repeat split; try done.
        intros x Hx Hx'. apply (H2 x Hx). by apply list_elem_of_further.
      * rewrite (take_absent _ _ Hno). cbn. unfold codes. cbn. done.
    + destruct (decide (c = CmdGenerate)) as [->|Hg].
      * cbn [handler]. unfold generate_command. destruct (is_owner env _).
        -- done.
        -- rewrite exec_reply_log. done.
      * unfold codes.
        by rewrite (keeps_exec gift_codes_collection _ st
                      (handler_keeps_gift_codes env c m Hc Hg)).
  - unfold new_chat_members_handler, codes.
    rewrite (keeps_exec gift_codes_collection); [done|]. keeps_handler.
  - unfold codes. pose proof (tick_frame env h st) as (_ & _ & _ & ->). done.
Qed.

(** Every registered handle points to a task object: kept by every step. *)
Lemma handles_valid_step env st e :
  handles_valid st -> handles_valid (step env st e).
Proof.
  unfold handles_valid. intros H. destruct e as [c m|m|h]; cbn [step].
  - destruct (starts_task c st m) eqn:Es.
    + rewrite (start_registers env c m st Es). cbn. intros u h.
      rewrite length_app. cbn. intros [[_ <-] | [_ Hu]]%lookup_insert_Some; [lia|].
      specialize (H u h Hu). lia.
    + assert (Hsame : user_tasks (exec (handler env c m) st) = user_tasks st /\
                      length (tasks (exec (handler env c m) st)) = length (tasks st)).
      { destruct (decide (c = CmdAi)) as [->|Ha].
        - cbn [handler]. rewrite ai_command_exec. cbv zeta. cbn [starts_task] in Es.
          destruct (too_soon _ _); [done|]. cbn [negb andb] in Es. by rewrite Es.
        - destruct (decide (c = CmdProai)) as [->|Hp].
          + cbn [handler]. rewrite proai_command_exec. cbv zeta. cbn [starts_task] in Es.
            destruct (is_professional _); [|done]. cbn [andb] in Es. by rewrite Es.
          + split.
            * apply (keeps_exec user_tasks). by apply handler_keeps_user_tasks.
            * apply (keeps_exec (fun s => length (tasks s))).
              by apply handler_keeps_heap_size. }
      destruct Hsame as [-> ->]. exact H.
  - unfold new_chat_members_handler.
    rewrite (keeps_exec user_tasks) by keeps_handler.
    rewrite (keeps_exec (fun s => length (tasks s))) by keeps_handler. exact H.
  - pose proof (tick_frame env h st) as (-> & -> & _). exact H.
Qed.

Lemma handles_valid_reachable env ch es : handles_valid (steps env (init_state ch) es).
Proof.
  assert (G : forall st, handles_valid st -> handles_valid (steps env st es)).
  { induction es as [|e es IH]; intros st H; [done|].
    cbn [steps foldl]. apply IH. by apply handles_valid_step. }
  apply G. intros u h Hu. cbn in Hu. by rewrite lookup_empty in Hu.
Qed.

(** ** The argument of a command *)

Lemma split_not_nil s : Py.split s <> [].
Proof.
  destruct s as [|c r]; [done|]. cbn [Py.split].
  destruct (Ascii.eqb c Py.space); [done|]. by destruct (Py.split r).
Qed.

Lemma join_cons w ws : ws <> [] -> Py.join (w :: ws) = w +:+ " " +:+ Py.join ws.
Proof. by destruct ws. Qed.

(** Joining the pieces with blanks gives the text back. *)
Lemma join_split s : Py.join (Py.split s) = s.
Proof.
  induction s as [|c r IH]; [done|]. cbn [Py.split].
  destruct (Ascii.eqb c Py.space) eqn:E.
  - apply Ascii.eqb_eq in E as ->. rewrite join_cons by apply split_not_nil.
    by rewrite IH.
  - pose proof (split_not_nil r) as Hne.
    destruct (Py.split r) as [|w ws]; [done|].
    destruct ws as [|w' ws].
    + cbn [Py.join] in *. by rewrite IH.
    + rewrite join_cons by done. rewrite join_cons in IH by done.
      change (String c w +:+ " " +:+ Py.join (w' :: ws))
        with (String c (w +:+ " " +:+ Py.join (w' :: ws))). by rewrite IH.
Qed.

Lemma split_no_blank s : no_blank s = true -> Py.split s = [s].
Proof.
  induction s as [|c r IH]; [done|]. cbn [no_blank Py.split].
  intros [Hc Hr]%andb_true_iff. apply negb_true_iff in Hc. rewrite Hc, (IH Hr). done.
Qed.

Lemma split_one_piece s w : Py.split s = [w] -> no_blank s = true /\ w = s.
Proof.
  revert w. induction s as [|c r IH]; intros w; cbn [Py.split no_blank].
  - by intros [= <-].
  - destruct (Ascii.eqb c Py.space) eqn:E.
    + intros H. injection H as _ H. by apply split_not_nil in H.
    + destruct (Py.split r) as [|w' ws] eqn:Er; [by apply split_not_nil in Er|].
      intros [= <- ->]. destruct (IH w' eq_refl) as [Hr ->]. by rewrite Hr.
Qed.

Lemma split_command cmd arg :
  no_blank cmd = true -> Py.split (cmd +:+ " " +:+ arg) = cmd :: Py.split arg.
Proof.
  induction cmd as [|c r IH]; [done|]. cbn [no_blank].
  intros [Hc Hr]%andb_true_iff. apply negb_true_iff in Hc.
  change (String c r +:+ " " +:+ arg) with (String c (r +:+ " " +:+ arg)).
  cbn [Py.split]. by rewrite Hc, (IH Hr).
Qed.

(** X1.  What a handler takes as its argument with
    [' '.join(message.text.split(' ')[1:])] is exactly the text after the
    first blank, inner and trailing blanks included; a text without a blank
    has the empty argument.  The list [message.text.split(' ')[1:]] has
    exactly one element iff that text contains no further blank, and the
    element is then the text itself. *)
Theorem argument_after_first_blank (cmd arg : string) :
  no_blank cmd = true ->
  Py.rest (cmd +:+ " " +:+ arg) = arg /\
  Py.rest cmd = "" /\ Py.args cmd = [] /\
  (forall w, Py.args (cmd +:+ " " +:+ arg) = [w] <-> no_blank arg = true /\ w = arg).
Proof.
  intros Hc. unfold Py.rest, Py.args. rewrite (split_command cmd arg Hc), (split_no_blank cmd Hc).
  cbn [tail]. split; [apply join_split|]. split; [done|]. split; [done|].
  intros w. split.
  - apply split_one_piece.
  - intros [Hb ->]. by apply split_no_blank.
Qed.

Lemma argument_after_first_blank_witness :
  Py.rest "/ai a  cat " = "a  cat " /\ Py.args "/redeem ABC123" = ["ABC123"].
Proof.
  destruct (argument_after_first_blank "/ai" "a  cat " eq_refl) as (H1 & _).
  destruct (argument_after_first_blank "/redeem" "ABC123" eq_refl) as (_ & _ & _ & H2).
  split; [exact H1|]. apply H2. by split.
Defined.

(** ** The log channel *)

Lemma setlogchannel_owner_exec env m st arg :
  is_owner env (uid (from_user m)) = true -> Py.args (text m) = [arg] ->
  exec (handler env CmdSetlogchannel m) st =
  with_effects
    (Reply (chat_id (chat m)) ("Log channel set to " +:+ arg) ::
     log_entries (Some arg) (from_user m) (text m) ("Log channel set to " +:+ arg))
    (set_LOG_CHANNEL_ID (Some arg) st).
Proof.
  intros Ho Ha. cbn [handler]. unfold setlogchannel_command. rewrite Ho, Ha.
  rewrite exec_bind. cbn [fst snd modify]. by rewrite exec_reply_log.
Qed.

(** X2.  When the owner sends /setlogchannel with exactly one argument,
    the argument becomes the log channel, and the confirmation is mirrored
    to that new channel: nothing goes to the channel that was configured
    before.  With the empty argument (the text "/setlogchannel " and
    nothing after the blank) logging is switched off: the confirmation is
    not mirrored and [log_message] sends nothing from then on. *)
Theorem setlogchannel_takes_effect_at_once (env : Env) (st : State) (m : Message)
    (arg : string) :
  uid (from_user m) = BOT_OWNER_ID env ->
  Py.args (text m) = [arg] ->
  let st' := exec (handler env CmdSetlogchannel m) st in
  let confirmation := "Log channel set to " +:+ arg in
  LOG_CHANNEL_ID st' = Some arg /\
  st' = with_effects (emitted st st') (set_LOG_CHANNEL_ID (Some arg) st) /\
  (arg <> "" ->
     emitted st st' =
       [Reply (chat_id (chat m)) confirmation;
        SendMessage (ChatStr arg) (log_text (from_user m) (text m) confirmation)]) /\
  (arg = "" ->
     emitted st st' = [Reply (chat_id (chat m)) confirmation] /\
     forall user i r, exec (log_message user i r) st' = st') /\
  (forall old body, old <> arg -> SendMessage (ChatStr old) body ∉ emitted st st').
Proof.
  intros Ho%(is_owner_true env) Ha st' confirmation. subst st'.
  rewrite (setlogchannel_owner_exec env m st arg Ho Ha). fold confirmation.
  rewrite emitted_outbox with (es := Reply (chat_id (chat m)) confirmation ::
    log_entries (Some arg) (from_user m) (text m) confirmation) by reflexivity.
  split; [reflexivity|]. split; [reflexivity|]. split; [|split].
  - intros Hne. by rewrite (log_entries_configured arg _ _ _ Hne).
  - intros ->. split; [reflexivity|]. intros user i r.
    rewrite exec_log_message. cbn [LOG_CHANNEL_ID with_effects set_outbox set_LOG_CHANNEL_ID].
    cbn [log_entries Py.nonempty]. apply with_effects_nil.
  - intros old body Hne [Hin | Hin]%elem_of_cons; [discriminate|].
    unfold log_entries in Hin.
    destruct (Py.nonempty arg); [|by apply elem_of_nil in Hin].
    apply list_elem_of_singleton in Hin. congruence.
Qed.

Lemma setlogchannel_takes_effect_at_once_witness :
  LOG_CHANNEL_ID
    (exec (handler sample_env CmdSetlogchannel (msg_at owner "/setlogchannel -200" 3))
       logged_state) = Some "-200" /\
  emitted logged_state
    (exec (handler sample_env CmdSetlogchannel (msg_at owner "/setlogchannel " 3))
       logged_state) = [Reply 1 "Log channel set to "].
Proof.
  split.
  - exact (proj1 (setlogchannel_takes_effect_at_once sample_env logged_state
                    (msg_at owner "/setlogchannel -200" 3) "-200" eq_refl eq_refl)).
  - destruct (setlogchannel_takes_effect_at_once sample_env logged_state
                (msg_at owner "/setlogchannel " 3) "" eq_refl eq_refl)
      as (_ & _ & _ & Hoff & _).
    exact (proj1 (Hoff eq_refl)).
Defined.

(** ** Who writes what *)

Ltac unfold_handlers :=
  unfold start_command, help_command, ai_command, proai_command, modify_command,
    ask_command, dev_command, setlogchannel_command, ping_command, generate_command,
    redeem_command, users_command, broadcast_command, cancelai_command,
    cancelproai_command, cancel_with, voice_command, call_generate_image, try_send,
    create_task, new_chat_members_handler.

Lemma handler_keeps_log_channel env c m :
  c <> CmdSetlogchannel -> keeps LOG_CHANNEL_ID (handler env c m).
Proof.
  intros Hc. destruct c; try done; cbn [handler]; unfold_handlers; keeps_handler.
Qed.

Lemma handler_keeps_user_images env c m :
  c <> CmdModify -> keeps user_images (handler env c m).
Proof.
  intros Hc. destruct c; try done; cbn [handler]; unfold_handlers; keeps_handler.
Qed.

Lemma handler_keeps_users env c m :
  c <> CmdStart -> keeps users_collection (handler env c m).
Proof.
  intros Hc. destruct c; try done; cbn [handler]; unfold_handlers; keeps_handler.
Qed.

Lemma handler_keeps_groups env c m : keeps groups_collection (handler env c m).
Proof. destruct c; cbn [handler]; unfold_handlers; keeps_handler. Qed.

Lemma joined_keeps {X} (f : State -> X) m :
  (forall v st, f (set_groups_collection v st) = f st) ->
  (forall v st, f (set_outbox v st) = f st) ->
  keeps f (new_chat_members_handler m).
Proof.
  intros Hg Ho st. unfold new_chat_members_handler.
  destruct (_ || _); [|done]. unfold bind, emit, modify. cbn [snd]. by rewrite Ho, Hg.
Qed.

Lemma tick_rest_frame env h st :
  let st1 := tick env h st in
  last_ai_use st1 = last_ai_use st /\ LOG_CHANNEL_ID st1 = LOG_CHANNEL_ID st /\
  users_collection st1 = users_collection st /\
  groups_collection st1 = groups_collection st.
Proof.
  unfold tick. destruct (tasks st !! h) as [t|]; [|done].
  destruct (t_done t); [done|]. destruct (t_must_cancel t); [done|].
  pose proof (resume_frame env (t_coro t) st) as H. cbv zeta in H.
  destruct (resume env (t_coro t) st) as [[k|] st1]; cbn [snd] in H;
    by destruct H as (_ & _ & Hl & Hc & Hu & Hg & _).
Qed.

Lemma setlogchannel_unchanged env m st :
  is_owner env (uid (from_user m)) && bool_decide (length (Py.args (text m)) = 1%nat) = false ->
  LOG_CHANNEL_ID (exec (handler env CmdSetlogchannel m) st) = LOG_CHANNEL_ID st.
Proof.
  intros H. cbn [handler]. unfold setlogchannel_command.
  destruct (is_owner env _); cbn [andb] in H; [|by rewrite exec_reply_log].
  apply bool_decide_eq_false in H.
  destruct (Py.args (text m)) as [|a [|b l]]; try by rewrite exec_reply_log.
  by destruct H.
Qed.

Lemma generate_unchanged env m st :
  gift_codes_collection (exec (handler env CmdGenerate m) st) = gift_codes_collection st.
Proof.
  cbn [handler]. unfold generate_command.
  destruct (is_owner env _); [done|]. by rewrite exec_reply_log.
Qed.

(** X3.  Each part of the in-memory state has its writers, and no other
    event of the loop touches it: the log channel is changed only by the
    owner's /setlogchannel with exactly one argument; the rate-limit table
    only by /ai; the task registry and the size of the task heap only by
    /ai and /proai; the stored images only by /modify and by the turns of
    the background tasks. *)
Theorem memory_writers (env : Env) (st : State) (e : Event) :
  (changes_log_channel env e = false ->
     LOG_CHANNEL_ID (step env st e) = LOG_CHANNEL_ID st) /\
  (is_command CmdAi e = false -> last_ai_use (step env st e) = last_ai_use st) /\
  (is_command CmdAi e = false -> is_command CmdProai e = false ->
     user_tasks (step env st e) = user_tasks st /\
     length (tasks (step env st e)) = length (tasks st)) /\
  (is_command CmdModify e = false -> is_turn e = false ->
     user_images (step env st e) = user_images st).
Proof.
  destruct e as [c m|m|h]; cbn [step changes_log_channel is_command is_turn].
  - split; [|split; [|split]].
    + destruct (decide (c = CmdSetlogchannel)) as [->|Hc].
      * apply setlogchannel_unchanged.
      * intros _. apply (keeps_exec LOG_CHANNEL_ID). by apply handler_keeps_log_channel.
    + intros Hc%bool_decide_eq_false. apply (keeps_exec last_ai_use).
      by apply handler_keeps_last_ai_use.
    + intros Ha%bool_decide_eq_false Hp%bool_decide_eq_false. split.
      * apply (keeps_exec user_tasks). by apply handler_keeps_user_tasks.
      * apply (keeps_exec (fun s => length (tasks s))). by apply handler_keeps_heap_size.
    + intros Hc%bool_decide_eq_false _. apply (keeps_exec user_images).
      by apply handler_keeps_user_images.
  - split; [|split; [|split]]; intros.
    + by apply (keeps_exec LOG_CHANNEL_ID), joined_keeps.
    + by apply (keeps_exec last_ai_use), joined_keeps.
    + split.
      * by apply (keeps_exec user_tasks), joined_keeps.
      * by apply (keeps_exec (fun s => length (tasks s))), joined_keeps.
    + by apply (keeps_exec user_images), joined_keeps.
  - pose proof (tick_frame env h st) as (Hl & Hu & _).
    pose proof (tick_rest_frame env h st) as (Ha & Hc & _).
    repeat split; try done.
Qed.

(** A turn of a task, an /ask and the owner's malformed /setlogchannel
    leave the log channel alone. *)
Lemma memory_writers_witness :
  LOG_CHANNEL_ID (step sample_env after_first_ai (Turn 0)) = Some "-100" /\
  LOG_CHANNEL_ID
    (step sample_env logged_state
       (Incoming CmdSetlogchannel (msg_at owner "/setlogchannel a b" 4))) = Some "-100" /\
  last_ai_use
    (step sample_env after_first_ai (Incoming CmdAsk (msg_at ada "/ask why" 101)))
  = last_ai_use after_first_ai.
Proof.
  split; [|split].
  - exact (proj1 (memory_writers sample_env after_first_ai (Turn 0)) eq_refl).
  - exact (proj1 (memory_writers sample_env logged_state
             (Incoming CmdSetlogchannel (msg_at owner "/setlogchannel a b" 4))) eq_refl).
  - exact (proj1 (proj2 (memory_writers sample_env after_first_ai
             (Incoming CmdAsk (msg_at ada "/ask why" 101)))) eq_refl).
Defined.

(** X4.  Each collection of the store has its writers: users are written
    only by /start, groups only when the bot is added to a chat,
    subscriptions and gift codes only by /redeem.  Every other event, the
    owner's /generate and the turns of the background tasks included,
    leaves the collection as it is. *)
Theorem store_writers (env : Env) (st : State) (e : Event) :
  (is_command CmdStart e = false -> users_collection (step env st e) = users_collection st) /\
  (is_join e = false -> groups_collection (step env st e) = groups_collection st) /\
  (is_command CmdRedeem e = false ->
     subscriptions_collection (step env st e) = subscriptions_collection st) /\
  (is_command CmdRedeem e = false ->
     gift_codes_collection (step env st e) = gift_codes_collection st).
Proof.
  destruct e as [c m|m|h]; cbn [step is_command is_join].
  - split; [|split; [|split]].
    + intros Hc%bool_decide_eq_false. apply (keeps_exec users_collection).
      by apply handler_keeps_users.
    + intros _. apply (keeps_exec groups_collection), handler_keeps_groups.
    + intros Hc%bool_decide_eq_false. apply (keeps_exec subscriptions_collection).
      by apply handler_keeps_subscriptions.
    + intros Hc%bool_decide_eq_false.
      destruct (decide (c = CmdGenerate)) as [->|Hne].
      * by apply generate_unchanged.
      * apply (keeps_exec gift_codes_collection). by apply handler_keeps_gift_codes.
  - split; [|split; [|split]]; try done; intros.
    + by apply (keeps_exec users_collection), joined_keeps.
    + by apply (keeps_exec subscriptions_collection), joined_keeps.
    + by apply (keeps_exec gift_codes_collection), joined_keeps.
  - pose proof (tick_frame env h st) as (_ & _ & Hs & Hg).
    pose proof (tick_rest_frame env h st) as (_ & _ & Hu & Hgr).
    repeat split; done.
Qed.

(** A broadcast and a /generate by the owner write nothing. *)
Lemma store_writers_witness :
  users_collection
    (step sample_env broadcast_state
       (Incoming CmdBroadcast (msg_at owner "/broadcast hello" 9)))
  = users_collection broadcast_state /\
  gift_codes_collection
    (step sample_env one_code_state (Incoming CmdGenerate (msg_at owner "/generate" 9)))
  = gift_codes_collection one_code_state.
Proof.
  split.
  - exact (proj1 (store_writers sample_env broadcast_state
             (Incoming CmdBroadcast (msg_at owner "/broadcast hello" 9))) eq_refl).
  - exact (proj2 (proj2 (proj2 (store_writers sample_env one_code_state
             (Incoming CmdGenerate (msg_at owner "/generate" 9))))) eq_refl).
Defined.

(** ** Upserts *)

Section Upsert.

Context {D : Type} (key : D -> Z) (k : Z) (upd : D -> D) (fresh : D).
Hypothesis upd_key : forall d, key (upd d) = key d.
Hypothesis fresh_key : key fresh = k.

Let p (d : D) : bool := bool_decide (key d = k).

Lemma upsert_keys c :
  key <$> Mongo.update_one_upsert p upd fresh c =
  if bool_decide (k ∈ (key <$> c)) then key <$> c else (key <$> c) ++ [k].
Proof.
  induction c as [|d c IH].
  - cbn. rewrite fresh_key. rewrite bool_decide_eq_false_2; [done|]. by intros ?%elem_of_nil.
  - cbn [Mongo.update_one_upsert]. rewrite (fmap_cons key d c).
    destruct (p d) eqn:E; unfold p in E.
    + apply bool_decide_eq_true in E.
      rewrite fmap_cons, upd_key. rewrite bool_decide_eq_true_2; [done|].
      rewrite E. apply list_elem_of_here.
    + apply bool_decide_eq_false in E. rewrite fmap_cons, IH. destruct (bool_decide (k ∈ key <$> c)) eqn:B.
      * apply bool_decide_eq_true in B. rewrite bool_decide_eq_true_2; [done|].
        by apply list_elem_of_further.
      * apply bool_decide_eq_false in B. rewrite bool_decide_eq_false_2; [done|].
        intros [? | ?]%elem_of_cons; congruence.
Qed.

Lemma upsert_find c :
  Mongo.find_one p (Mongo.update_one_upsert p upd fresh c) =
  match Mongo.find_one p c with Some d => Some (upd d) | None => Some fresh end.
Proof.
  unfold Mongo.find_one. induction c as [|d c IH].
  - cbn. unfold p. by rewrite bool_decide_eq_true_2.
  - cbn [Mongo.update_one_upsert find]. destruct (p d) eqn:E.
    + cbn [find]. unfold p in *. apply bool_decide_eq_true in E.
      rewrite bool_decide_eq_true_2; [done|]. by rewrite upd_key.
    + cbn [find]. by rewrite E.
Qed.

Lemma upsert_find_other k' c :
  k' <> k ->
  Mongo.find_one (fun d => bool_decide (key d = k')) (Mongo.update_one_upsert p upd fresh c) =
  Mongo.find_one (fun d => bool_decide (key d = k')) c.
Proof.
  intros Hne. unfold Mongo.find_one. induction c as [|d c IH].
  - cbn. rewrite bool_decide_eq_false_2; [done|]. congruence.
  - cbn [Mongo.update_one_upsert find]. destruct (p d) eqn:E.
    + cbn [find]. unfold p in E. apply bool_decide_eq_true in E.
      rewrite !bool_decide_eq_false_2; [done| |]; rewrite ?upd_key; congruence.
    + cbn [find]. by rewrite IH.
Qed.

Lemma upsert_length c :
  length (Mongo.update_one_upsert p upd fresh c) =
  if bool_decide (k ∈ (key <$> c)) then length c else S (length c).
Proof.
  rewrite <- (length_fmap key), upsert_keys.
  case_bool_decide; rewrite ?length_app, length_fmap; cbn; lia.
Qed.

Lemma upsert_keeps_members x c :
  x ∈ (key <$> c) -> x ∈ (key <$> Mongo.update_one_upsert p upd fresh c).
Proof.
  rewrite upsert_keys. case_bool_decide; [done|]. intros Hx. apply elem_of_app. by left.
Qed.

Lemma upsert_NoDup c :
  NoDup (key <$> c) -> NoDup (key <$> Mongo.update_one_upsert p upd fresh c).
Proof.
  intros Hnd. rewrite upsert_keys. case_bool_decide as B; [done|].
  apply NoDup_app. repeat split; [done| |apply NoDup_singleton].
  intros x Hx ->%list_elem_of_singleton. contradiction.
Qed.

(** Done twice, an upsert whose update does not depend on what it finds
    changes nothing the second time. *)
Lemma upsert_twice c :
  (forall d, upd (upd d) = upd d) -> (upd fresh = fresh) ->
  Mongo.update_one_upsert p upd fresh (Mongo.update_one_upsert p upd fresh c) =
  Mongo.update_one_upsert p upd fresh c.
Proof.
  intros Hi Hf. induction c as [|d c IH].
  - cbn. unfold p. rewrite bool_decide_eq_true_2 by done. by rewrite Hf.
  - cbn [Mongo.update_one_upsert]. destruct (p d) eqn:E.
    + cbn [Mongo.update_one_upsert]. unfold p in *. apply bool_decide_eq_true in E.
      rewrite bool_decide_eq_true_2 by (by rewrite upd_key). by rewrite Hi.
    + cbn [Mongo.update_one_upsert]. by rewrite E, IH.
Qed.

End Upsert.

(** ** /start *)

Lemma start_command_exec m st :
  exec (start_command m) st =
  set_users_collection
    (Mongo.update_one_upsert (by_ud_user_id (uid (from_user m)))
       (fun d => {| ud_user_id := ud_user_id d; ud_username := username (from_user m);
                    ud_full_name := full_name_of (from_user m) |})
       {| ud_user_id := uid (from_user m); ud_username := username (from_user m);
          ud_full_name := full_name_of (from_user m) |}
       (users_collection st))
    (with_effects (Reply (chat_id (chat m)) msg_start ::
                   log_entries (LOG_CHANNEL_ID st) (from_user m) (text m) msg_start) st).
Proof.
  unfold start_command. rewrite exec_bind. cbn [fst snd].
  change (snd (reply m msg_start st)) with (exec (reply m msg_start) st).
  rewrite exec_reply, exec_bind. cbn [fst snd].
  change (snd (log_message ?u ?i ?r ?s)) with (exec (log_message u i r) s).
  rewrite exec_log_message, with_effects_app. reflexivity.
Qed.

Lemma start_stores_record m st :
  exists d, user_record (exec (start_command m) st) (uid (from_user m)) = Some d /\
            ud_user_id d = uid (from_user m) /\
            ud_username d = username (from_user m) /\
            ud_full_name d = full_name_of (from_user m).
Proof.
  rewrite start_command_exec. unfold user_record.
  cbn [users_collection set_users_collection with_effects set_outbox].
  rewrite (upsert_find ud_user_id (uid (from_user m))) by done.
  destruct (Mongo.find_one _ (users_collection st)) as [d|] eqn:E.
  - eexists. split; [reflexivity|]. cbn. repeat split.
    apply find_some in E as [_ E]. by apply bool_decide_eq_true in E.
  - eexists. split; [reflexivity|]. done.
Qed.

(** X5.  /start answers with the greeting, mirrors it, and upserts the
    sender into the users collection: afterwards the sender's record holds
    the current username and full name under the same user id, the records
    of all other users read as before, and the collection has grown by one
    record exactly when the sender had none.  A second /start by the same
    user with the same profile changes nothing in the store. *)
Theorem start_command_upserts (st : State) (m : Message) :
  let u := from_user m in
  let st' := exec (start_command m) st in
  (exists d, user_record st' (uid u) = Some d /\ ud_user_id d = uid u /\
             ud_username d = username u /\ ud_full_name d = full_name_of u) /\
  (forall other, other <> uid u -> user_record st' other = user_record st other) /\
  recorded_users st' =
    (if bool_decide (uid u ∈ recorded_users st) then recorded_users st
     else recorded_users st ++ [uid u]) /\
  emitted st st' = Reply (chat_id (chat m)) msg_start ::
                   log_entries (LOG_CHANNEL_ID st) u (text m) msg_start /\
  (forall m2, from_user m2 = u ->
     users_collection (exec (start_command m2) st') = users_collection st').
Proof.
  intros u st'. subst st'. split; [apply start_stores_record|].
  rewrite start_command_exec. fold u.
  unfold user_record, recorded_users.
  cbn [users_collection set_users_collection with_effects set_outbox].
  split; [|split; [|split]].
  - intros other Hne. by apply (upsert_find_other ud_user_id (uid u)).
  - by apply (upsert_keys ud_user_id (uid u)).
  - apply emitted_outbox. reflexivity.
  - intros m2 Hm2. rewrite start_command_exec, Hm2. fold u.
    cbn [users_collection set_users_collection with_effects set_outbox].
    by apply (upsert_twice ud_user_id (uid u)).
Qed.

(** ** strip *)

Section Skip.

Context (ws : list (list ascii)).
Hypothesis ws_not_empty : forall w, w ∈ ws -> w <> [].

Lemma starts_with_app w l : Py.starts_with w l = true -> l = w ++ drop (length w) l.
Proof.
  revert l. induction w as [|a w IH]; intros [|b l]; cbn; try done.
  intros [Hab Hw]%andb_prop. apply Ascii.eqb_eq in Hab as ->. f_equal. by apply IH.
Qed.

Lemma starts_with_take w j l :
  Py.starts_with w (take j l) = true -> Py.starts_with w l = true.
Proof.
  revert j l. induction w as [|a w IH]; intros [|j] [|b l]; cbn; try done.
  intros [Hab Hw]%andb_prop. rewrite Hab. cbn. by apply (IH j).
Qed.

Lemma skip_one_Some l r :
  Py.skip_one ws l = Some r -> (length r < length l)%nat /\ exists k, r = drop k l.
Proof.
  unfold Py.skip_one. destruct (List.find _ ws) as [w|] eqn:E; [|done].
  intros [= <-]. apply find_some in E as [Hin Hw]. apply list_elem_of_In in Hin.
  apply ws_not_empty in Hin. apply starts_with_app in Hw.
  split; [|by eexists]. rewrite Hw at 2. rewrite length_app.
  destruct w; [done|]. cbn [length]. lia.
Qed.

Lemma skip_one_None l :
  Py.skip_one ws l = None <-> existsb (fun w => Py.starts_with w l) ws = false.
Proof.
  unfold Py.skip_one. clear ws_not_empty. induction ws as [|w ws' IH]; [done|].
  cbn [List.find existsb]. destruct (Py.starts_with w l); [done|]. exact IH.
Qed.

(** After enough rounds nothing of [ws] is left in front. *)
Lemma skip_all_clean n : forall l,
  (length l <= n)%nat -> Py.skip_one ws (Py.skip_all ws n l) = None.
Proof.
  induction n as [|n IH]; intros l Hn; cbn [Py.skip_all].
  - destruct (Py.skip_one ws l) as [r|] eqn:E; [|done].
    apply skip_one_Some in E as [Hr _]. lia.
  - destruct (Py.skip_one ws l) as [r|] eqn:E; [|done].
    apply IH. apply skip_one_Some in E as [Hr _]. lia.
Qed.

Lemma skip_all_fix n l : Py.skip_one ws l = None -> Py.skip_all ws n l = l.
Proof. intros E. destruct n; cbn [Py.skip_all]; by rewrite ?E. Qed.

(** What is left is an end of the text. *)
Lemma skip_all_drop n : forall l, exists k, Py.skip_all ws n l = drop k l.
Proof.
  induction n as [|n IH]; intros l; cbn [Py.skip_all]; [by exists 0%nat|].
  destruct (Py.skip_one ws l) as [r|] eqn:E; [|by exists 0%nat].
  apply skip_one_Some in E as [_ [k ->]]. destruct (IH (drop k l)) as [k' ->].
  exists (k + k')%nat. by rewrite drop_drop.
Qed.

End Skip.

Lemma white_space_not_empty w : w ∈ Py.white_space -> w <> [].
Proof.
  intros Hw ->. revert Hw. unfold Py.white_space.
  intros (n & Hn & _)%list_elem_of_fmap. revert Hn. unfold Py.utf8.
  by repeat case_match.
Qed.

Lemma white_space_backwards_not_empty w : w ∈ Py.white_space_backwards -> w <> [].
Proof.
  unfold Py.white_space_backwards. intros (w' & -> & Hw')%list_elem_of_fmap.
  apply white_space_not_empty in Hw'. by destruct w' using rev_ind; [|rewrite rev_unit].
Qed.

Lemma rev_drop {A} k (l : list A) : rev (drop k l) = take (length l - k) (rev l).
Proof.
  rewrite <- (rev_involutive (drop k l)), <- (rev_involutive l) at 1.
  rewrite skipn_rev, !rev_involutive. by rewrite length_rev.
Qed.

Lemma chars_app (a b : string) :
  list_ascii_of_string (a +:+ b) = list_ascii_of_string a ++ list_ascii_of_string b.
Proof.
  induction a as [|c a IH]; [done|].
  change (String c a +:+ b) with (String c (a +:+ b)). cbn. by rewrite IH.
Qed.

(** What [rstrip] leaves does not end with white space, what [lstrip]
    leaves does not begin with it, and [lstrip] keeps the end clean. *)
Lemma rstrip_end s : Py.ends_with_space (Py.rstrip s) = false.
Proof.
  unfold Py.ends_with_space, Py.rstrip. cbv zeta.
  rewrite list_ascii_of_string_of_list_ascii, rev_involutive.
  apply skip_one_None, skip_all_clean; [apply white_space_backwards_not_empty | done].
Qed.

Lemma lstrip_front s : Py.starts_with_space (Py.lstrip s) = false.
Proof.
  unfold Py.starts_with_space, Py.lstrip. cbv zeta.
  rewrite list_ascii_of_string_of_list_ascii.
  apply skip_one_None, skip_all_clean; [apply white_space_not_empty | done].
Qed.

Lemma lstrip_end s : Py.ends_with_space s = false -> Py.ends_with_space (Py.lstrip s) = false.
Proof.
  unfold Py.ends_with_space, Py.lstrip. cbv zeta.
  rewrite list_ascii_of_string_of_list_ascii. intros H.
  destruct (skip_all_drop Py.white_space white_space_not_empty
              (length (list_ascii_of_string s)) (list_ascii_of_string s)) as [k ->].
  rewrite rev_drop.
  apply not_true_is_false. intros (w & Hw & Hs)%existsb_exists.
  apply starts_with_take in Hs.
  assert (existsb (fun w => Py.starts_with w (rev (list_ascii_of_string s)))
            Py.white_space_backwards = true) by (apply existsb_exists; eauto).
  congruence.
Qed.

(** A text with clean ends is left as it is. *)
Lemma lstrip_clean s : Py.starts_with_space s = false -> Py.lstrip s = s.
Proof.
  unfold Py.starts_with_space, Py.lstrip. cbv zeta. intros H%skip_one_None.
  by rewrite skip_all_fix, string_of_list_ascii_of_string.
Qed.

Lemma rstrip_clean s : Py.ends_with_space s = false -> Py.rstrip s = s.
Proof.
  unfold Py.ends_with_space, Py.rstrip. cbv zeta. intros H%skip_one_None.
  by rewrite skip_all_fix, rev_involutive, string_of_list_ascii_of_string.
Qed.

Lemma strip_trimmed s :
  Py.starts_with_space (Py.strip s) = false /\ Py.ends_with_space (Py.strip s) = false.
Proof. unfold Py.strip. split; [apply lstrip_front | apply lstrip_end, rstrip_end]. Qed.

Lemma strip_idempotent s : Py.strip (Py.strip s) = Py.strip s.
Proof.
  destruct (strip_trimmed s) as [Hf He]. unfold Py.strip at 1.
  by rewrite (rstrip_clean _ He), (lstrip_clean _ Hf).
Qed.

(** The blank of the f-string goes when nothing follows it. *)
Lemma rstrip_app_space s : Py.rstrip (s +:+ " ") = Py.rstrip s.
Proof.
  unfold Py.rstrip. cbv zeta. rewrite chars_app.
  change (list_ascii_of_string " ") with [Py.space]. rewrite rev_unit.
  cbn [length Py.skip_all].
  replace (Py.skip_one Py.white_space_backwards (Py.space :: rev (list_ascii_of_string s)))
    with (Some (rev (list_ascii_of_string s))) by (by vm_compute).
  reflexivity.
Qed.

(** X6.  The full name /start stores neither begins nor ends with a
    white-space character, Unicode white space included, and stripping it
    again changes nothing.  For a user without a last name it is the first
    name without its surrounding white space, so the blank the f-string
    puts after the first name is not stored. *)
Theorem stored_name_is_trimmed (st : State) (m : Message) (d : UserDoc) :
  user_record (exec (start_command m) st) (uid (from_user m)) = Some d ->
  Py.starts_with_space (ud_full_name d) = false /\
  Py.ends_with_space (ud_full_name d) = false /\
  Py.strip (ud_full_name d) = ud_full_name d /\
  (Py.or_empty (last_name (from_user m)) = "" ->
     ud_full_name d = Py.strip (first_name (from_user m))).
Proof.
  intros Hd.
  destruct (start_stores_record m st) as (d' & Hd' & _ & _ & Hname).
  rewrite Hd in Hd'. injection Hd' as <-. rewrite Hname. unfold full_name_of.
  split; [|split; [|split]].
  - apply strip_trimmed.
  - apply strip_trimmed.
  - apply strip_idempotent.
  - intros ->. unfold Py.strip.
    change (first_name (from_user m) +:+ " " +:+ "") with (first_name (from_user m) +:+ " ").
    by rewrite rstrip_app_space.
Qed.

(** Eve's first name comes with a blank in front and a no-break space
    (U+00A0) behind. *)
Lemma stored_name_is_trimmed_witness :
  Py.starts_with_space (first_name eve) = true /\
  Py.ends_with_space (first_name eve) = true /\
  Py.strip "Eve" = "Eve" /\ full_name_of eve = Py.strip (first_name eve).
Proof.
  destruct (stored_name_is_trimmed logged_state (msg_at eve "/start" 1)
              {| ud_user_id := 9; ud_username := None; ud_full_name := "Eve" |} eq_refl)
    as (_ & _ & H1 & H2).
  split; [reflexivity|]. split; [reflexivity|].
  split; [exact H1 | exact (H2 eq_refl)].
Defined.

(** ** Users and groups stay *)

Lemma join_exec m st :
  exec (new_chat_members_handler m) st =
  if is_group_chat (chat m) then
    with_effects [LogInfo ("Added to group: " +:+ title (chat m))]
      (set_groups_collection
         (Mongo.update_one_upsert (by_group_id (chat_id (chat m)))
            (fun d => {| gd_group_id := gd_group_id d; gd_title := title (chat m) |})
            {| gd_group_id := chat_id (chat m); gd_title := title (chat m) |}
            (groups_collection st)) st)
  else st.
Proof.
  unfold new_chat_members_handler, is_group_chat. destruct (_ || _); [|done].
  by rewrite exec_bind.
Qed.

Lemma users_step env st e :
  users_collection (step env st e) = users_collection st \/
  exists m, e = Incoming CmdStart m /\
    users_collection (step env st e) =
      Mongo.update_one_upsert (by_ud_user_id (uid (from_user m)))
        (fun d => {| ud_user_id := ud_user_id d; ud_username := username (from_user m);
                     ud_full_name := full_name_of (from_user m) |})
        {| ud_user_id := uid (from_user m); ud_username := username (from_user m);
           ud_full_name := full_name_of (from_user m) |}
        (users_collection st).
Proof.
  destruct e as [c m|m|h]; cbn [step].
  - destruct (decide (c = CmdStart)) as [->|Hc].
    + right. exists m. split; [done|]. cbn [handler]. by rewrite start_command_exec.
    + left. apply (keeps_exec users_collection). by apply handler_keeps_users.
  - left. by apply (keeps_exec users_collection), joined_keeps.
  - left. by pose proof (tick_rest_frame env h st) as (_ & _ & -> & _).
Qed.

Lemma groups_step env st e :
  groups_collection (step env st e) = groups_collection st \/
  exists m, e = Joined m /\ is_group_chat (chat m) = true /\
    groups_collection (step env st e) =
      Mongo.update_one_upsert (by_group_id (chat_id (chat m)))
        (fun d => {| gd_group_id := gd_group_id d; gd_title := title (chat m) |})
        {| gd_group_id := chat_id (chat m); gd_title := title (chat m) |}
        (groups_collection st).
Proof.
  destruct e as [c m|m|h]; cbn [step].
  - left. apply (keeps_exec groups_collection), handler_keeps_groups.
  - rewrite join_exec. destruct (is_group_chat (chat m)) eqn:E; [|by left].
    right. by exists m.
  - left. by pose proof (tick_rest_frame env h st) as (_ & _ & _ & ->).
Qed.

Lemma recorded_step env st e :
  (forall u, u ∈ recorded_users st -> u ∈ recorded_users (step env st e)) /\
  (forall g, g ∈ recorded_groups st -> g ∈ recorded_groups (step env st e)) /\
  (NoDup (recorded_users st) -> NoDup (recorded_users (step env st e))) /\
  (NoDup (recorded_groups st) -> NoDup (recorded_groups (step env st e))).
Proof.
  unfold recorded_users, recorded_groups.
  destruct (users_step env st e) as [-> | (m & _ & ->)];
    destruct (groups_step env st e) as [-> | (m' & _ & _ & ->)];
    repeat split; try done; intros;
    first [ by apply (upsert_keeps_members ud_user_id)
          | by apply (upsert_keeps_members gd_group_id)
          | by apply (upsert_NoDup ud_user_id)
          | by apply (upsert_NoDup gd_group_id) ].
Qed.

Lemma recorded_steps env es : forall st,
  (forall u, u ∈ recorded_users st -> u ∈ recorded_users (steps env st es)) /\
  (forall g, g ∈ recorded_groups st -> g ∈ recorded_groups (steps env st es)) /\
  (NoDup (recorded_users st) -> NoDup (recorded_users (steps env st es))) /\
  (NoDup (recorded_groups st) -> NoDup (recorded_groups (steps env st es))).
Proof.
  induction es as [|e es IH]; intros st; [done|].
  cbn [steps foldl]. fold (steps env (step env st e) es).
  destruct (recorded_step env st e) as (H1 & H2 & H3 & H4).
  destruct (IH (step env st e)) as (I1 & I2 & I3 & I4).
  repeat split; auto.
Qed.

(** X7.  Nothing ever removes a user or a group from the store: an id the
    store holds is still there after any sequence of commands, joins and
    task turns.  And the store keeps one record per user id and per group
    id if it had one before; started empty, it always has. *)
Theorem recorded_for_good (env : Env) (st : State) (es : list Event) :
  (forall u, u ∈ recorded_users st -> u ∈ recorded_users (steps env st es)) /\
  (forall g, g ∈ recorded_groups st -> g ∈ recorded_groups (steps env st es)) /\
  (NoDup (recorded_users st) -> NoDup (recorded_users (steps env st es))) /\
  (NoDup (recorded_groups st) -> NoDup (recorded_groups (steps env st es))) /\
  (forall ch, NoDup (recorded_users (steps env (init_state ch) es)) /\
              NoDup (recorded_groups (steps env (init_state ch) es))).
Proof.
  destruct (recorded_steps env es st) as (H1 & H2 & H3 & H4).
  repeat split; try done.
  - apply (proj1 (proj2 (proj2 (recorded_steps env es (init_state ch))))). apply NoDup_nil_2.
  - apply (proj2 (proj2 (proj2 (recorded_steps env es (init_state ch))))). apply NoDup_nil_2.
Qed.

Lemma start_records env st m :
  uid (from_user m) ∈ recorded_users (step env st (Incoming CmdStart m)).
Proof.
  cbn [step handler]. rewrite start_command_exec. unfold recorded_users.
  cbn [users_collection set_users_collection].
  rewrite (upsert_keys ud_user_id (uid (from_user m))) by done.
  case_bool_decide as B; [done|]. apply elem_of_app. right. apply list_elem_of_here.
Qed.

Lemma join_records env st m :
  is_group_chat (chat m) = true ->
  chat_id (chat m) ∈ recorded_groups (step env st (Joined m)).
Proof.
  intros Hg. cbn [step]. rewrite join_exec, Hg. unfold recorded_groups.
  cbn [groups_collection set_groups_collection with_effects set_outbox].
  rewrite (upsert_keys gd_group_id (chat_id (chat m))) by done.
  case_bool_decide as B; [done|]. apply elem_of_app. right. apply list_elem_of_here.
Qed.

Lemma broadcast_reaches env st mb :
  is_owner env (uid (from_user mb)) = true -> Py.nonempty (Py.rest (text mb)) = true ->
  (forall u, u ∈ recorded_users st ->
     attempted env (Py.rest (text mb)) u (emitted st (exec (handler env CmdBroadcast mb) st))) /\
  (forall g, g ∈ recorded_groups st ->
     attempted env (Py.rest (text mb)) g (emitted st (exec (handler env CmdBroadcast mb) st))).
Proof.
  intros Ho Hb. cbn [handler]. rewrite (broadcast_command_exec env mb st Ho Hb).
  rewrite emitted_with_effects. split.
  - intros u (d & -> & Hd)%list_elem_of_fmap. apply attempted_delivery.
    apply elem_of_app. left. apply list_elem_of_fmap. by exists d.
  - intros g (d & -> & Hd)%list_elem_of_fmap. apply attempted_delivery.
    apply elem_of_app. right. apply elem_of_app. left. apply list_elem_of_fmap. by exists d.
Qed.

(** X8.  Whoever sent /start once, and every group chat the bot was added
    to, is among the recipients of every later broadcast of the owner,
    whatever happened in between. *)
Theorem broadcast_reaches_everyone_recorded (env : Env) (st : State) (m mb : Message)
    (es : list Event) :
  uid (from_user mb) = BOT_OWNER_ID env ->
  Py.rest (text mb) <> "" ->
  (let st1 := steps env st (Incoming CmdStart m :: es) in
   attempted env (Py.rest (text mb)) (uid (from_user m))
     (emitted st1 (exec (handler env CmdBroadcast mb) st1))) /\
  (is_group_chat (chat m) = true ->
   let st1 := steps env st (Joined m :: es) in
   attempted env (Py.rest (text mb)) (chat_id (chat m))
     (emitted st1 (exec (handler env CmdBroadcast mb) st1))).
Proof.
  intros Ho%(is_owner_true env) Hb%nonempty_true. split.
  - intros st1. apply (proj1 (broadcast_reaches env st1 mb Ho Hb)). subst st1.
    cbn [steps foldl]. fold (steps env (step env st (Incoming CmdStart m)) es).
    apply (proj1 (recorded_steps env es _)), start_records.
  - intros Hg st1. apply (proj2 (broadcast_reaches env st1 mb Ho Hb)). subst st1.
    cbn [steps foldl]. fold (steps env (step env st (Joined m)) es).
    by apply (proj1 (proj2 (recorded_steps env es _))), join_records.
Qed.

(** Ada sent /start, the bot joined the club, a task had a turn: the owner's
    broadcast tries both. *)
Lemma broadcast_reaches_everyone_recorded_witness :
  attempted sample_env "hello" 7
    (emitted
       (steps sample_env logged_state
          [Incoming CmdStart (msg_at ada "/start" 1); Joined joined_club; Turn 0])
       (exec (handler sample_env CmdBroadcast (msg_at owner "/broadcast hello" 9))
          (steps sample_env logged_state
             [Incoming CmdStart (msg_at ada "/start" 1); Joined joined_club; Turn 0]))).
Proof.
  assert (Hne : Py.rest (text (msg_at owner "/broadcast hello" 9)) <> "") by discriminate.
  exact (proj1 (broadcast_reaches_everyone_recorded sample_env logged_state
                  (msg_at ada "/start" 1) (msg_at owner "/broadcast hello" 9)
                  [Joined joined_club; Turn 0] eq_refl Hne)).
Defined.

(** ** Joining a chat *)

(** X9.  When the bot is added to a chat, only group and supergroup chats
    are recorded; for any other chat type nothing happens at all.  For a
    group the title is upserted under the chat id: the group's record then
    carries the current title, so that a renamed group is updated and not
    added twice; the records of the other groups read as before; the only
    trace is a line in the process log: nobody is sent a message and the
    log channel gets no mirror. *)
Theorem join_records_group_chats_only (st : State) (m : Message) :
  let g := chat_id (chat m) in
  let st' := exec (new_chat_members_handler m) st in
  (is_group_chat (chat m) = false -> st' = st) /\
  (is_group_chat (chat m) = true ->
     (exists d, group_record st' g = Some d /\ gd_group_id d = g /\
                gd_title d = title (chat m)) /\
     (forall other, other <> g -> group_record st' other = group_record st other) /\
     recorded_groups st' =
       (if bool_decide (g ∈ recorded_groups st) then recorded_groups st
        else recorded_groups st ++ [g]) /\
     emitted st st' = [LogInfo ("Added to group: " +:+ title (chat m))] /\
     st' = with_effects (emitted st st') (set_groups_collection (groups_collection st') st)).
Proof.
  intros g st'. subst st'. rewrite join_exec.
  destruct (is_group_chat (chat m)); split; try done. intros _.
  unfold group_record, recorded_groups.
  cbn [groups_collection set_groups_collection with_effects set_outbox].
  rewrite emitted_outbox with (es := [LogInfo ("Added to group: " +:+ title (chat m))])
    by reflexivity.
  split; [|split; [|split; [|split]]].
  - rewrite (upsert_find gd_group_id g) by done.
    destruct (Mongo.find_one _ (groups_collection st)) as [d|] eqn:E.
    + eexists. split; [reflexivity|]. cbn. split; [|done].
      apply find_some in E as [_ E]. by apply bool_decide_eq_true in E.
    + eexists. split; [reflexivity|]. done.
  - intros other Hne. by apply (upsert_find_other gd_group_id g).
  - by apply (upsert_keys gd_group_id g).
  - reflexivity.
  - reflexivity.
Qed.

(** The bot joins the club; a private chat is not recorded. *)
Lemma join_records_group_chats_only_witness :
  recorded_groups (exec (new_chat_members_handler joined_club) logged_state) = [-5] /\
  exec (new_chat_members_handler (msg_at ada "" 2)) logged_state = logged_state.
Proof.
  destruct (join_records_group_chats_only logged_state joined_club) as [_ Hg].
  destruct (Hg eq_refl) as (_ & _ & Hr & _).
  split; [exact Hr|].
  exact (proj1 (join_records_group_chats_only logged_state (msg_at ada "" 2)) eq_refl).
Defined.

(** ** The image task *)

Lemma image_task_success env user input prompt st url :
  generate_image env prompt = Some url -> url <> "" ->
  let task := generate_image_task user input prompt in
  let sent := [ProviderRequest prompt; SendPhoto (uid user) url] in
  run env task st =
    set_user_images (<[uid user := url]> (user_images st))
      (with_effects (sent ++ log_entries (LOG_CHANNEL_ID st) user input url) st) /\
  resume_n env 1 task st = with_effects sent st /\
  (Py.truthy (LOG_CHANNEL_ID st) = true ->
     resume_n env 2 task st =
       with_effects (sent ++ log_entries (LOG_CHANNEL_ID st) user input url) st) /\
  (Py.truthy (LOG_CHANNEL_ID st) = false -> resume_n env 2 task st = run env task st) /\
  suspensions env task = 2%nat.
Proof.
  intros Hg Hne%nonempty_true task sent. subst task sent. unfold generate_image_task.
  assert (Hok : Py.truthy (generate_image env prompt) = true) by (by rewrite Hg).
  cbn [resume_n resume run suspensions]. rewrite (exec_call_ok _ _ _ Hok), Hok, Hg.
  cbn [Py.str_opt resume_n resume run suspensions suspends perform].
  rewrite !exec_emit, !exec_log_message, !with_effects_app.
  cbn [LOG_CHANNEL_ID with_effects set_outbox].
  split; [done|]. split; [done|]. split; [|split; [|done]]; by intros ->.
Qed.

Lemma image_task_failure env user input prompt st :
  Py.truthy (generate_image env prompt) = false ->
  run env (generate_image_task user input prompt) st =
    with_effects ((ProviderRequest prompt :: generate_image_log env prompt) ++
                  [SendMessage (ChatInt (uid user)) msg_image_error] ++
                  log_entries (LOG_CHANNEL_ID st) user input msg_image_error) st.
Proof.
  intros Hg. unfold generate_image_task. cbn [run]. rewrite Hg. cbn [run perform].
  rewrite exec_call_generate_image, !exec_emit, !exec_log_message, !with_effects_app.
  reflexivity.
Qed.

(** X10.  The background task of /ai asks the provider once.  With a usable
    URL it sends the photo to the user's own chat in its first turn, and
    stops there when it is cut.  With a log channel it mirrors the photo in
    its second turn and stores the URL as the user's last image only in the
    third; without one [log_message] sends nothing and does not suspend, so
    that the URL is stored, and the task ended, in the second turn.
    Without a usable URL the trace is the request, the error line of
    [generate_image] when it wrote one, the error text to the user and its
    mirror, and the stored images stay as they were. *)
Theorem image_task_outcome (env : Env) (user : User) (input prompt : string) (st : State) :
  let task := generate_image_task user input prompt in
  (forall url, generate_image env prompt = Some url -> url <> "" ->
     let sent := [ProviderRequest prompt; SendPhoto (uid user) url] in
     emitted st (run env task st) = sent ++ log_entries (LOG_CHANNEL_ID st) user input url /\
     user_images (run env task st) = <[uid user := url]> (user_images st) /\
     resume_n env 1 task st = with_effects sent st /\
     (Py.truthy (LOG_CHANNEL_ID st) = true ->
        resume_n env 2 task st =
          with_effects (sent ++ log_entries (LOG_CHANNEL_ID st) user input url) st /\
        forall n, (3 <= n)%nat -> resume_n env n task st = run env task st) /\
     (Py.truthy (LOG_CHANNEL_ID st) = false ->
        forall n, (2 <= n)%nat -> resume_n env n task st = run env task st)) /\
  (Py.truthy (generate_image env prompt) = false ->
     emitted st (run env task st) =
       [ProviderRequest prompt] ++ generate_image_log env prompt ++
       [SendMessage (ChatInt (uid user)) msg_image_error] ++
       log_entries (LOG_CHANNEL_ID st) user input msg_image_error /\
     user_images (run env task st) = user_images st).
Proof.
  intros task. split.
  - intros url Hg Hne sent.
    destruct (image_task_success env user input prompt st url Hg Hne)
      as (Hr & H1 & H2 & H2' & Hs).
    fold task in Hr, H1, H2, H2', Hs. fold sent in Hr, H1, H2.
    split; [|split; [|split; [|split]]].
    + rewrite Hr. apply emitted_outbox. reflexivity.
    + by rewrite Hr.
    + exact H1.
    + intros Hch. split; [by apply H2|].
      intros n Hn. apply resume_n_run. lia.
    + intros Hch n Hn. destruct n as [|[|n]]; [lia|lia|].
      rewrite <- (H2' Hch). clear -Hg Hne Hch. subst task. unfold generate_image_task.
      assert (Hok : Py.truthy (generate_image env prompt) = true).
      { rewrite Hg. by apply nonempty_true. }
      cbn [resume_n resume]. rewrite (exec_call_ok _ _ _ Hok), Hok.
      cbn [resume_n resume suspends perform].
      rewrite !exec_emit, !exec_log_message, !with_effects_app.
      cbn [LOG_CHANNEL_ID with_effects set_outbox]. by rewrite Hch.
  - intros Hg. subst task. rewrite (image_task_failure env user input prompt st Hg).
    split; [|reflexivity]. rewrite emitted_with_effects. reflexivity.
Qed.

(** With a log channel and without: three turns, two turns; and a provider
    that fails. *)
Lemma image_task_outcome_witness :
  user_images (resume_n sample_env 2 (generate_image_task ada "/ai a cat" "a cat") logged_state)
    = ∅ /\
  user_images (resume_n sample_env 3 (generate_image_task ada "/ai a cat" "a cat") logged_state)
    = <[7 := "https://img/a cat"]> ∅ /\
  user_images (resume_n sample_env 2 (generate_image_task ada "/ai a cat" "a cat")
                 (init_state None))
    = <[7 := "https://img/a cat"]> ∅ /\
  emitted logged_state
    (run failing_env (generate_image_task ada "/ai a dog" "a dog") logged_state) =
  [ProviderRequest "a dog"; LogError "Error in response: {'error': {'code': 'billing'}}";
   SendMessage (ChatInt 7) msg_image_error;
   SendMessage (ChatStr "-100") (log_text ada "/ai a dog" msg_image_error)].
Proof.
  assert (Hne : "https://img/a cat" <> "") by discriminate.
  destruct (image_task_outcome sample_env ada "/ai a cat" "a cat" logged_state) as [Hok _].
  destruct (Hok "https://img/a cat" eq_refl Hne) as (_ & Hi & _ & Hon & _).
  destruct (Hon eq_refl) as [H2 H3].
  destruct (image_task_outcome sample_env ada "/ai a cat" "a cat" (init_state None))
    as [Hok' _].
  destruct (Hok' "https://img/a cat" eq_refl Hne) as (_ & Hi' & _ & _ & Hoff).
  destruct (image_task_outcome failing_env ada "/ai a dog" "a dog" logged_state) as [_ Hko].
  split; [|split; [|split]].
  - by rewrite H2.
  - rewrite (H3 3%nat) by lia. exact Hi.
  - rewrite (Hoff eq_refl 2%nat) by lia. exact Hi'.
  - exact (proj1 (Hko eq_refl)).
Defined.

(** ** /modify *)

(** Unfold the monad, then compare two states field by field, the lists of
    effects up to the nesting of their concatenations. *)
Ltac monad_unfold :=
  repeat (progress (unfold reply, log_message, emit, exec, bind, ret, gets, modify;
                    cbn [fst snd])).

Ltac state_eq :=
  unfold with_effects, set_outbox, set_user_images, set_last_ai_use, set_user_tasks,
    set_tasks, set_LOG_CHANNEL_ID, set_users_collection, set_groups_collection,
    set_subscriptions_collection, set_gift_codes_collection;
  cbn [last_ai_use user_images user_tasks tasks LOG_CHANNEL_ID users_collection
       groups_collection subscriptions_collection gift_codes_collection outbox];
  f_equal; rewrite <- ?app_assoc; reflexivity.

Lemma modify_stored_exec env m st image :
  replied_photo m = None -> user_images st !! uid (from_user m) = Some image ->
  Py.nonempty (Py.rest (text m)) = true ->
  let p := modify_prompt_text image (Py.rest (text m)) in
  exec (modify_command env m) st =
  if Py.truthy (generate_image env p) then
    set_user_images (<[uid (from_user m) := Py.str_opt (generate_image env p)]> (user_images st))
      (with_effects
         ([Reply (chat_id (chat m)) "Modifying the last generated image..."; ProviderRequest p;
           ReplyPhoto (chat_id (chat m)) (Py.str_opt (generate_image env p))] ++
          log_entries (LOG_CHANNEL_ID st) (from_user m) (text m)
            (Py.str_opt (generate_image env p))) st)
  else
    with_effects
      ([Reply (chat_id (chat m)) "Modifying the last generated image..."; ProviderRequest p] ++
       generate_image_log env p ++
       [Reply (chat_id (chat m)) msg_modify_error] ++
       log_entries (LOG_CHANNEL_ID st) (from_user m) (text m) msg_modify_error) st.
Proof.
  intros Hf Hi Hp p. subst p. unfold modify_command. monad_unfold. rewrite Hf, Hi, Hp.
  monad_unfold. rewrite call_generate_image_run. cbn [fst snd].
  destruct (Py.truthy (generate_image env _)) eqn:Et.
  - rewrite (generate_image_log_ok _ _ Et). monad_unfold. state_eq.
  - monad_unfold. state_eq.
Qed.

(** X11.  A /modify that replies to a photo never gets to the provider:
    [bot.get_file_url] returns a [str], awaiting it raises TypeError, and
    the handler ends there whatever the prompt and whatever image is
    stored, with no answer and no change of the state.  Without a replied
    photo and with a prompt, /modify works on the user's stored image: it
    asks the provider exactly once, for
    "Modify this image: <stored image> with <prompt>", replaces the stored
    image by the new URL when the provider gives one and keeps it when the
    provider fails. *)
Theorem modify_works_on_the_stored_image_only (env : Env) (st : State) (m : Message) :
  let u := uid (from_user m) in
  let st' := exec (handler env CmdModify m) st in
  (forall sizes f, reply_to_message m = Some sizes -> last sizes = Some f ->
     st' = with_effects [Raise TypeError] st) /\
  (forall image, replied_photo m = None -> user_images st !! u = Some image ->
     Py.rest (text m) <> "" ->
     let p := modify_prompt_text image (Py.rest (text m)) in
     requests (emitted st st') = [p] /\
     (forall url, generate_image env p = Some url -> url <> "" ->
        user_images st' = <[u := url]> (user_images st) /\
        ReplyPhoto (chat_id (chat m)) url ∈ emitted st st') /\
     (Py.truthy (generate_image env p) = false ->
        user_images st' = user_images st /\
        Reply (chat_id (chat m)) msg_modify_error ∈ emitted st st')).
Proof.
  intros u st'. subst st'. split.
  - intros sizes f Hs Hl.
    assert (Hf : replied_photo m = Some f) by (unfold replied_photo; by rewrite Hs).
    by apply (modify_raises env m st f).
  - intros image Hf Hi Hp%nonempty_true. cbn [handler].
    set (p := modify_prompt_text image (Py.rest (text m))).
    pose proof (modify_stored_exec env m st image Hf Hi Hp) as E.
    cbv zeta in E. fold p in E. rewrite E. clear E.
    destruct (Py.truthy (generate_image env p)) eqn:Et.
    + erewrite emitted_outbox by reflexivity. split; [|split].
      * by rewrite requests_app, requests_log.
      * intros url Hg Hne. rewrite Hg. cbn [Py.str_opt]. split; [reflexivity|].
        apply elem_of_app. left. do 2 apply list_elem_of_further. apply list_elem_of_here.
      * discriminate.
    + rewrite emitted_with_effects. split; [|split].
      * by rewrite !requests_app, requests_log, requests_generate_image_log.
      * intros url Hg Hne%nonempty_true. rewrite Hg in Et. cbn in Et. congruence.
      * intros _. split; [reflexivity|].
        apply elem_of_app. right. apply elem_of_app. right. apply list_elem_of_here.
Qed.

(** Ada sends /modify in reply to a photo; then, with an image stored and
    no photo replied to, the provider is asked about the stored image. *)
Lemma modify_works_on_the_stored_image_only_witness :
  exec (handler sample_env CmdModify
          {| from_user := ada; chat := private_chat ada; text := "/modify more blue";
             date := 3; reply_to_message := Some ["small"; "large"] |}) logged_state
  = with_effects [Raise TypeError] logged_state /\
  requests
    (emitted (set_user_images (<[7 := "https://img/a cat"]> ∅) logged_state)
       (exec (handler sample_env CmdModify (msg_at ada "/modify more blue" 3))
          (set_user_images (<[7 := "https://img/a cat"]> ∅) logged_state)))
  = ["Modify this image: https://img/a cat with more blue"].
Proof.
  assert (Hne : "more blue" <> "") by discriminate.
  split.
  - exact (proj1 (modify_works_on_the_stored_image_only sample_env logged_state
                    {| from_user := ada; chat := private_chat ada; text := "/modify more blue";
                       date := 3; reply_to_message := Some ["small"; "large"] |})
             ["small"; "large"] "large" eq_refl eq_refl).
  - exact (proj1 (proj2 (modify_works_on_the_stored_image_only sample_env
                           (set_user_images (<[7 := "https://img/a cat"]> ∅) logged_state)
                           (msg_at ada "/modify more blue" 3))
                    "https://img/a cat" eq_refl eq_refl Hne)).
Defined.

(** ** From a command to the end of its task *)

Lemma steps_turns env h n : forall st,
  steps env st (replicate n (Turn h)) = Nat.iter n (tick env h) st.
Proof.
  induction n as [|n IH]; intros st; [done|].
  rewrite Nat.iter_succ_r. cbn [replicate steps foldl].
  fold (steps env (step env st (Turn h)) (replicate n (Turn h))). by rewrite IH.
Qed.

Lemma run_frame env c : forall st,
  tasks (run env c st) = tasks st /\ user_tasks (run env c st) = user_tasks st /\
  LOG_CHANNEL_ID (run env c st) = LOG_CHANNEL_ID st.
Proof.
  induction c as [|io k IH|p k IH|u url k IH]; intros st; cbn [run].
  - done.
  - destruct (IH (exec (perform io) st)) as (-> & -> & ->). by destruct io.
  - destruct (IH (generate_image env p) (exec (call_generate_image env p) st))
      as (-> & -> & ->). by rewrite exec_call_generate_image.
  - by destruct (IH (set_user_images (<[u:=url]> (user_images st)) st)) as (-> & -> & ->).
Qed.

(** A task that was just started, given its turns: the state is the one the
    uninterrupted run gives, but for the heap, where the task is done. *)
Lemma started_task_completes env c m st :
  starts_task c st m = true ->
  let h := length (tasks st) in
  let st1 := exec (handler env c m) st in
  let st2 := steps env st1 (replicate (S (suspensions env (task_body c m))) (Turn h)) in
  st2 = set_tasks (tasks st2) (run env (task_body c m) st1) /\
  user_tasks st2 !! uid (from_user m) = Some h /\
  exists t, tasks st2 !! h = Some t /\ t_done t = true.
Proof.
  intros Hs h st1 st2. subst st2. rewrite steps_turns.
  assert (Ht : tasks st1 !! h = Some (new_task (task_body c m))).
  { subst st1. rewrite (start_registers env c m st Hs). cbn [tasks set_user_tasks set_tasks].
    rewrite lookup_app_r by done. by rewrite Nat.sub_diag. }
  assert (Hu : user_tasks st1 !! uid (from_user m) = Some h).
  { subst st1. rewrite (start_registers env c m st Hs). cbn [user_tasks set_user_tasks].
    apply lookup_insert_eq. }
  destruct (ticks_complete env h _ (task_body c m) st1 _ (Nat.le_refl _) Ht
              eq_refl eq_refl eq_refl)
    as [Hdone Hst].
  split; [exact Hst|]. split; [|exact Hdone].
  rewrite Hst. cbn [user_tasks set_tasks].
  by destruct (run_frame env (task_body c m) st1) as (_ & -> & _).
Qed.

Lemma task_body_suspensions env c m : (suspensions env (task_body c m) <= 45)%nat.
Proof.
  destruct c; cbn [task_body];
    try (unfold generate_image_task; cbn [suspensions];
         destruct (Py.truthy _); cbn [suspensions]; lia).
  unfold generate_proai_task.
  etrans; [apply proai_suspensions|]. by rewrite length_seq.
Qed.

(** X12.  A task started by /ai or /proai and never cancelled is done after
    at most 46 turns of the loop (3 for /ai), and what it did then is what
    the uninterrupted run of its coroutine does.  From then on a
    cancel command of the user answers "no active command" and changes
    nothing else: the finished task stays registered but is not live. *)
Theorem task_runs_to_completion (env : Env) (st : State) (c : Command) (m : Message) :
  starts_task c st m = true ->
  let u := uid (from_user m) in
  let h := length (tasks st) in
  let st1 := exec (handler env c m) st in
  let n := S (suspensions env (task_body c m)) in
  let st2 := steps env st1 (replicate n (Turn h)) in
  (n <= 46)%nat /\ (c = CmdAi -> n <= 3)%nat /\
  st2 = set_tasks (tasks st2) (run env (task_body c m) st1) /\
  outbox st2 = outbox (run env (task_body c m) st1) /\
  ~ has_live_task st2 u /\
  (forall cc m2, cc = CmdCancelai \/ cc = CmdCancelproai -> uid (from_user m2) = u ->
     exec (handler env cc m2) st2 =
     with_effects [Reply (chat_id (chat m2)) (none_reply cc)] st2).
Proof.
  intros Hs u h st1 n st2.
  destruct (started_task_completes env c m st Hs) as (Hst & Hu & t & Ht & Hd).
  fold h st1 in Hst, Hu, Ht. fold n in Hst, Hu, Ht. fold st2 in Hst, Hu, Ht.
  assert (Hdead : ~ has_live_task st2 u).
  { intros (h' & t' & Hu' & Ht' & Hd'). fold u in Hu. congruence. }
  split; [|split; [|split; [|split; [|split]]]].
  - subst n. pose proof (task_body_suspensions env c m). lia.
  - intros ->. subst n. cbn [task_body]. unfold generate_image_task. cbn [suspensions].
    destruct (Py.truthy _); cbn [suspensions]; lia.
  - exact Hst.
  - by rewrite Hst.
  - exact Hdead.
  - intros cc m2 Hcc Hm2. rewrite (cancel_handler_exec env cc m2 st2 Hcc), Hm2.
    apply live_handle_None in Hdead. by rewrite Hdead.
Qed.

Lemma task_runs_to_completion_witness :
  outbox (steps sample_env after_first_ai (replicate 3 (Turn 0))) =
  outbox (run sample_env (task_body CmdAi (msg_at ada "/ai a cat" 100)) after_first_ai).
Proof.
  exact (proj1 (proj2 (proj2 (proj2
    (task_runs_to_completion sample_env logged_state CmdAi (msg_at ada "/ai a cat" 100)
       eq_refl))))).
Defined.

(** X13.  Once the task of an accepted /ai has delivered a photo and had its
    three turns, the URL is the user's stored image, and a /modify of the
    user that replies to no photo asks the provider for
    "Modify this image: <that URL> with <prompt>". *)
Theorem ai_image_feeds_modify (env : Env) (st : State) (m : Message) (url : string) :
  starts_task CmdAi st m = true ->
  generate_image env (Py.rest (text m)) = Some url -> url <> "" ->
  let u := uid (from_user m) in
  let st2 := steps env st (Incoming CmdAi m :: replicate 3 (Turn (length (tasks st)))) in
  user_images st2 !! u = Some url /\
  (forall mm, uid (from_user mm) = u -> replied_photo mm = None ->
     Py.rest (text mm) <> "" ->
     requests (emitted st2 (exec (handler env CmdModify mm) st2)) =
       [modify_prompt_text url (Py.rest (text mm))]).
Proof.
  intros Hs Hg Hne u st2.
  destruct (image_task_success env (from_user m) (text m) (Py.rest (text m))
              (exec (handler env CmdAi m) st) url Hg Hne) as (Hrun & _ & _ & _ & Hsusp).
  destruct (started_task_completes env CmdAi m st Hs) as (Hst & _).
  cbn [task_body] in Hst. rewrite Hsusp in Hst.
  assert (Hst2 : st2 = steps env (exec (handler env CmdAi m) st)
                         (replicate 3 (Turn (length (tasks st))))) by reflexivity.
  rewrite <- Hst2 in Hst.
  assert (Hi : user_images st2 !! u = Some url).
  { rewrite Hst, Hrun. cbn [user_images set_tasks set_user_images]. apply lookup_insert_eq. }
  split; [exact Hi|].
  intros mm Hmm Hf Hp%nonempty_true. cbn [handler]. rewrite <- Hmm in Hi.
  pose proof (modify_stored_exec env mm st2 url Hf Hi Hp) as E. cbv zeta in E. rewrite E.
  destruct (Py.truthy _).
  - erewrite emitted_outbox by reflexivity. by rewrite requests_app, requests_log.
  - rewrite emitted_with_effects.
    by rewrite !requests_app, requests_log, requests_generate_image_log.
Qed.

Lemma ai_image_feeds_modify_witness :
  user_images
    (steps sample_env logged_state
       (Incoming CmdAi (msg_at ada "/ai a cat" 100) :: replicate 3 (Turn 0))) !! 7
  = Some "https://img/a cat".
Proof.
  assert (Hne : "https://img/a cat" <> "") by discriminate.
  exact (proj1 (ai_image_feeds_modify sample_env logged_state (msg_at ada "/ai a cat" 100)
                  "https://img/a cat" eq_refl eq_refl Hne)).
Defined.

(** ** /users *)

Lemma users_loop_exec m (l : list UserDoc) : forall st,
  exec (for_each l (fun user_data =>
          emit (ReplyHTML (chat_id (chat m)) (user_info_html user_data)) ;;
          log_message (from_user m) (text m) (user_info_html user_data))%py) st =
  with_effects
    (flat_map (fun d => ReplyHTML (chat_id (chat m)) (user_info_html d) ::
                        log_entries (LOG_CHANNEL_ID st) (from_user m) (text m)
                          (user_info_html d)) l) st.
Proof.
  induction l as [|d l IH]; intros st.
  - cbn [for_each flat_map]. symmetry. apply with_effects_nil.
  - cbn [for_each flat_map]. rewrite exec_bind.
    match goal with |- context [snd (?b st)] =>
      replace (snd (b st)) with
        (with_effects (ReplyHTML (chat_id (chat m)) (user_info_html d) ::
                       log_entries (LOG_CHANNEL_ID st) (from_user m) (text m)
                         (user_info_html d)) st)
        by (monad_unfold; state_eq) end.
    rewrite IH, with_effects_app. reflexivity.
Qed.

Lemma html_replies_flat_map (g : UserDoc -> list Effect) (to : Z) l :
  (forall d, exists tail, g d = ReplyHTML to (user_info_html d) :: tail /\
                          forall e, e ∈ tail -> exists c b, e = SendMessage (ChatStr c) b) ->
  omap (fun e => match e with ReplyHTML _ b => Some b | _ => None end) (flat_map g l) =
  user_info_html <$> l.
Proof.
  intros Hg. induction l as [|d l IH]; [done|].
  cbn [flat_map]. rewrite omap_app, IH. destruct (Hg d) as (tail & -> & Ht).
  assert (Hnone : omap (fun e => match e with ReplyHTML _ b => Some b | _ => None end) tail = []).
  { clear -Ht. induction tail as [|e tail IHt]; [done|].
    destruct (Ht e (list_elem_of_here _ _)) as (c & b & ->). cbn [omap].
    apply IHt. intros e' He'. apply Ht. by apply list_elem_of_further. }
  change (ReplyHTML to (user_info_html d) :: tail)
    with ([ReplyHTML to (user_info_html d)] ++ tail).
  rewrite omap_app, Hnone. reflexivity.
Qed.

(** X14.  For the owner, /users answers with one HTML message per user of
    the store, in the order of the store, and changes nothing else.  With
    a log channel each of these answers is followed at once by its mirror
    to the channel; without one nothing is mirrored.  With an empty users
    collection the owner gets no answer at all. *)
Theorem users_lists_the_store (env : Env) (st : State) (m : Message) :
  uid (from_user m) = BOT_OWNER_ID env ->
  let st' := exec (handler env CmdUsers m) st in
  let answer d := ReplyHTML (chat_id (chat m)) (user_info_html d) in
  st' = with_effects (emitted st st') st /\
  emitted st st' =
    flat_map (fun d => answer d :: log_entries (LOG_CHANNEL_ID st) (from_user m) (text m)
                                     (user_info_html d)) (users_collection st) /\
  (forall ch, LOG_CHANNEL_ID st = Some ch -> ch <> "" ->
     emitted st st' =
       flat_map (fun d => [answer d;
                           SendMessage (ChatStr ch)
                             (log_text (from_user m) (text m) (user_info_html d))])
         (users_collection st)) /\
  (Py.truthy (LOG_CHANNEL_ID st) = false -> emitted st st' = answer <$> users_collection st) /\
  omap (fun e => match e with ReplyHTML _ b => Some b | _ => None end) (emitted st st')
    = (user_info_html <$> users_collection st) /\
  (users_collection st = [] -> st' = st).
Proof.
  intros Ho%(is_owner_true env) st' answer. subst st' answer. cbn [handler].
  unfold users_command.
  rewrite Ho. rewrite exec_bind. cbn [fst snd gets]. rewrite users_loop_exec.
  rewrite emitted_with_effects. split; [reflexivity|]. split; [reflexivity|].
  split; [|split; [|split]].
  - intros ch Hch Hne. rewrite Hch. induction (users_collection st) as [|d l IH]; [done|].
    cbn [flat_map]. by rewrite IH, (log_entries_configured ch _ _ _ Hne).
  - intros Hoff. induction (users_collection st) as [|d l IH]; [done|].
    cbn [flat_map]. rewrite IH, fmap_cons. unfold log_entries.
    destruct (LOG_CHANNEL_ID st) as [ch|]; [|done]. cbn in Hoff. by rewrite Hoff.
  - apply (html_replies_flat_map _ (chat_id (chat m))). intros d. eexists. split; [reflexivity|].
    intros e (c & ->)%log_entries_inv. eauto.
  - intros ->. cbn [flat_map]. apply with_effects_nil.
Qed.

(** The owner lists a store with one user, and an empty one. *)
Lemma users_lists_the_store_witness :
  emitted broadcast_state
    (exec (handler sample_env CmdUsers (msg_at owner "/users" 4)) broadcast_state) =
  [ReplyHTML 1 (user_info_html
                  {| ud_user_id := 8; ud_username := None; ud_full_name := "Bob B" |});
   SendMessage (ChatStr "-100")
     (log_text owner "/users"
        (user_info_html {| ud_user_id := 8; ud_username := None; ud_full_name := "Bob B" |}))] /\
  exec (handler sample_env CmdUsers (msg_at owner "/users" 4)) logged_state = logged_state.
Proof.
  assert (Hne : "-100" <> "") by discriminate.
  split.
  - exact (proj1 (proj2 (proj2
      (users_lists_the_store sample_env broadcast_state (msg_at owner "/users" 4) eq_refl)))
      "-100" eq_refl Hne).
  - exact (proj2 (proj2 (proj2 (proj2 (proj2
      (users_lists_the_store sample_env logged_state (msg_at owner "/users" 4) eq_refl)))))
      eq_refl).
Defined.

(** ** Only /ai is rate limited *)

Lemma ignores_ret {A} (a : A) : ignores_rate_limit (ret a).
Proof. by intros v st. Qed.

Lemma ignores_bind {A B} (c : M A) (k : A -> M B) :
  ignores_rate_limit c -> (forall a, ignores_rate_limit (k a)) -> ignores_rate_limit (bind c k).
Proof.
  intros Hc Hk v st. unfold bind. rewrite Hc. destruct (c st) as [a st1]. cbn [fst snd].
  rewrite Hk. by destruct (k a st1).
Qed.

Lemma ignores_for_each {A} (l : list A) (body : A -> M unit) :
  (forall x, ignores_rate_limit (body x)) -> ignores_rate_limit (for_each l body).
Proof.
  intros Hb. induction l as [|x l IH]; [apply ignores_ret|].
  cbn [for_each]. apply ignores_bind; auto.
Qed.

Ltac ignores_step :=
  match goal with
  | |- ignores_rate_limit (bind _ _) => apply ignores_bind; [|intros ?]
  | |- ignores_rate_limit (for_each _ _) => apply ignores_for_each; intros ?
  | |- ignores_rate_limit (match ?x with _ => _ end) => destruct x
  | |- ignores_rate_limit (take_gift_code _) =>
      let v := fresh "v" in let st := fresh "st" in
      intros v st; unfold take_gift_code;
      cbn [gift_codes_collection set_last_ai_use];
      destruct (Mongo.find_one_and_delete _ _); reflexivity
  | |- ignores_rate_limit _ =>
      let v := fresh "v" in let st := fresh "st" in intros v st; reflexivity
  end.

Lemma handler_ignores_rate_limit env c m :
  c <> CmdAi -> ignores_rate_limit (handler env c m).
Proof.
  intros Hc. destruct c; try done; cbn [handler]; unfold_handlers; cbv zeta;
    repeat ignores_step.
Qed.

(** X15.  The cooldown belongs to /ai alone.  Every other command, /proai,
    /modify and /ask included, which reach the same provider, gives the
    same answers and makes the same changes whatever the rate-limit table
    holds, and leaves the table as it is: none of them is ever refused for
    coming too soon after an /ai, and none of them uses up the user's
    cooldown. *)
Theorem cooldown_is_for_ai_only (env : Env) (st : State) (c : Command) (m : Message)
    (table : gmap Z Z) :
  c <> CmdAi ->
  exec (handler env c m) (set_last_ai_use table st) =
    set_last_ai_use table (exec (handler env c m) st) /\
  emitted (set_last_ai_use table st) (exec (handler env c m) (set_last_ai_use table st)) =
    emitted st (exec (handler env c m) st) /\
  last_ai_use (exec (handler env c m) st) = last_ai_use st.
Proof.
  intros Hc. pose proof (handler_ignores_rate_limit env c m Hc table st) as H.
  assert (E : exec (handler env c m) (set_last_ai_use table st) =
              set_last_ai_use table (exec (handler env c m) st)).
  { unfold exec. by rewrite H. }
  split; [exact E|]. split.
  - rewrite E. reflexivity.
  - apply (keeps_exec last_ai_use). by apply handler_keeps_last_ai_use.
Qed.

(** An /ask one second after an /ai is answered as if there had been no
    /ai. *)
Lemma cooldown_is_for_ai_only_witness :
  emitted (set_last_ai_use (<[7 := 100]> ∅) logged_state)
    (exec (handler sample_env CmdAsk (msg_at ada "/ask why" 101))
       (set_last_ai_use (<[7 := 100]> ∅) logged_state)) =
  emitted logged_state
    (exec (handler sample_env CmdAsk (msg_at ada "/ask why" 101)) logged_state).
Proof.
  assert (Hne : CmdAsk <> CmdAi) by discriminate.
  exact (proj1 (proj2 (cooldown_is_for_ai_only sample_env logged_state CmdAsk
                         (msg_at ada "/ask why" 101) (<[7 := 100]> ∅) Hne))).
Defined.

(** ** Timestamps *)

Lemma step_timestamp env st e u t :
  last_ai_use st !! u = Some t ->
  exists t', last_ai_use (step env st e) !! u = Some t' /\ (t' = t \/ t + 5 <= t').
Proof.
  intros Ht. destruct (is_ai_by u e) eqn:E.
  - destruct e as [c m|m|h]; try discriminate. destruct c; try discriminate.
    cbn [is_ai_by] in E. apply bool_decide_eq_true in E.
    cbn [step handler]. rewrite ai_command_exec. cbv zeta. rewrite E, Ht. cbn [too_soon].
    destruct (date m - t <? 5) eqn:Hd.
    + exists t. split; [exact Ht | by left].
    + apply Z.ltb_ge in Hd. exists (date m). split; [|right; lia].
      destruct (Py.nonempty _); cbn; apply lookup_insert_eq.
  - exists t. rewrite (step_keeps_timestamp env u st e E). split; [exact Ht | by left].
Qed.

(** X16.  A user's recorded /ai timestamp is never dropped and never goes
    back: after any sequence of events it is the one recorded before or
    one at least 5 seconds later.  So the accepted /ai invocations of a
    user have dates at least 5 seconds apart, in increasing order, and a
    message dated before the recorded timestamp is never accepted. *)
Theorem timestamps_only_advance (env : Env) (st : State) (es : list Event) (u t : Z) :
  last_ai_use st !! u = Some t ->
  exists t', last_ai_use (steps env st es) !! u = Some t' /\ (t' = t \/ t + 5 <= t').
Proof.
  revert st t. induction es as [|e es IH]; intros st t Ht.
  - exists t. split; [exact Ht | by left].
  - cbn [steps foldl]. fold (steps env (step env st e) es).
    destruct (step_timestamp env st e u t Ht) as (t1 & Ht1 & H1).
    destruct (IH _ t1 Ht1) as (t2 & Ht2 & H2).
    exists t2. split; [exact Ht2 | lia].
Qed.

(** After Ada's /ai at 100, an /ai dated 90 and one dated 107. *)
Lemma timestamps_only_advance_witness :
  exists t', last_ai_use
               (steps sample_env after_first_ai
                  [Incoming CmdAi (msg_at ada "/ai old" 90);
                   Incoming CmdAi (msg_at ada "/ai new" 107)]) !! 7 = Some t' /\
             (t' = 100 \/ 100 + 5 <= t').
Proof.
  exact (timestamps_only_advance sample_env after_first_ai
           [Incoming CmdAi (msg_at ada "/ai old" 90);
            Incoming CmdAi (msg_at ada "/ai new" 107)] 7 100 eq_refl).
Defined.

(** ** Redeeming, once more *)

Lemma redeem_present_exec m st code :
  Py.args (text m) = [code] -> code ∈ codes st ->
  exists d pre post,
    gift_codes_collection st = pre ++ d :: post /\ gc_code d = code /\
    (code ∉ (gc_code <$> pre)) /\
    exec (redeem_command m) st =
    with_effects (Reply (chat_id (chat m)) msg_redeemed ::
                  log_entries (LOG_CHANNEL_ID st) (from_user m) (text m) msg_redeemed)
      (set_subscriptions_collection
         (upgrade (uid (from_user m)) (subscriptions_collection st))
         (set_gift_codes_collection (pre ++ post) st)).
Proof.
  intros Ha Hin. destruct (take_present _ _ Hin) as (d & pre & post & Hc & Hd & Hpre & Hf).
  exists d, pre, post. repeat split; try done.
  rewrite redeem_command_exec, Ha. cbv zeta. by rewrite Hf.
Qed.

(** X17.  A successful /redeem removes exactly one document from the gift
    codes: the first one that carries the code.  The documents before and
    after it stay, in their order; so a code the store holds several times
    can be redeemed as many times, and no other code is ever affected. *)
Theorem redeem_consumes_one_document (st : State) (m : Message) (code : string) :
  Py.args (text m) = [code] ->
  code ∈ codes st ->
  let st' := exec (redeem_command m) st in
  exists d pre post,
    gift_codes_collection st = pre ++ d :: post /\
    gift_codes_collection st' = pre ++ post /\
    gc_code d = code /\ (code ∉ (gc_code <$> pre)) /\
    (length (codes st') + 1 = length (codes st))%nat /\
    (code ∈ codes st' <-> code ∈ (gc_code <$> post)).
Proof.
  intros Ha Hin st'. subst st'.
  destruct (redeem_present_exec m st code Ha Hin) as (d & pre & post & Hc & Hd & Hpre & ->).
  exists d, pre, post. unfold codes.
  cbn [gift_codes_collection with_effects set_outbox set_subscriptions_collection
       set_gift_codes_collection].
  split; [done|]. split; [done|]. split; [done|]. split; [done|]. split.
  - rewrite Hc, !length_fmap, !length_app. cbn [length]. lia.
  - rewrite fmap_app, elem_of_app. split; [by intros [?|?] | by right].
Qed.

(** A code held twice is redeemed twice. *)
Lemma redeem_consumes_one_document_witness :
  exists d pre post,
    gift_codes_collection
      (set_gift_codes_collection
         [{| gc_code := "ABC123"; gc_plan := professional |};
          {| gc_code := "ABC123"; gc_plan := professional |}] logged_state)
    = pre ++ d :: post /\
    gift_codes_collection
      (exec (redeem_command (msg_at ada "/redeem ABC123" 10))
         (set_gift_codes_collection
            [{| gc_code := "ABC123"; gc_plan := professional |};
             {| gc_code := "ABC123"; gc_plan := professional |}] logged_state))
    = pre ++ post.
Proof.
  destruct (redeem_consumes_one_document
              (set_gift_codes_collection
                 [{| gc_code := "ABC123"; gc_plan := professional |};
                  {| gc_code := "ABC123"; gc_plan := professional |}] logged_state)
              (msg_at ada "/redeem ABC123" 10) "ABC123" eq_refl (list_elem_of_here _ _))
    as (d & pre & post & H1 & H2 & _).
  exists d, pre, post. split; [exact H1 | exact H2].
Defined.

Lemma upgrade_professional u c :
  is_professional (Mongo.find_one (by_user_id u) c) = true -> upgrade u c = c.
Proof.
  unfold upgrade, Mongo.find_one. induction c as [|d c IH]; [done|].
  cbn [find Mongo.update_one_upsert]. destruct (by_user_id u d) eqn:E.
  - cbn [is_professional]. intros Hp%bool_decide_eq_true. destruct d as [i p].
    cbn in *. by rewrite Hp.
  - intros H. by rewrite IH.
Qed.

(** X18.  A user who already has the professional plan and redeems a valid
    code loses the code for nothing: the code is removed from the store,
    the answer is the success message, and the subscriptions are exactly as
    before. *)
Theorem redeem_when_professional_wastes_the_code (st : State) (m : Message) (code : string) :
  Py.args (text m) = [code] ->
  code ∈ codes st ->
  professional_now st (uid (from_user m)) = true ->
  let st' := exec (redeem_command m) st in
  subscriptions_collection st' = subscriptions_collection st /\
  (length (codes st') + 1 = length (codes st))%nat /\
  emitted st st' = Reply (chat_id (chat m)) msg_redeemed ::
                   log_entries (LOG_CHANNEL_ID st) (from_user m) (text m) msg_redeemed.
Proof.
  intros Ha Hin Hp st'. subst st'.
  destruct (redeem_present_exec m st code Ha Hin) as (d & pre & post & Hc & Hd & Hpre & ->).
  unfold codes.
  cbn [subscriptions_collection gift_codes_collection with_effects set_outbox
       set_subscriptions_collection set_gift_codes_collection].
  split; [by apply upgrade_professional|]. split.
  - rewrite Hc, !length_fmap, !length_app. cbn [length]. lia.
  - apply emitted_outbox. reflexivity.
Qed.

Lemma redeem_when_professional_wastes_the_code_witness :
  subscriptions_collection
    (exec (redeem_command (msg_at ada "/redeem ABC123" 12))
       (set_gift_codes_collection
          [{| gc_code := "ABC123"; gc_plan := professional |}] after_redeem))
  = subscriptions_collection after_redeem.
Proof.
  exact (proj1 (redeem_when_professional_wastes_the_code
                  (set_gift_codes_collection
                     [{| gc_code := "ABC123"; gc_plan := professional |}] after_redeem)
                  (msg_at ada "/redeem ABC123" 12) "ABC123" eq_refl
                  (list_elem_of_here _ _) eq_refl)).
Defined.

(** ** The professional plan *)

Lemma subscriptions_step env st e :
  subscriptions_collection (step env st e) = subscriptions_collection st \/
  exists m code, e = Incoming CmdRedeem m /\ Py.args (text m) = [code] /\ code ∈ codes st /\
    subscriptions_collection (step env st e) =
      upgrade (uid (from_user m)) (subscriptions_collection st).
Proof.
  destruct e as [c m|m|h]; cbn [step].
  - destruct (decide (c = CmdRedeem)) as [->|Hc].
    + cbn [handler]. rewrite redeem_command_exec.
      destruct (Py.args (text m)) as [|code [|]] eqn:Ha; try by left. cbv zeta.
      destruct (decide (code ∈ codes st)) as [Hin|Hno].
      * right. exists m, code. destruct (take_present _ _ Hin) as (d & pre & post & _ & _ & _ & ->).
        by repeat split.
      * left. by rewrite (take_absent _ _ Hno).
    + left. apply (keeps_exec subscriptions_collection). by apply handler_keeps_subscriptions.
  - left. by apply (keeps_exec subscriptions_collection), joined_keeps.
  - left. by pose proof (tick_frame env h st) as (_ & _ & -> & _).
Qed.

Lemma professional_step env st e u :
  (professional_now st u = true -> professional_now (step env st e) u = true) /\
  (professional_now (step env st e) u = true ->
     professional_now st u = true \/
     exists m code, e = Incoming CmdRedeem m /\ uid (from_user m) = u /\
       Py.args (text m) = [code] /\ code ∈ codes st).
Proof.
  unfold professional_now.
  destruct (subscriptions_step env st e) as [-> | (m & code & -> & Ha & Hin & ->)].
  - split; [done | by left].
  - destruct (decide (uid (from_user m) = u)) as [<- | Hne].
    + split; [intros _; apply find_one_upgrade|]. intros _. right. by exists m, code.
    + rewrite (find_one_upgrade_other _ _ _ Hne). split; [done | by left].
Qed.

Lemma professional_steps env es u : forall st,
  professional_now st u = true -> professional_now (steps env st es) u = true.
Proof.
  induction es as [|e es IH]; intros st H; [done|].
  cbn [steps foldl]. fold (steps env (step env st e) es).
  apply IH. by apply professional_step.
Qed.

(** X19.  The professional plan is never lost or downgraded, and it is
    gained in one way only: a user's plan, as /proai reads it, changes only
    by a /redeem of that very user with a code the store holds.  Without
    such an event a user who is not professional stays so, whatever the
    others do. *)
Theorem plan_changes_only_by_own_redeem (env : Env) (st : State) (es : list Event) (u : Z) :
  (professional_now st u = true -> professional_now (steps env st es) u = true) /\
  ((forall e, e ∈ es -> is_command CmdRedeem e && sent_by u e = false) ->
     professional_now (steps env st es) u = professional_now st u) /\
  (forall e, professional_now st u = false -> professional_now (step env st e) u = true ->
     exists m code, e = Incoming CmdRedeem m /\ uid (from_user m) = u /\
       Py.args (text m) = [code] /\ code ∈ codes st).
Proof.
  split; [apply professional_steps|]. split.
  - revert st. induction es as [|e es IH]; intros st Hes; [done|].
    cbn [steps foldl]. fold (steps env (step env st e) es).
    rewrite IH by (intros e2 He2; apply Hes; by apply list_elem_of_further).
    destruct (professional_step env st e u) as [Hup Hdown].
    destruct (professional_now st u) eqn:Hb; [by apply Hup|].
    destruct (professional_now (step env st e) u) eqn:Ha; [|done].
    destruct (Hdown eq_refl) as [? | (m & code & -> & Hu & _)]; [done|].
    specialize (Hes _ (list_elem_of_here _ _)). cbn [is_command sent_by] in Hes.
    rewrite !bool_decide_eq_true_2 in Hes by done. discriminate.
  - intros e Hb Ha. destruct (professional_step env st e u) as [_ Hdown].
    destruct (Hdown Ha) as [? | ?]; [congruence | done].
Qed.

(** Bob redeems, Ada does not: Ada is not professional. *)
Lemma plan_changes_only_by_own_redeem_witness :
  professional_now
    (steps sample_env one_code_state
       [Incoming CmdRedeem (msg_at bob "/redeem ABC123" 10);
        Incoming CmdProai (msg_at ada "/proai a cat" 11)]) 7 = false.
Proof.
  destruct (plan_changes_only_by_own_redeem sample_env one_code_state
              [Incoming CmdRedeem (msg_at bob "/redeem ABC123" 10);
               Incoming CmdProai (msg_at ada "/proai a cat" 11)] 7) as (_ & H & _).
  rewrite H; [reflexivity|].
  intros e He. apply elem_of_cons in He as [-> | He]; [reflexivity|].
  apply list_elem_of_singleton in He as ->. reflexivity.
Defined.

(** X20.  Once a user has redeemed a code the store holds, every /proai of
    that user with a prompt starts the professional flow on that prompt,
    whatever happened in between and whatever the rate-limit table holds. *)
Theorem redeem_unlocks_proai (env : Env) (st : State) (mr mp : Message) (code : string)
    (es : list Event) :
  Py.args (text mr) = [code] ->
  code ∈ codes st ->
  uid (from_user mp) = uid (from_user mr) ->
  Py.rest (text mp) <> "" ->
  let st1 := steps env st (Incoming CmdRedeem mr :: es) in
  let st2 := exec (handler env CmdProai mp) st1 in
  professional_now st1 (uid (from_user mr)) = true /\
  tasks st2 = tasks st1 ++
    [new_task (generate_proai_task (from_user mp) (text mp) (Py.rest (text mp)))] /\
  user_tasks st2 !! uid (from_user mp) = Some (length (tasks st1)) /\
  emitted st1 st2 = [Reply (chat_id (chat mp)) msg_generating_many].
Proof.
  intros Ha Hin Hu Hp%nonempty_true st1 st2.
  assert (Hpro : professional_now st1 (uid (from_user mr)) = true).
  { subst st1. cbn [steps foldl]. fold (steps env (step env st (Incoming CmdRedeem mr)) es).
    apply professional_steps. cbn [step handler].
    destruct (redeem_present_exec mr st code Ha Hin) as (d & pre & post & _ & _ & _ & ->).
    unfold professional_now. cbn. apply find_one_upgrade. }
  split; [exact Hpro|].
  assert (Hs : starts_task CmdProai st1 mp = true).
  { cbn [starts_task]. rewrite Hu. unfold professional_now in Hpro. by rewrite Hpro, Hp. }
  subst st2. rewrite (start_registers env CmdProai mp st1 Hs).
  split; [reflexivity|]. split; [apply lookup_insert_eq|].
  apply emitted_outbox. reflexivity.
Qed.

Lemma redeem_unlocks_proai_witness :
  length (tasks
    (exec (handler sample_env CmdProai (msg_at ada "/proai a cat" 30))
       (steps sample_env one_code_state
          [Incoming CmdRedeem (msg_at ada "/redeem ABC123" 10);
           Incoming CmdAi (msg_at ada "/ai a dog" 20)]))) = 2%nat.
Proof.
  assert (Hne : Py.rest (text (msg_at ada "/proai a cat" 30)) <> "") by discriminate.
  destruct (redeem_unlocks_proai sample_env one_code_state
              (msg_at ada "/redeem ABC123" 10) (msg_at ada "/proai a cat" 30) "ABC123"
              [Incoming CmdAi (msg_at ada "/ai a dog" 20)]
              eq_refl (list_elem_of_here _ _) eq_refl Hne) as (_ & Ht & _).
  rewrite Ht. reflexivity.
Defined.
(** ** /generate *)

Lemma generate_owner_exec env m st :
  is_owner env (uid (from_user m)) = true ->
  exec (handler env CmdGenerate m) st = with_effects [Raise NameError] st.
Proof. intros Ho. cbn [handler]. unfold generate_command. by rewrite Ho. Qed.

(** No step adds a document to the gift codes. *)
Lemma gift_codes_step env st e :
  gift_codes_collection (step env st e) `sublist_of` gift_codes_collection st.
Proof.
  destruct e as [c m|m|h]; cbn [step].
  - destruct (decide (c = CmdRedeem)) as [->|Hc].
    + cbn [handler]. rewrite redeem_command_exec.
      destruct (Py.args (text m)) as [|code [|]]; try done. cbv zeta.
      destruct (decide (code ∈ codes st)) as [Hin|Hno].
      * destruct (take_present _ _ Hin) as (d & pre & post & Hc & Hd & Hpre & ->).
        cbn. rewrite Hc. apply sublist_app; [done|]. by apply sublist_cons.
      * by rewrite (take_absent _ _ Hno).
    + destruct (decide (c = CmdGenerate)) as [->|Hg].
      * cbn [handler]. unfold generate_command. destruct (is_owner env _); [done|].
        by rewrite exec_reply_log.
      * by rewrite (keeps_exec gift_codes_collection _ st
                      (handler_keeps_gift_codes env c m Hc Hg)).
  - by rewrite (keeps_exec gift_codes_collection _ st
                  (joined_keeps gift_codes_collection m
                     (fun _ _ => eq_refl) (fun _ _ => eq_refl))).
  - by pose proof (tick_frame env h st) as (_ & _ & _ & ->).
Qed.

Lemma gift_codes_steps env es : forall st,
  gift_codes_collection (steps env st es) `sublist_of` gift_codes_collection st.
Proof.
  induction es as [|e es IH]; intros st; [done|].
  cbn [steps foldl]. fold (steps env (step env st e) es).
  etrans; [apply IH | apply gift_codes_step].
Qed.

(** With no gift code in the store, no step changes the subscriptions. *)
Lemma no_codes_steps env es : forall st,
  gift_codes_collection st = [] ->
  subscriptions_collection (steps env st es) = subscriptions_collection st.
Proof.
  induction es as [|e es IH]; intros st Hnil; [done|].
  cbn [steps foldl]. fold (steps env (step env st e) es).
  assert (Hnil' : gift_codes_collection (step env st e) = []).
  { pose proof (gift_codes_step env st e) as Hs. rewrite Hnil in Hs.
    by apply sublist_nil_r in Hs. }
  rewrite (IH _ Hnil').
  destruct (subscriptions_step env st e) as [-> | (m & code & _ & _ & Hin & _)]; [done|].
  unfold codes in Hin. rewrite Hnil in Hin. by apply elem_of_nil in Hin.
Qed.

(** X21.  The owner's /generate issues no code: [generate_code] is bound
    nowhere in bot.py, the call raises NameError before the insert and the
    reply, and the handler ends there without an answer.  Hence no event
    ever adds a document to the gift codes: whatever happens, the
    collection is what is left of the initial one, in the same order.
    Started on a store without gift codes, no user ever becomes
    professional. *)
Theorem generate_never_issues_a_code (env : Env) (st : State) :
  (forall m, uid (from_user m) = BOT_OWNER_ID env ->
     exec (handler env CmdGenerate m) st = with_effects [Raise NameError] st) /\
  (forall es,
     gift_codes_collection (steps env st es) `sublist_of` gift_codes_collection st) /\
  (gift_codes_collection st = [] ->
   forall es u,
     gift_codes_collection (steps env st es) = [] /\
     subscriptions_collection (steps env st es) = subscriptions_collection st /\
     professional_now (steps env st es) u = professional_now st u).
Proof.
  split; [|split].
  - intros m Ho%(is_owner_true env). by apply generate_owner_exec.
  - intros es. apply gift_codes_steps.
  - intros Hnil es u. split; [|split].
    + pose proof (gift_codes_steps env es st) as Hs. rewrite Hnil in Hs.
      by apply sublist_nil_r in Hs.
    + by apply no_codes_steps.
    + unfold professional_now. by rewrite no_codes_steps.
Qed.

(** The owner sends /generate, Ada guesses a code and asks for /proai. *)
Lemma generate_never_issues_a_code_witness :
  emitted logged_state
    (exec (handler sample_env CmdGenerate (msg_at owner "/generate" 5)) logged_state)
  = [Raise NameError] /\
  professional_now
    (steps sample_env logged_state
       [Incoming CmdGenerate (msg_at owner "/generate" 5);
        Incoming CmdRedeem (msg_at ada "/redeem CODE0" 6);
        Incoming CmdProai (msg_at ada "/proai a cat" 7)]) 7 = false.
Proof.
  destruct (generate_never_issues_a_code sample_env logged_state) as (Hg & _ & Hn).
  split.
  - rewrite (Hg (msg_at owner "/generate" 5) eq_refl). by apply emitted_with_effects.
  - by rewrite (proj2 (proj2 (Hn eq_refl _ 7))).
Defined.

(** ** Codes with a blank *)

Lemma split_not_one s : no_blank s = false -> length (Py.split s) <> 1%nat.
Proof.
  intros Hb Hl. destruct (Py.split s) as [|w [|w' l]] eqn:E; try done.
  apply split_one_piece in E as [E _]. congruence.
Qed.

(** X25.  A gift code with a blank in it cannot be redeemed, even when the
    store holds it: [split(' ')] cuts "/redeem <code>" into more than one
    argument, the handler answers with the usage text, and the store is as
    before. *)
Theorem code_with_a_blank_is_not_redeemable (st : State) (m : Message) (code : string) :
  no_blank code = false ->
  text m = "/redeem" +:+ " " +:+ code ->
  exec (redeem_command m) st =
  with_effects (Reply (chat_id (chat m)) msg_redeem_usage ::
                log_entries (LOG_CHANNEL_ID st) (from_user m) (text m) msg_redeem_usage) st.
Proof.
  intros Hb Ht.
  assert (Hargs : Py.args (text m) = Py.split code).
  { rewrite Ht. unfold Py.args. by rewrite (split_command "/redeem" code eq_refl). }
  pose proof (split_not_one code Hb) as Hl. rewrite <- Hargs in Hl.
  rewrite redeem_command_exec. by destruct (Py.args (text m)) as [|a [|b l]].
Qed.

Lemma code_with_a_blank_is_not_redeemable_witness :
  codes
    (exec (redeem_command (msg_at ada "/redeem AB 12" 6))
       (set_gift_codes_collection [{| gc_code := "AB 12"; gc_plan := professional |}]
          logged_state))
  = ["AB 12"].
Proof.
  by rewrite (code_with_a_blank_is_not_redeemable
                (set_gift_codes_collection [{| gc_code := "AB 12"; gc_plan := professional |}]
                   logged_state)
                (msg_at ada "/redeem AB 12" 6) "AB 12" eq_refl eq_refl).
Defined.

(** ** The answer of the provider *)

Lemma contains_dict k d :
  PyJson.contains k (JDict d) = Some true <-> exists v, PyJson.lookup k d = Some v.
Proof.
  cbn. destruct (PyJson.lookup k d) as [v|]; split; try done.
  - intros _. by exists v.
  - by intros [v ?].
Qed.

(** X22.  [generate_image] returns something other than [None] in one case
    only: the response decodes to an object with a "data" entry that is a
    non-empty list whose first element is an object with a "url" entry,
    and that entry is what it returns, without logging anything.  An
    object without "data" (the provider's error answer) gives [None] and
    the line "Error in response"; every other shape of answer (an empty
    "data" list, a first element without "url", a body that is no object,
    a transport or decoding error) gives [None] through the [except] branch
    and the line "Error generating image". *)
Theorem generate_image_result_shapes (h : Http) :
  (forall v, fst (generate_image_result h) = v -> v <> JNull ->
     exists d rest item,
       h = Body (JDict d) /\
       PyJson.lookup "data" d = Some (JList (JDict item :: rest)) /\
       PyJson.lookup "url" item = Some v /\
       snd (generate_image_result h) = NoError) /\
  (forall d, h = Body (JDict d) -> PyJson.lookup "data" d = None ->
     generate_image_result h = (JNull, ErrorInResponse)) /\
  (forall d data, h = Body (JDict d) -> PyJson.lookup "data" d = Some data ->
     (forall item rest, data = JList (JDict item :: rest) -> PyJson.lookup "url" item = None) ->
     generate_image_result h = (JNull, ErrorGenerating)) /\
  (forall e, h = Raises e -> generate_image_result h = (JNull, ErrorGenerating)) /\
  (forall d rest item url, h = Body (JDict d) ->
     PyJson.lookup "data" d = Some (JList (JDict item :: rest)) ->
     PyJson.lookup "url" item = Some url ->
     generate_image_result h = (url, NoError)).
Proof.
  split; [|split; [|split; [|split]]].
  - intros v Hv Hne. destruct h as [e|r]; [cbn in Hv; congruence|].
    unfold generate_image_result in *.
    destruct (PyJson.contains "data" r) as [[|]|] eqn:Ec; try (cbn in Hv; congruence).
    destruct (PyJson.item "data" r) as [data|] eqn:Ed; [|cbn in Hv; congruence].
    destruct (PyJson.first data) as [x|] eqn:Ef; [|cbn in Hv; congruence].
    destruct (PyJson.item "url" x) as [url|] eqn:Eu; [|cbn in Hv; congruence].
    cbn in Hv. subst url.
    destruct r as [| | | | |l|d]; try discriminate. cbn in Ed.
    destruct x as [| | | | |l|item]; try discriminate. cbn in Eu.
    destruct data as [| | | |s|l|d']; try discriminate.
    + destruct s; discriminate.
    + destruct l as [|y rest]; [discriminate|]. cbn in Ef. injection Ef as ->.
      exists d, rest, item. by repeat split.
  - intros d -> Hd. unfold generate_image_result. cbn. by rewrite Hd.
  - intros d data -> Hd Hshape. unfold generate_image_result.
    cbn [PyJson.contains PyJson.item]. rewrite Hd.
    destruct (PyJson.first data) as [x|] eqn:Ef; [|done].
    destruct (PyJson.item "url" x) as [url|] eqn:Eu; [|done]. exfalso.
    destruct x as [| | | | |l|item]; try discriminate. cbn in Eu.
    destruct data as [| | | |s|l|d']; try discriminate.
    + destruct s; discriminate.
    + destruct l as [|y rest]; [discriminate|]. cbn in Ef. injection Ef as ->.
      specialize (Hshape item rest eq_refl). congruence.
  - by intros e ->.
  - intros d rest item url -> Hd Hu. unfold generate_image_result.
    cbn [PyJson.contains PyJson.item]. rewrite Hd. cbn [PyJson.first PyJson.item].
    by rewrite Hu.
Qed.

Lemma generate_image_result_shapes_witness :
  generate_image_result (served "https://img/1") = (JStr "https://img/1", NoError) /\
  generate_image_result refused = (JNull, ErrorInResponse) /\
  generate_image_result (Body (JDict [("data", JList [])])) = (JNull, ErrorGenerating).
Proof.
  split; [|split].
  - exact (proj2 (proj2 (proj2 (proj2 (generate_image_result_shapes (served "https://img/1")))))
             _ [] _ (JStr "https://img/1") eq_refl eq_refl eq_refl).
  - exact (proj1 (proj2 (generate_image_result_shapes refused)) _ eq_refl eq_refl).
  - apply (proj1 (proj2 (proj2 (generate_image_result_shapes
             (Body (JDict [("data", JList [])]))))) _ (JList []) eq_refl eq_refl).
    intros item rest H. discriminate H.
Defined.

(** ** Every command is answered *)

Lemma extends_bind {A B} (c : M A) (k : A -> M B) :
  extends c -> (forall a, extends (k a)) -> extends (bind c k).
Proof.
  intros Hc Hk st. unfold bind. destruct (c st) as [a st1] eqn:E.
  destruct (Hc st) as [es1 H1]. rewrite E in H1. cbn [snd] in H1.
  destruct (Hk a st1) as [es2 H2]. exists (es1 ++ es2). by rewrite H2, H1, app_assoc.
Qed.

Lemma extends_for_each {A} (l : list A) (body : A -> M unit) :
  (forall x, extends (body x)) -> extends (for_each l body).
Proof.
  intros Hb. induction l as [|x l IH].
  - intros st. exists []. cbn. by rewrite app_nil_r.
  - cbn [for_each]. apply extends_bind; auto.
Qed.

Lemma answers_bind_l {A B} to (c : M A) (k : A -> M B) :
  answers to c -> (forall a, extends (k a)) -> answers to (bind c k).
Proof.
  intros Hc Hk st. unfold bind. destruct (c st) as [a st1] eqn:E.
  destruct (Hc st) as (es1 & H1 & e & He & Ha). rewrite E in H1. cbn [snd] in H1.
  destruct (Hk a st1) as [es2 H2]. exists (es1 ++ es2).
  split; [by rewrite H2, H1, app_assoc|]. exists e. split; [|done].
  apply elem_of_app. by left.
Qed.

Lemma answers_bind_r {A B} to (c : M A) (k : A -> M B) :
  extends c -> (forall a, answers to (k a)) -> answers to (bind c k).
Proof.
  intros Hc Hk st. unfold bind. destruct (c st) as [a st1] eqn:E.
  destruct (Hc st) as [es1 H1]. rewrite E in H1. cbn [snd] in H1.
  destruct (Hk a st1) as (es2 & H2 & e & He & Ha). exists (es1 ++ es2).
  split; [by rewrite H2, H1, app_assoc|]. exists e. split; [|done].
  apply elem_of_app. by right.
Qed.

Lemma answers_reply m body : answers (chat_id (chat m)) (reply m body).
Proof.
  intros st. exists [Reply (chat_id (chat m)) body]. split; [reflexivity|].
  eexists. split; [apply list_elem_of_here|]. cbn. by apply bool_decide_eq_true.
Qed.

Lemma answers_reply_photo m url :
  answers (chat_id (chat m)) (emit (ReplyPhoto (chat_id (chat m)) url)).
Proof.
  intros st. exists [ReplyPhoto (chat_id (chat m)) url]. split; [reflexivity|].
  eexists. split; [apply list_elem_of_here|]. cbn. by apply bool_decide_eq_true.
Qed.

Ltac extends_step :=
  match goal with
  | |- extends (bind _ _) => apply extends_bind; [|intros ?]
  | |- extends (for_each _ _) => apply extends_for_each; intros ?
  | |- extends (match ?x with _ => _ end) => destruct x
  | |- extends (take_gift_code _) =>
      let st := fresh "st" in
      intros st; unfold take_gift_code; destruct (Mongo.find_one_and_delete _ _);
      exists []; cbn; by rewrite app_nil_r
  | |- extends _ =>
      let st := fresh "st" in
      intros st; first [ by (eexists; reflexivity) | by (exists []; cbn; rewrite app_nil_r) ]
  end.

Ltac answers_step :=
  match goal with
  | |- answers _ (bind (reply _ _) _) =>
      apply answers_bind_l; [apply answers_reply | intros ?; repeat extends_step]
  | |- answers _ (bind (emit (ReplyPhoto _ _)) _) =>
      apply answers_bind_l; [apply answers_reply_photo | intros ?; repeat extends_step]
  | |- answers _ (reply _ _) => apply answers_reply
  | |- answers _ (bind _ _) => apply answers_bind_r; [repeat extends_step | intros ?]
  | |- answers _ (match ?x with _ => _ end) => destruct x
  end.

Lemma handler_answers env c m :
  c <> CmdUsers -> c <> CmdVoice -> c <> CmdGenerate -> c <> CmdModify ->
  answers (chat_id (chat m)) (handler env c m).
Proof.
  intros Hu Hv Hg Hm. destruct c; try done; cbn [handler]; unfold_handlers; cbv zeta;
    repeat answers_step.
Qed.

Lemma answers_emitted {A} to (c : M A) st :
  answers to c -> exists e, e ∈ emitted st (exec c st) /\ is_answer to e = true.
Proof.
  intros H. destruct (H st) as (es & Hes & e & He & Ha).
  exists e. split; [|done]. unfold exec. by rewrite (emitted_outbox _ _ _ Hes).
Qed.

Lemma voice_exec env m st :
  Py.nonempty (Py.rest (text m)) = true ->
  exec (voice_command env m) st =
  with_effects
    (PollyRequest (Py.rest (text m)) ::
     match synthesize_speech env (Py.rest (text m)) with
     | inl audio =>
         [WriteFile voice_file audio; SendAudio (uid (from_user m)) audio] ++
         log_entries (LOG_CHANNEL_ID st) (from_user m) (text m) "Audio generated and sent."
     | inr e =>
         [LogError ("Error generating voice: " +:+ e);
          Reply (chat_id (chat m)) msg_voice_error] ++
         log_entries (LOG_CHANNEL_ID st) (from_user m) (text m) msg_voice_error
     end) st.
Proof.
  intros Hp. unfold voice_command. rewrite Hp.
  destruct (synthesize_speech env _); monad_unfold; state_eq.
Qed.

(** X23.  Every command is answered in the chat it came from, by a text, an
    HTML text or a photo sent as a reply, in every state, with four
    exceptions.  /users by the owner with an empty users collection issues
    nothing at all.  /voice with a text the speech service accepts sends the
    audio to the sender's own chat and answers nothing in the chat of the
    command.  /generate by the owner and /modify in reply to a photo raise
    an exception and answer nothing. *)
Theorem every_command_is_answered (env : Env) (st : State) (c : Command) (m : Message) :
  let to := chat_id (chat m) in
  let es := emitted st (exec (handler env c m) st) in
  (c <> CmdUsers -> c <> CmdVoice -> c <> CmdGenerate -> c <> CmdModify ->
     exists e, e ∈ es /\ is_answer to e = true) /\
  (c = CmdUsers ->
     (is_owner env (uid (from_user m)) = true -> users_collection st = [] -> es = []) /\
     (is_owner env (uid (from_user m)) = false \/ users_collection st <> [] ->
        exists e, e ∈ es /\ is_answer to e = true)) /\
  (c = CmdVoice ->
     (forall audio, Py.rest (text m) <> "" ->
        synthesize_speech env (Py.rest (text m)) = inl audio ->
        SendAudio (uid (from_user m)) audio ∈ es /\ forall e, e ∈ es -> is_answer to e = false) /\
     (Py.rest (text m) = "" \/ (exists e, synthesize_speech env (Py.rest (text m)) = inr e) ->
        exists e, e ∈ es /\ is_answer to e = true)) /\
  (c = CmdGenerate ->
     (is_owner env (uid (from_user m)) = true -> es = [Raise NameError]) /\
     (is_owner env (uid (from_user m)) = false ->
        exists e, e ∈ es /\ is_answer to e = true)) /\
  (c = CmdModify ->
     (forall f, replied_photo m = Some f -> es = [Raise TypeError]) /\
     (replied_photo m = None -> exists e, e ∈ es /\ is_answer to e = true)).
Proof.
  intros to es. subst es. split; [|split; [|split; [|split]]].
  - intros Hu Hv Hg Hm. apply answers_emitted. by apply handler_answers.
  - intros ->. cbn [handler]. unfold users_command. split.
    + intros -> Hnil. rewrite exec_bind. cbn [fst snd gets]. rewrite users_loop_exec, Hnil.
      cbn [flat_map]. by rewrite emitted_with_effects.
    + destruct (is_owner env _) eqn:Eo.
      * intros [? | Hne]; [done|]. rewrite exec_bind. cbn [fst snd gets].
        rewrite users_loop_exec, emitted_with_effects.
        destruct (users_collection st) as [|d l]; [done|]. cbn [flat_map].
        eexists. split; [apply list_elem_of_here|]. cbn. by apply bool_decide_eq_true.
      * intros _. apply answers_emitted. repeat answers_step.
  - intros ->. cbn [handler]. split.
    + intros audio Hp%nonempty_true Hs. rewrite (voice_exec env m st Hp), Hs.
      rewrite emitted_with_effects. split.
      * do 2 apply list_elem_of_further. apply list_elem_of_here.
      * intros e [-> | [-> | [-> | He]%elem_of_cons]%elem_of_cons]%elem_of_cons; try done.
        by apply log_entries_inv in He as (ch & ->).
    + intros [Hp | [e He]].
      * apply nonempty_false in Hp. unfold voice_command. rewrite Hp.
        apply answers_emitted. repeat answers_step.
      * destruct (Py.nonempty (Py.rest (text m))) eqn:Hp.
        -- rewrite (voice_exec env m st Hp), He, emitted_with_effects.
           eexists. split; [do 2 apply list_elem_of_further; apply list_elem_of_here|].
           cbn. by apply bool_decide_eq_true.
        -- unfold voice_command. rewrite Hp. apply answers_emitted. repeat answers_step.
  - intros ->. split.
    + intros Ho. rewrite (generate_owner_exec env m st Ho). apply emitted_with_effects.
    + intros Ho. cbn [handler]. unfold generate_command. rewrite Ho.
      apply answers_emitted. repeat answers_step.
  - intros ->. split.
    + intros f Hf. rewrite (modify_raises env m st f Hf). apply emitted_with_effects.
    + intros Hf. cbn [handler]. unfold modify_command. rewrite exec_bind.
      cbn [fst snd gets]. rewrite Hf. apply answers_emitted.
      unfold call_generate_image. repeat answers_step.
Qed.

(** ** Replaced tasks *)

Lemma handler_keeps_tasks env c m :
  c <> CmdAi -> c <> CmdProai -> c <> CmdCancelai -> c <> CmdCancelproai ->
  keeps tasks (handler env c m).
Proof.
  intros H1 H2 H3 H4. destruct c; try done; cbn [handler]; unfold_handlers; keeps_handler.
Qed.

Lemma tick_other env h h' st : h' <> h -> tasks (tick env h' st) !! h = tasks st !! h.
Proof.
  intros Hne. unfold tick. destruct (tasks st !! h') as [t|]; [|done].
  destruct (t_done t); [done|]. destruct (t_must_cancel t).
  - cbn. by apply list_lookup_insert_ne.
  - pose proof (resume_frame env (t_coro t) st) as H. cbv zeta in H.
    destruct (resume env (t_coro t) st) as [[k|] st1]; cbn [snd] in H;
      destruct H as (Ht & _); cbn; rewrite list_lookup_insert_ne by done; by rewrite Ht.
Qed.

Lemma unregistered_step env st e h :
  e <> Turn h ->
  (forall u, user_tasks st !! u <> Some h) -> (h < length (tasks st))%nat ->
  tasks (step env st e) !! h = tasks st !! h /\
  (forall u, user_tasks (step env st e) !! u <> Some h) /\
  (h < length (tasks (step env st e)))%nat.
Proof.
  intros He Hu Hh. destruct e as [c m|m|h']; cbn [step].
  - destruct (starts_task c st m) eqn:Es.
    + rewrite (start_registers env c m st Es). cbn. split; [|split].
      * by rewrite lookup_app_l.
      * intros u. destruct (decide (u = uid (from_user m))) as [->|Hne].
        -- rewrite lookup_insert_eq. intros [= E]. lia.
        -- rewrite lookup_insert_ne by done. apply Hu.
      * rewrite length_app. lia.
    + destruct (decide (c = CmdCancelai \/ c = CmdCancelproai)) as [Hc|Hc].
      * rewrite (cancel_handler_exec env c m st Hc).
        destruct (live_handle st (uid (from_user m))) as [h'|] eqn:El; [|done].
        apply live_handle_Some in El as [El _]. cbn. split; [|split; [done|]].
        -- apply list_lookup_alter_ne. intros ->. by apply (Hu (uid (from_user m))).
        -- by rewrite length_alter.
      * destruct (decide (c = CmdAi)) as [->|Ha].
        { cbn [handler]. rewrite ai_command_exec. cbv zeta. cbn [starts_task] in Es.
          destruct (too_soon _ _); [done|]. cbn [negb andb] in Es. by rewrite Es. }
        destruct (decide (c = CmdProai)) as [->|Hp].
        { cbn [handler]. rewrite proai_command_exec. cbv zeta. cbn [starts_task] in Es.
          destruct (is_professional _); [|done]. cbn [andb] in Es. by rewrite Es. }
        assert (Ht : tasks (exec (handler env c m) st) = tasks st).
        { apply (keeps_exec tasks). apply handler_keeps_tasks; try done; intros ->; apply Hc; auto. }
        assert (Hr : user_tasks (exec (handler env c m) st) = user_tasks st).
        { apply (keeps_exec user_tasks). by apply handler_keeps_user_tasks. }
        by rewrite Ht, Hr.
  - rewrite (keeps_exec tasks _ st) by (by apply joined_keeps).
    rewrite (keeps_exec user_tasks _ st) by (by apply joined_keeps). done.
  - assert (Hne : h' <> h) by congruence.
    pose proof (tick_frame env h' st) as (Hl & Hr & _).
    rewrite Hl, Hr. split; [by apply tick_other | done].
Qed.

(** X24.  A task whose handle no user holds any more, because a later /ai
    or /proai of its user took its place in the registry, is out of reach:
    no command of anyone, and no turn of another task, changes it, asks it
    to cancel or registers it again; it changes only by its own turns. *)
Theorem replaced_task_is_out_of_reach (env : Env) (st : State) (h : nat) (es : list Event) :
  (forall u, user_tasks st !! u <> Some h) ->
  (h < length (tasks st))%nat ->
  (forall e, e ∈ es -> e <> Turn h) ->
  tasks (steps env st es) !! h = tasks st !! h /\
  (forall u, user_tasks (steps env st es) !! u <> Some h).
Proof.
  revert st. induction es as [|e es IH]; intros st Hu Hh Hes; [done|].
  cbn [steps foldl]. fold (steps env (step env st e) es).
  destruct (unregistered_step env st e h (Hes e (list_elem_of_here _ _)) Hu Hh)
    as (Ht & Hu' & Hh').
  destruct (IH (step env st e) Hu' Hh') as [It Iu].
  { intros e' He'. apply Hes. by apply list_elem_of_further. }
  split; [by rewrite It | exact Iu].
Qed.

(** Ada's first task, after her second /ai: two cancels do not reach it. *)
Lemma replaced_task_is_out_of_reach_witness :
  tasks (steps sample_env after_second_ai
           [Incoming CmdCancelai (msg_at ada "/cancelai" 107);
            Incoming CmdCancelproai (msg_at ada "/cancelproai" 108)]) !! 0%nat
  = Some (new_task (task_body CmdAi (msg_at ada "/ai a cat" 100))).
Proof.
  destruct (replaced_task_is_out_of_reach sample_env after_second_ai 0
              [Incoming CmdCancelai (msg_at ada "/cancelai" 107);
               Incoming CmdCancelproai (msg_at ada "/cancelproai" 108)]) as [Ht _].
  - intros u.
    change (user_tasks after_second_ai)
      with (<[7 := 1%nat]> (<[7 := 0%nat]> (∅ : gmap Z nat))).
    destruct (decide (u = 7)) as [->|Hne].
    + rewrite lookup_insert_eq. discriminate.
    + rewrite !lookup_insert_ne by done. rewrite lookup_empty. discriminate.
  - vm_compute. lia.
  - intros e He. apply elem_of_cons in He as [-> | He]; [discriminate|].
    apply list_elem_of_singleton in He as ->. discriminate.
  - rewrite Ht. reflexivity.
Defined.

(** ** Examples *)

Example split_redeem : Py.split "/redeem ABC123" = ["/redeem"; "ABC123"].
Proof. reflexivity. Qed.

Example split_blanks : Py.split "/ai a  cat" = ["/ai"; "a"; ""; "cat"].
Proof. reflexivity. Qed.

Example rest_blanks : Py.rest "/ai a  cat" = "a  cat".
Proof. reflexivity. Qed.

Example rest_none : Py.rest "/ai" = "" /\ Py.rest "/ai " = "".
Proof. split; reflexivity. Qed.

Example strip_name : Py.strip "Ada " = "Ada" /\ Py.strip " a b  " = "a b".
Proof. split; reflexivity. Qed.

Example strip_no_break_space : Py.strip (first_name eve) = "Eve".
Proof. reflexivity. Qed.

Example first_step_prompt : proai_prompt "a cat" 0 = "a cat (image 1 improving each time)".
Proof. reflexivity. Qed.

Example last_step_prompt : proai_prompt "a cat" 14 = "a cat (image 15 improving each time)".
Proof. reflexivity. Qed.

(** /ai by Ada, then the three turns of the task: the photo is sent, it
    is mirrored, then the image is stored and the task is done. *)
Example ai_then_turns :
  let st := steps sample_env logged_state
              [Incoming CmdAi (msg_at ada "/ai a cat" 100); Turn 0; Turn 0; Turn 0] in
  outbox st =
    [Reply 7 msg_generating;
     ProviderRequest "a cat";
     SendPhoto 7 "https://img/a cat";
     SendMessage (ChatStr "-100") (log_text ada "/ai a cat" "https://img/a cat")] /\
  user_images st !! 7 = Some "https://img/a cat" /\
  (t_done <$> tasks st) = [true].
Proof. repeat split. Qed.

(** Without a log channel the task is done after two turns. *)
Example ai_then_turns_unlogged :
  let st := steps sample_env (init_state None)
              [Incoming CmdAi (msg_at ada "/ai a cat" 100); Turn 0; Turn 0] in
  outbox st =
    [Reply 7 msg_generating; ProviderRequest "a cat"; SendPhoto 7 "https://img/a cat"] /\
  user_images st !! 7 = Some "https://img/a cat" /\
  (t_done <$> tasks st) = [true].
Proof. repeat split. Qed.

(** A cancel between two turns stops the task before the image is stored. *)
Example ai_canceled_midway :
  let st := steps sample_env logged_state
              [Incoming CmdAi (msg_at ada "/ai a cat" 100); Turn 0;
               Incoming CmdCancelai (msg_at ada "/cancelai" 101); Turn 0; Turn 0] in
  user_images st !! 7 = None /\ (t_done <$> tasks st) = [true] /\
  last (outbox st) = Some (Reply 7 msg_ai_canceled).
Proof. repeat split. Qed.

(** /start stores the stripped full name. *)
Example start_stores_user :
  users_collection (exec (start_command (msg_at ada "/start" 1)) logged_state) =
  [{| ud_user_id := 7; ud_username := Some "ada"; ud_full_name := "Ada" |}].
Proof. reflexivity. Qed.

(** The owner's /generate raises, the code Ada tries is unknown and /proai
    stays closed to her. *)
Example generate_redeem_proai :
  let st := steps sample_env (init_state None)
              [Incoming CmdGenerate (msg_at owner "/generate" 1);
               Incoming CmdRedeem (msg_at ada "/redeem CODE0" 2);
               Incoming CmdProai (msg_at ada "/proai a cat" 3)] in
  outbox st = [Raise NameError; Reply 7 msg_invalid_code; Reply 7 msg_need_redeem] /\
  codes st = [] /\ subscriptions_collection st = [] /\ tasks st = [].
Proof. repeat split. Qed.
